(** * A networked minesweeper: the match engine of the server

    The development embeds the game-state engine of the server
    (createNewGame, revealCell, checkWin, checkTimeout and the "flag"
    socket handler) and proves the properties its specification states.

    Conventions of the embedding.
    - JavaScript numbers that index the grid or count cells are integers,
      modelled as [Z]; timestamps are [Z] milliseconds.
    - [gameState] is a global mutable object: operations are computations
      in a state monad over [GameState].  A [TypeError] raised by reading a
      property of [undefined] is the outcome [Throw]; the state reached so
      far is kept, as it is in the running server.
    - [Date.now()] is an input: operations take the clock reading [now],
      and every reading made while one message is served is that [now].
    - [Math.random()] is an input: [createNewGame] takes the list [picks]
      of the successive pairs
      [(Math.floor(Math.random() * rows), Math.floor(Math.random() * cols))].
    - [revealCell] calls itself without a bound; it is modelled with a fuel
      argument, [Diverge] is the outcome of an exhausted fuel, and
      [revealCell_fuel_enough] shows which fuel suffices.
    - The stand-alone page carries its own copy of the engine, with a
      queue in place of the recursion; it is embedded in the module [App],
      its loop has a fuel too ([App_revealCell_fuel_enough]), and the
      properties of a reveal are proved of both copies.
    - The socket handlers of the server with their broadcasts ([serve]),
      the other handlers and the timer of the page ([Page]) and the reset
      message and the timer of the socket client ([Client]) are embedded
      as well; the last part of the file proves what the code shows of
      them. *)

From Stdlib Require Import ZArith Lia.
From stdpp Require Import base tactics option list list_numbers.

Open Scope Z_scope.

(** ** Data model *)

Inductive Status := Playing | Won | Lost.

Global Instance Status_eq_dec : EqDecision Status.
Proof. solve_decision. Defined.

Record Cell := mkCell {
  r : Z;
  c : Z;
  isMine : bool;
  isRevealed : bool;
  isFlagged : bool;
  neighborMines : Z
}.

Abbreviation Grid := (list (list Cell)).

Record GameState := mkGameState {
  grid : Grid;
  rows : Z;
  cols : Z;
  mines : Z;
  status : Status;
  startTime : option Z;
  endTime : option Z;
  timeLimit : Z
}.

(** Field assignments [cell.f = v] and [gameState.f = v]. *)

Definition setMine (x : Cell) : Cell :=
  mkCell (r x) (c x) true (isRevealed x) (isFlagged x) (neighborMines x).
Definition setRevealed (x : Cell) : Cell :=
  mkCell (r x) (c x) (isMine x) true (isFlagged x) (neighborMines x).
Definition toggleFlagged (x : Cell) : Cell :=
  mkCell (r x) (c x) (isMine x) (isRevealed x) (negb (isFlagged x)) (neighborMines x).
Definition setNeighborMines (n : Z) (x : Cell) : Cell :=
  mkCell (r x) (c x) (isMine x) (isRevealed x) (isFlagged x) n.

Definition withGrid (g : Grid) (s : GameState) : GameState :=
  mkGameState g (rows s) (cols s) (mines s) (status s) (startTime s) (endTime s) (timeLimit s).
Definition withStatus (st : Status) (s : GameState) : GameState :=
  mkGameState (grid s) (rows s) (cols s) (mines s) st (startTime s) (endTime s) (timeLimit s).
Definition withEndTime (t : Z) (s : GameState) : GameState :=
  mkGameState (grid s) (rows s) (cols s) (mines s) (status s) (startTime s) (Some t) (timeLimit s).

(** ** Grid access

    [grid[i][j]]: an index that is negative or past the end reads
    [undefined]. *)

Definition getRow (g : Grid) (i : Z) : option (list Cell) :=
  if decide (0 ≤ i) then g !! Z.to_nat i else None.

Definition getCell (g : Grid) (i j : Z) : option Cell :=
  match getRow g i with
  | Some row => if decide (0 ≤ j) then row !! Z.to_nat j else None
  | None => None
  end.

(** Assignment to a field of the object [grid[i][j]], once it was read. *)
Definition updCell (f : Cell → Cell) (i j : Z) (g : Grid) : Grid :=
  alter (alter f (Z.to_nat j)) (Z.to_nat i) g.

(** [rows.forEach(row => row.forEach(cell => ...))] over cell objects. *)
Definition forEachCell (f : Cell → Cell) (g : Grid) : Grid :=
  map (map f) g.

Definition isMineAt (g : Grid) (i j : Z) : bool :=
  match getCell g i j with Some x => isMine x | None => false end.
Definition isRevealedAt (g : Grid) (i j : Z) : bool :=
  match getCell g i j with Some x => isRevealed x | None => false end.
Definition isFlaggedAt (g : Grid) (i j : Z) : bool :=
  match getCell g i j with Some x => isFlagged x | None => false end.
Definition neighborMinesAt (g : Grid) (i j : Z) : Z :=
  match getCell g i j with Some x => neighborMines x | None => 0 end.

(** The test [nr >= 0 && nr < rows && nc >= 0 && nc < cols]. *)
Definition inBounds (nrows ncols i j : Z) : bool :=
  (0 <=? i) && (i <? nrows) && (0 <=? j) && (j <? ncols).

(** ** Computations: mutable state, exceptions, fuel *)

Inductive outcome (A : Type) :=
  | Ret (a : A)
  | Throw
  | Diverge.
Arguments Ret {A} a.
Arguments Throw {A}.
Arguments Diverge {A}.

Definition M (S A : Type) : Type := S → outcome A * S.

Definition ret {S A} (a : A) : M S A := λ s, (Ret a, s).
Definition throw {S A} : M S A := λ s, (Throw, s).
Definition diverge {S A} : M S A := λ s, (Diverge, s).
Definition bind {S A B} (m : M S A) (k : A → M S B) : M S B :=
  λ s, match m s with
       | (Ret a, s') => k a s'
       | (Throw, s') => (Throw, s')
       | (Diverge, s') => (Diverge, s')
       end.
Definition get {S} : M S S := λ s, (Ret s, s).
Definition modify {S} (f : S → S) : M S unit := λ s, (Ret tt, f s).

Notation "'let*' x := m 'in' k" := (bind m (λ x, k))
  (at level 10, x name, m at level 100, k at level 200,
   format "'[v' 'let*'  x  :=  m  'in' '/' k ']'").

(** [for (x of l) body(x)] *)
Fixpoint forM {S X} (l : list X) (body : X → M S unit) : M S unit :=
  match l with
  | [] => ret tt
  | x :: l' => let* _ := body x in forM l' body
  end.

(** The values of [dr] and [dc] in [for (let d = -1; d <= 1; d++)]. *)
Definition offsets : list Z := [-1; 0; 1].

(** ** Board generation: [createNewGame] *)

(** The first pair of loops: [grid[r][c] = { r, c, isMine: false, ... }]
    for [r] from 0 below [rows] and [c] from 0 below [cols]. *)
Definition newCell (i j : Z) : Cell := mkCell i j false false false 0.

Definition initGrid (nrows ncols : Z) : Grid :=
  (λ i, newCell i <$> seqZ 0 ncols) <$> seqZ 0 nrows.

(** Reading [grid[i][j]] and then a field of it. *)
Definition readCell (i j : Z) : M Grid Cell :=
  λ g, match getCell g i j with
       | Some x => (Ret x, g)
       | None => (Throw, g)
       end.

(** [while (minesPlaced < mines)]: one element of [picks] is consumed by
    each iteration; the loop is still running when [picks] is used up. *)
Fixpoint placeMines (picks : list (Z * Z)) (nmines minesPlaced : Z) : M Grid unit :=
  if decide (minesPlaced < nmines) then
    match picks with
    | [] => diverge
    | (i, j) :: picks' =>
        let* x := readCell i j in
        if negb (isMine x) then
          let* _ := modify (updCell setMine i j) in
          placeMines picks' nmines (minesPlaced + 1)
        else placeMines picks' nmines minesPlaced
    end
  else ret tt.

(** The two inner loops over [dr] and [dc] that compute [count]. *)
Definition countStep (nrows ncols i j dr dc : Z) (count : Z) : M Grid Z :=
  let nr := i + dr in
  let nc := j + dc in
  if inBounds nrows ncols nr nc then
    let* x := readCell nr nc in
    ret (if isMine x then count + 1 else count)
  else ret count.

Fixpoint foldM {S X A} (l : list X) (body : X → A → M S A) (a : A) : M S A :=
  match l with
  | [] => ret a
  | x :: l' => let* a' := body x a in foldM l' body a'
  end.

Definition countMines (nrows ncols i j : Z) : M Grid Z :=
  foldM offsets (λ dr count,
    foldM offsets (λ dc count, countStep nrows ncols i j dr dc count) count) 0.

(** The body of the loops under "Calculate neighbors". *)
Definition calcCell (nrows ncols i j : Z) : M Grid unit :=
  let* x := readCell i j in
  if isMine x then ret tt
  else
    let* count := countMines nrows ncols i j in
    modify (updCell (setNeighborMines count) i j).

Definition calcNeighbors (nrows ncols : Z) : M Grid unit :=
  forM (seqZ 0 nrows) (λ i, forM (seqZ 0 ncols) (λ j, calcCell nrows ncols i j)).

(** "Time limits based on difficulty". *)
Definition timeLimitFor (nrows ncols : Z) : Z :=
  let timeLimit := 120 in
  let timeLimit := if (nrows =? 16) && (ncols =? 16) then 300 else timeLimit in
  let timeLimit := if (nrows =? 16) && (ncols =? 30) then 600 else timeLimit in
  timeLimit.

Definition createNewGame (nrows ncols nmines : Z) (picks : list (Z * Z)) (now : Z)
  : outcome GameState :=
  match (let* _ := placeMines picks nmines 0 in calcNeighbors nrows ncols)
          (initGrid nrows ncols) with
  | (Ret _, g) =>
      Ret (mkGameState g nrows ncols nmines Playing (Some now) None
             (timeLimitFor nrows ncols))
  | (Throw, _) => Throw
  | (Diverge, _) => Diverge
  end.

(** ** The match engine *)

Definition readCellOf (i j : Z) : M GameState Cell :=
  λ s, match getCell (grid s) i j with
       | Some x => (Ret x, s)
       | None => (Throw, s)
       end.

Definition modifyGrid (f : Grid → Grid) : M GameState unit :=
  modify (λ s, withGrid (f (grid s)) s).

(** The test [gameState.status !== "playing"] is [negb (isPlaying s)]. *)
Definition isPlaying (s : GameState) : bool :=
  bool_decide (status s = Playing).

(** "Reveal all mines". *)
Definition revealMine (x : Cell) : Cell :=
  if isMine x then setRevealed x else x.
Definition revealAllMines : M GameState unit :=
  modifyGrid (forEachCell revealMine).

(** The counter of [checkWin]. *)
Definition unrevealedSafe (x : Cell) : bool :=
  negb (isMine x) && negb (isRevealed x).
Definition unrevealedSafeCells (g : Grid) : Z :=
  foldl (λ n row,
    foldl (λ n x, if unrevealedSafe x then n + 1 else n) n row) 0 g.

Definition checkWin (now : Z) : M GameState unit :=
  let* s := get in
  if unrevealedSafeCells (grid s) =? 0 then
    let* _ := modify (withStatus Won) in
    modify (withEndTime now)
  else ret tt.

(** The loops under "Flood fill"; [reveal] is the recursive call. *)
Definition floodFill (reveal : Z → Z → M GameState unit) (i j : Z)
  : M GameState unit :=
  forM offsets (λ dr, forM offsets (λ dc,
    let nr := i + dr in
    let nc := j + dc in
    let* s := get in
    if inBounds (rows s) (cols s) nr nc then reveal nr nc else ret tt)).

Fixpoint revealCell (fuel : nat) (now : Z) (i j : Z) : M GameState unit :=
  match fuel with
  | O => diverge
  | S fuel' =>
      let* s := get in
      if negb (isPlaying s) then ret tt else
      let* x := readCellOf i j in
      if isRevealed x || isFlagged x then ret tt else
      let* _ := modifyGrid (updCell setRevealed i j) in
      if isMine x then
        let* _ := modify (withStatus Lost) in
        let* _ := modify (withEndTime now) in
        revealAllMines
      else
        let* _ :=
          if neighborMines x =? 0
          then floodFill (revealCell fuel' now) i j
          else ret tt in
        checkWin now
  end.

(** [!gameState.startTime]: [null] and [0] are the falsy values of a
    [number | null]. *)
Definition startTimeUnset (s : GameState) : bool :=
  match startTime s with
  | None => true
  | Some t => t =? 0
  end.

Definition elapsedSeconds (now : Z) (s : GameState) : Z :=
  (now - default 0 (startTime s)) `div` 1000.

Definition checkTimeout (now : Z) : M GameState bool :=
  let* s := get in
  if negb (isPlaying s) || startTimeUnset s then ret false else
  let elapsed := elapsedSeconds now s in
  if timeLimit s <=? elapsed then
    let* _ := modify (withStatus Lost) in
    let* _ := modify (withEndTime now) in
    let* _ := revealAllMines in
    ret true
  else ret false.

(** The handler of the "flag" message (the broadcast is not modelled). *)
Definition flagCell (i j : Z) : M GameState unit :=
  let* s := get in
  if negb (isPlaying s) then ret tt else
  let* x := readCellOf i j in
  if negb (isRevealed x) then modifyGrid (updCell toggleFlagged i j)
  else ret tt.

(** The fuel given to a click: one more than the number of cells. *)
Definition cellCount (g : Grid) : nat := length (concat g).
Definition click (now : Z) (i j : Z) : M GameState unit :=
  λ s, revealCell (S (cellCount (grid s))) now i j s.

(** * Specification-side notions *)

(** ** Shape and counting *)

(** The grid has [nrows] rows of [ncols] cells each. *)
Definition Shape (nrows ncols : Z) (g : Grid) : Prop :=
  Z.of_nat (length g) = nrows ∧
  Forall (λ row : list Cell, Z.of_nat (length row) = ncols) g.

Definition ShapeOf (s : GameState) : Prop := Shape (rows s) (cols s) (grid s).

(** The number of cells of a grid that satisfy [P]. *)
Definition countRow (P : Cell → bool) (row : list Cell) : nat :=
  foldr (λ x n, if P x then S n else n) 0%nat row.
Definition countGrid (P : Cell → bool) (g : Grid) : nat :=
  foldr (λ row n, (countRow P row + n)%nat) 0%nat g.

Definition hidden (x : Cell) : bool := negb (isRevealed x).

(** ** How an operation may change the match *)

(** [cell_le x y]: [y] is [x], possibly revealed in the meantime. *)
Definition cell_le (x y : Cell) : Prop :=
  r y = r x ∧ c y = c x ∧ isMine y = isMine x ∧ isFlagged y = isFlagged x ∧
  neighborMines y = neighborMines x ∧
  (isRevealed x = true → isRevealed y = true).

Definition grid_le (g g' : Grid) : Prop := Forall2 (Forall2 cell_le) g g'.

(** [Ext s s']: from [s] to [s'] cells were revealed at most; status and
    end time are left free. *)
Definition Ext (s s' : GameState) : Prop :=
  grid_le (grid s) (grid s') ∧ rows s' = rows s ∧ cols s' = cols s ∧
  mines s' = mines s ∧ startTime s' = startTime s ∧ timeLimit s' = timeLimit s.

(** What one call of [revealCell] does to the state: an extension, and
    nothing at all once the match is over. *)
Definition RevealStep (s s' : GameState) : Prop :=
  Ext s s' ∧ (status s ≠ Playing → s' = s).

(** ** Total correctness of a computation *)

Definition post {S A} (m : M S A) (s : S) (Q : A → S → Prop) : Prop :=
  ∃ a s', m s = (Ret a, s') ∧ Q a s'.

(** ** The flood fill, as a reachability relation *)

(** A cell that a reveal would act on: present, not revealed, not flagged. *)
Definition openAt (g : Grid) (i j : Z) : bool :=
  match getCell g i j with
  | Some x => negb (isRevealed x) && negb (isFlagged x)
  | None => false
  end.

(** [(i', j')] is [(i + dr, j + dc)] for [dr], [dc] between -1 and 1. *)
Definition adjacent (i j i' j' : Z) : Prop :=
  -1 ≤ i' - i ≤ 1 ∧ -1 ≤ j' - j ≤ 1.

(** The cells a flood fill started on [(i0, j0)] walks to: it steps from a
    safe cell with no neighbouring mine to any adjacent open cell. *)
Inductive Reach (g : Grid) (i0 j0 : Z) : Z → Z → Prop :=
  | Reach_start :
      openAt g i0 j0 = true → Reach g i0 j0 i0 j0
  | Reach_step i j i' j' :
      Reach g i0 j0 i j →
      isMineAt g i j = false → neighborMinesAt g i j = 0 →
      adjacent i j i' j' → openAt g i' j' = true →
      Reach g i0 j0 i' j'.

(** No safe cell that shows 0 has a mine next to it. *)
Definition NoAdjMine (g : Grid) : Prop :=
  ∀ i j i' j',
    is_Some (getCell g i j) → isMineAt g i j = false →
    neighborMinesAt g i j = 0 → adjacent i j i' j' →
    isMineAt g i' j' = false.

(** Every zero cell revealed between [g0] and [g'] has all its neighbours
    revealed or flagged in [g']. *)
Definition Closed (g0 g' : Grid) : Prop :=
  ∀ i j i' j',
    isRevealedAt g0 i j = false → isRevealedAt g' i j = true →
    isMineAt g' i j = false → neighborMinesAt g' i j = 0 →
    adjacent i j i' j' → is_Some (getCell g' i' j') →
    isRevealedAt g' i' j' || isFlaggedAt g' i' j' = true.

(** Every cell revealed between [g0] and [g'] is reached from [(i, j)]. *)
Definition Sound (g0 : Grid) (i j : Z) (g' : Grid) : Prop :=
  ∀ i' j',
    isRevealedAt g0 i' j' = false → isRevealedAt g' i' j' = true →
    Reach g0 i j i' j'.

(** The match is won only with every safe cell revealed. *)
Definition WinInv (s : GameState) : Prop :=
  status s = Won → countGrid unrevealedSafe (grid s) = 0%nat.

(** What a call [revealCell(i, j)] made in state [s0] guarantees of the
    state [s'] it returns in. *)
Definition RevealPost (now : Z) (s0 : GameState) (i j : Z) (s' : GameState) : Prop :=
  RevealStep s0 s' ∧
  (status s0 = Playing →
     isRevealedAt (grid s') i j || isFlaggedAt (grid s') i j = true) ∧
  (WinInv s0 → WinInv s') ∧
  (status s0 = Playing → openAt (grid s0) i j = true →
   isMineAt (grid s0) i j = false →
     (status s' = Won ↔ countGrid unrevealedSafe (grid s') = 0%nat) ∧
     (status s' = Won → endTime s' = Some now)) ∧
  (NoAdjMine (grid s0) → isMineAt (grid s0) i j = false →
   status s0 ≠ Lost → WinInv s0 →
     status s' ≠ Lost ∧ Closed (grid s0) (grid s') ∧
     Sound (grid s0) i j (grid s')).

(** The invariant of the flood-fill loops of the call [revealCell(i, j)]
    made in state [s]; [s1] is the state in which the loops start. *)
Definition FillInv (s s1 : GameState) (i j : Z) (s2 : GameState) : Prop :=
  RevealStep s1 s2 ∧ WinInv s2 ∧
  (NoAdjMine (grid s) → isMineAt (grid s) i j = false →
   status s ≠ Lost → WinInv s →
     status s2 ≠ Lost ∧ Closed (grid s1) (grid s2) ∧
     Sound (grid s) i j (grid s2)).

(** The neighbour [(i, j)] was dealt with: it is revealed or flagged, or
    the match ended before its turn. *)
Definition Visited (s : GameState) (i j : Z) (s2 : GameState) : Prop :=
  inBounds (rows s) (cols s) i j = true →
  status s2 ≠ Playing ∨
  isRevealedAt (grid s2) i j || isFlaggedAt (grid s2) i j = true.

(** ** Runs of the engine *)

(** The messages the engine acts on: a click, a flag, a tick of the
    one-second timer. *)
Inductive Action :=
  | Click (i j : Z)
  | Flag (i j : Z)
  | Tick.

Definition act (now : Z) (a : Action) : M GameState unit :=
  match a with
  | Click i j => click now i j
  | Flag i j => flagCell i j
  | Tick => let* _ := checkTimeout now in ret tt
  end.

(** The state the server is left in by an action; an exception raised by
    the handler leaves the state it had reached. *)
Definition after (now : Z) (a : Action) (s : GameState) : GameState :=
  snd (act now a s).

(** A run: each action comes with the clock reading it is served at. *)
Definition runAll (l : list (Z * Action)) (s : GameState) : GameState :=
  foldl (λ s '(now, a), after now a s) s l.

(** The parameters [createNewGame] is meant for. *)
Definition validSize (nrows ncols nmines : Z) : Prop :=
  0 < nrows ∧ 0 < ncols ∧ 0 ≤ nmines < nrows * ncols.

(** The states of a match: a freshly generated one, and those any run of
    clicks, flags and ticks leads to. *)
Inductive Reachable : GameState → Prop :=
  | Reachable_new nrows ncols nmines picks now s :
      validSize nrows ncols nmines →
      createNewGame nrows ncols nmines picks now = Ret s →
      Reachable s
  | Reachable_after now a s :
      Reachable s → Reachable (after now a s).

(** ** Sample matches *)

Definition emptyGame : GameState :=
  mkGameState [] 0 0 0 Lost None None 0.

Definition newGame (nrows ncols nmines : Z) (picks : list (Z * Z)) (now : Z)
  : GameState :=
  match createNewGame nrows ncols nmines picks now with
  | Ret s => s
  | _ => emptyGame
  end.

(** One safe cell. *)
Definition board1x1 : GameState := Eval cbv in newGame 1 1 0 [] 1000.

(** One row of five safe cells. *)
Definition board1x5 : GameState := Eval cbv in newGame 1 5 0 [] 1000.

(** Two rows of three cells, mines in two opposite corners. *)
Definition board2x3 : GameState :=
  Eval cbv in newGame 2 3 2 [(0, 0); (0, 0); (1, 2)] 1000.

(** One row of three cells, mines on the first two. *)
Definition board1x3 : GameState :=
  Eval cbv in newGame 1 3 2 [(0, 0); (0, 1)] 1000.

(** ** Correct neighbour counts *)

(** The up to eight cells at Chebyshev distance 1 of [(i, j)]; those off
    the grid hold no cell, hence no mine. *)
Definition neighbours8 (i j : Z) : list (Z * Z) :=
  [(i - 1, j - 1); (i - 1, j); (i - 1, j + 1);
   (i, j - 1); (i, j + 1);
   (i + 1, j - 1); (i + 1, j); (i + 1, j + 1)].

Definition adjacentMines (g : Grid) (i j : Z) : Z :=
  foldr (λ p n, if isMineAt g p.1 p.2 then n + 1 else n) 0 (neighbours8 i j).

(** Every safe cell shows the number of mines around it. *)
Definition CountsCorrect (g : Grid) : Prop :=
  ∀ i j, is_Some (getCell g i j) → isMineAt g i j = false →
         neighborMinesAt g i j = adjacentMines g i j.

(** ** The region a flood fill reveals *)

(** The zero cells the fill walks through, from the clicked cell on:
    open safe cells that show 0, each adjacent to the one before. *)
Inductive Region (g : Grid) (i0 j0 : Z) : Z → Z → Prop :=
  | Region_start :
      openAt g i0 j0 = true → isMineAt g i0 j0 = false →
      neighborMinesAt g i0 j0 = 0 →
      Region g i0 j0 i0 j0
  | Region_step i j i' j' :
      Region g i0 j0 i j → adjacent i j i' j' →
      openAt g i' j' = true → isMineAt g i' j' = false →
      neighborMinesAt g i' j' = 0 →
      Region g i0 j0 i' j'.

(** The numbered cells on the border of the region. *)
Definition Border (g : Grid) (i0 j0 i' j' : Z) : Prop :=
  ∃ i j, Region g i0 j0 i j ∧ adjacent i j i' j' ∧
         openAt g i' j' = true ∧ 0 < neighborMinesAt g i' j'.

(** The 8-connected region of zero cells around [(i0, j0)], whether the
    cells are revealed or not: safe unflagged cells that show 0. *)
Inductive ZeroRegion (g : Grid) (i0 j0 : Z) : Z → Z → Prop :=
  | ZeroRegion_start : ZeroRegion g i0 j0 i0 j0
  | ZeroRegion_step i j i' j' :
      ZeroRegion g i0 j0 i j → adjacent i j i' j' →
      is_Some (getCell g i' j') →
      isMineAt g i' j' = false → isFlaggedAt g i' j' = false →
      neighborMinesAt g i' j' = 0 →
      ZeroRegion g i0 j0 i' j'.

(** ** Freshly generated boards *)

(** No cell is revealed or flagged. *)
Definition AllHidden (g : Grid) : Prop :=
  ∀ i j x, getCell g i j = Some x → isRevealed x = false ∧ isFlagged x = false.

(** What the loops under "Calculate neighbors" make of the cell
    [(i, j)] of the grid [g0] they start on. *)
Definition counted (g0 : Grid) (i j : Z) (x : Cell) : Cell :=
  if isMine x then x else setNeighborMines (adjacentMines g0 i j) x.

(** The picks are cells of the grid. *)
Definition picksInRange (nrows ncols : Z) (picks : list (Z * Z)) : Prop :=
  ∀ p, p ∈ picks → inBounds nrows ncols p.1 p.2 = true.

(** The distinct picks that fall on cells of [g] without a mine. *)
Definition freshPicks (g : Grid) (picks : list (Z * Z)) : list (Z * Z) :=
  remove_dups (filter (λ p, isMineAt g p.1 p.2 = false) picks).

(** The invariant of the loops under "Calculate neighbors", started on
    [g0]: the cells that [processed] marks hold their count, the others are
    as in [g0]. *)
Definition CalcInv (nrows ncols : Z) (g0 : Grid) (processed : Z → Z → bool)
    (g : Grid) : Prop :=
  Shape nrows ncols g ∧
  countGrid isMine g = countGrid isMine g0 ∧
  ∀ a b, getCell g a b =
         if processed a b then counted g0 a b <$> getCell g0 a b
         else getCell g0 a b.

(** ** The invariant of a match *)

(** What holds of every state of a match: the grid is rectangular with
    correct counts; the match is won exactly with every safe cell
    revealed; no mine shows before the match is lost; and a cell that is
    both revealed and flagged is a mine. *)
Definition GoodState (s : GameState) : Prop :=
  ShapeOf s ∧ CountsCorrect (grid s) ∧ WinInv s ∧
  (status s = Playing → countGrid unrevealedSafe (grid s) ≠ 0%nat) ∧
  (status s ≠ Lost →
   ∀ i j, isMineAt (grid s) i j = true → isRevealedAt (grid s) i j = false) ∧
  (∀ i j, isRevealedAt (grid s) i j = true → isFlaggedAt (grid s) i j = true →
          isMineAt (grid s) i j = true).

(** The state a lost match is left in, by a mine or by the clock. *)
Definition lostAt (t : Z) (s : GameState) : GameState :=
  mkGameState (forEachCell revealMine (grid s)) (rows s) (cols s) (mines s)
    Lost (startTime s) (Some t) (timeLimit s).

(** ** The engine of the stand-alone page

    The page that plays without a server holds a copy of the engine.  Its
    [revealCell] takes the state and returns a new one; the flood fill is
    a loop over a queue instead of a recursion. *)

Module App.

(** The test and the body inside the loops over [dr] and [dc]; the state
    is the pair of [newGrid] and [queue]. *)
Definition visit (nrows ncols nr nc : Z) : M (Grid * list (Z * Z)) unit :=
  λ st,
    if inBounds nrows ncols nr nc then
      match getCell st.1 nr nc with
      | None => (Throw, st)
      | Some y =>
          if negb (isRevealed y) && negb (isFlagged y) && negb (isMine y) then
            (Ret tt,
             (updCell setRevealed nr nc st.1,
              if neighborMines y =? 0 then st.2 ++ [(nr, nc)] else st.2))
          else (Ret tt, st)
      end
    else (Ret tt, st).

(** [while (queue.length > 0)]; the fuel bounds the iterations. *)
Fixpoint drainQueue (fuel : nat) (nrows ncols : Z) : M (Grid * list (Z * Z)) unit :=
  match fuel with
  | O => diverge
  | S fuel' =>
      let* st := get in
      match st.2 with
      | [] => ret tt
      | (cr, cc) :: queue' =>
          let* _ := modify (λ st : Grid * list (Z * Z), (st.1, queue')) in
          let* _ :=
            forM offsets (λ dr, forM offsets (λ dc,
              visit nrows ncols (cr + dr) (cc + dc))) in
          drainQueue fuel' nrows ncols
      end
  end.

(** [newGrid.flat().filter(c => !c.isMine && !c.isRevealed).length] *)
Definition unrevealed (g : Grid) : Z :=
  Z.of_nat (length (filter (λ x, unrevealedSafe x = true) (concat g))).

Definition revealCell (fuel : nat) (now : Z) (i j : Z) (state : GameState)
  : outcome GameState :=
  if negb (isPlaying state) then Ret state else
  match getCell (grid state) i j with
  | None => Throw
  | Some x =>
      if isRevealed x || isFlagged x then Ret state else
      let newGrid := updCell setRevealed i j (grid state) in
      if isMine x then
        Ret (mkGameState (forEachCell revealMine newGrid) (rows state)
               (cols state) (mines state) Lost (startTime state) (Some now)
               (timeLimit state))
      else
        match (if neighborMines x =? 0
               then drainQueue fuel (rows state) (cols state)
               else ret tt) (newGrid, [(i, j)]) with
        | (Ret _, (newGrid', _)) =>
            if unrevealed newGrid' =? 0 then
              Ret (mkGameState newGrid' (rows state) (cols state) (mines state)
                     Won (startTime state) (Some now) (timeLimit state))
            else Ret (withGrid newGrid' state)
        | (Throw, _) => Throw
        | (Diverge, _) => Diverge
        end
  end.

(** The click handler; the fuel is one more than the number of cells. *)
Definition handleCellClick (now : Z) (i j : Z) (prev : GameState)
  : outcome GameState :=
  if negb (isPlaying prev) then Ret prev
  else revealCell (S (cellCount (grid prev))) now i j prev.

End App.

(** The invariant of the queue loop started by a click on [(i0, j0)] of the
    grid [g0]: cells were revealed only, all of them safe and reached from
    the click; the queue holds revealed safe zero cells; and every zero
    cell revealed so far either waits in the queue (or is [cur], the one at
    work) or has all its neighbours revealed, flagged or mined.  [bound]
    limits the iterations left. *)
Definition DrainInv (nrows ncols : Z) (g0 : Grid) (i0 j0 : Z)
    (cur : option (Z * Z)) (bound : nat) (st : Grid * list (Z * Z)) : Prop :=
  Shape nrows ncols st.1 ∧ grid_le g0 st.1 ∧
  (countGrid hidden st.1 + length st.2 ≤ bound)%nat ∧
  (∀ a b, isRevealedAt g0 a b = false → isRevealedAt st.1 a b = true →
          Reach g0 i0 j0 a b ∧ isMineAt g0 a b = false) ∧
  (∀ a b, (a, b) ∈ st.2 ∨ cur = Some (a, b) →
          Reach g0 i0 j0 a b ∧ isMineAt g0 a b = false ∧
          neighborMinesAt g0 a b = 0 ∧ isRevealedAt st.1 a b = true) ∧
  (∀ a b a' b',
     isRevealedAt g0 a b = false → isRevealedAt st.1 a b = true →
     neighborMinesAt g0 a b = 0 →
     (a, b) ∈ st.2 ∨ cur = Some (a, b) ∨
     (adjacent a b a' b' → is_Some (getCell g0 a' b') →
      isRevealedAt st.1 a' b' || isFlaggedAt g0 a' b' || isMineAt g0 a' b' = true)).

(** How a visit moves the state of the queue loop. *)
Definition DrainStep (st st' : Grid * list (Z * Z)) : Prop :=
  grid_le st.1 st'.1 ∧ (∀ p, p ∈ st.2 → p ∈ st'.2).

(** The neighbour [(a, b)] of the cell at work needs no more attention. *)
Definition Settled (g0 : Grid) (a b : Z) (st : Grid * list (Z * Z)) : Prop :=
  is_Some (getCell g0 a b) →
  isRevealedAt st.1 a b || isFlaggedAt g0 a b || isMineAt g0 a b = true.

(** ** The outcome of a reveal, as the claims state it *)

(** From [s] to [s'] the click on [(i, j)] revealed the region of the
    cell and its border, and nothing else; flags and mines are where they
    were, and no flagged cell and no mine was revealed. *)
Definition FillsRegion (s : GameState) (i j : Z) (s' : GameState) : Prop :=
  (∀ a b, isRevealedAt (grid s') a b = true ↔
          isRevealedAt (grid s) a b = true ∨
          Region (grid s) i j a b ∨ Border (grid s) i j a b) ∧
  (∀ a b, isFlaggedAt (grid s') a b = isFlaggedAt (grid s) a b) ∧
  (∀ a b, isMineAt (grid s') a b = isMineAt (grid s) a b) ∧
  (∀ a b, isRevealedAt (grid s) a b = false →
          isRevealedAt (grid s') a b = true →
          isFlaggedAt (grid s) a b = false ∧ isMineAt (grid s) a b = false).

(** The state [s'] that a reveal served at [now] returns is won exactly
    when no safe cell is left hidden, and then has its end time set. *)
Definition WinChecked (now : Z) (s' : GameState) : Prop :=
  (status s' = Won ↔ unrevealedSafeCells (grid s') = 0) ∧
  (status s' = Won ↔
   ∀ a b y, getCell (grid s') a b = Some y →
            isMine y = true ∨ isRevealed y = true) ∧
  (status s' = Won → endTime s' = Some now).

(** From [s] to [s'] the match was not lost and no mine was revealed. *)
Definition MinesKept (s s' : GameState) : Prop :=
  status s' ≠ Lost ∧
  ∀ a b, isMineAt (grid s) a b = true →
         isRevealedAt (grid s') a b = isRevealedAt (grid s) a b.

(** ** The rest of the server: reset, and what is broadcast *)

(** [v || d] for a field of the payload that is a number or is missing:
    [undefined] and 0 are falsy. *)
Definition orDefault (v : option Z) (d : Z) : Z :=
  match v with
  | Some n => if n =? 0 then d else n
  | None => d
  end.

(** What a handler hands to [io.emit("gameUpdate", gameState)], if it
    gets that far. *)
Definition emitState : M GameState (option GameState) :=
  let* s := get in ret (Some s).

(** [socket.on("click", ...)]: the reveal, then the broadcast. *)
Definition onClick (now : Z) (i j : Z) : M GameState (option GameState) :=
  let* _ := click now i j in emitState.

(** [socket.on("flag", ...)]: the broadcast is inside the test. *)
Definition onFlag (i j : Z) : M GameState (option GameState) :=
  let* s := get in
  if negb (isPlaying s) then ret None else
  let* x := readCellOf i j in
  if negb (isRevealed x) then
    let* _ := modifyGrid (updCell toggleFlagged i j) in emitState
  else ret None.

(** The callback of [setInterval]: broadcast when the time is up. *)
Definition onInterval (now : Z) : M GameState (option GameState) :=
  let* expired := checkTimeout now in
  if expired then emitState else ret None.

(** [socket.on("reset", ...)]: [gameState] is assigned once
    [createNewGame] has returned. *)
Definition onReset (prows pcols pmines : option Z) (picks : list (Z * Z))
    (now : Z) : M GameState (option GameState) :=
  λ s,
    match createNewGame (orDefault prows 10) (orDefault pcols 10)
            (orDefault pmines 15) picks now with
    | Ret s' => (Ret (Some s'), s')
    | Throw => (Throw, s)
    | Diverge => (Diverge, s)
    end.

(** The messages of the server, with the reset. *)
Inductive Message :=
  | MClick (i j : Z)
  | MFlag (i j : Z)
  | MTick
  | MReset (prows pcols pmines : option Z) (picks : list (Z * Z)).

Definition serve (now : Z) (m : Message) : M GameState (option GameState) :=
  match m with
  | MClick i j => onClick now i j
  | MFlag i j => onFlag i j
  | MTick => onInterval now
  | MReset prows pcols pmines picks => onReset prows pcols pmines picks now
  end.

(** ** The rest of the stand-alone page *)

Module Page.

(** The right-click handler: the flag, on a copy of the grid. *)
Definition handleCellRightClick (i j : Z) (prev : GameState) : outcome GameState :=
  if negb (isPlaying prev) then Ret prev else
  match getCell (grid prev) i j with
  | None => Throw
  | Some x =>
      if isRevealed x then Ret prev
      else Ret (withGrid (updCell toggleFlagged i j (grid prev)) prev)
  end.

Inductive Difficulty := Easy | Medium | Hard.

(** The [config] of [handleReset]. *)
Definition config (d : Difficulty) : Z * Z * Z :=
  let config := (10, 10, 15) in
  let config := match d with Medium => (16, 16, 40) | _ => config end in
  let config := match d with Hard => (16, 30, 99) | _ => config end in
  config.

Definition handleReset (d : Difficulty) (picks : list (Z * Z)) (now : Z)
  : outcome GameState :=
  let '(nrows, ncols, nmines) := config d in
  createNewGame nrows ncols nmines picks now.

(** [gameState.endTime] as a condition. *)
Definition endTimeSet (s : GameState) : bool :=
  match endTime s with
  | None => false
  | Some t => negb (t =? 0)
  end.

(** The value the timer effect gives to [setTimer], at the clock reading
    [now]: the time left while the match is played, the time that was left
    when it ended afterwards. *)
Definition timer (now : Z) (s : GameState) : Z :=
  if isPlaying s && negb (startTimeUnset s) then
    Z.max 0 (timeLimit s - elapsedSeconds now s)
  else if negb (startTimeUnset s) && endTimeSet s then
    Z.max 0 (timeLimit s - (default 0 (endTime s) - default 0 (startTime s)) `div` 1000)
  else timeLimit s.

(** The state after the callback of the interval of the timer effect. *)
Definition onInterval (now : Z) (prev : GameState) : GameState :=
  if isPlaying prev && negb (startTimeUnset prev) then
    let remaining := Z.max 0 (timeLimit prev - elapsedSeconds now prev) in
    if remaining =? 0 then
      if negb (isPlaying prev) then prev
      else mkGameState (forEachCell revealMine (grid prev)) (rows prev)
             (cols prev) (mines prev) Lost (startTime prev) (Some now)
             (timeLimit prev)
    else prev
  else prev.

(** [gameState.grid.flat().filter(c => c.isFlagged).length] *)
Definition flagsUsed (s : GameState) : Z :=
  Z.of_nat (length (filter (λ x, isFlagged x = true) (concat (grid s)))).

(** The number shown under "Threats". *)
Definition threats (s : GameState) : Z := Z.max 0 (mines s - flagsUsed s).

End Page.

(** ** Notions for the further properties *)

(** The outcome of a computation of the server, as the page returns it. *)
Definition asOutcome (r : outcome unit * GameState) : outcome GameState :=
  match r with
  | (Ret _, s) => Ret s
  | (Throw, _) => Throw
  | (Diverge, _) => Diverge
  end.

(** From [s] to [s'], status and end time are as they were, or the match
    ended at [now]. *)
Definition StatusStep (now : Z) (s s' : GameState) : Prop :=
  (status s' = status s ∧ endTime s' = endTime s) ∨
  (status s' ≠ Playing ∧ endTime s' = Some now).

(** The board of [s'] is the board of [s]: same size, same mines, same
    counts, same start and time limit. *)
Definition SameBoard (s s' : GameState) : Prop :=
  rows s' = rows s ∧ cols s' = cols s ∧ mines s' = mines s ∧
  startTime s' = startTime s ∧ timeLimit s' = timeLimit s ∧
  (ShapeOf s → ShapeOf s') ∧
  ∀ i j, match getCell (grid s) i j, getCell (grid s') i j with
         | Some x, Some y =>
             r y = r x ∧ c y = c x ∧ isMine y = isMine x ∧
             neighborMines y = neighborMines x
         | None, None => True
         | _, _ => False
         end.

(** Each cell knows where it is, and shows a count between 0 and 8. *)
Definition CellsLabelled (g : Grid) : Prop :=
  ∀ i j x, getCell g i j = Some x →
           r x = i ∧ c x = j ∧ 0 ≤ neighborMines x ≤ 8.

(** Cells as the first loops of [createNewGame] and the mine placement
    leave them: labelled, with a count of 0. *)
Definition Unnumbered (g : Grid) : Prop :=
  ∀ i j x, getCell g i j = Some x → r x = i ∧ c x = j ∧ neighborMines x = 0.

(** How status, end time and grid go together: the end time is set
    exactly when the match is over, and a lost match shows every mine and
    still hides a safe cell. *)
Definition EndFacts (s : GameState) : Prop :=
  (status s = Playing ↔ endTime s = None) ∧
  (status s = Lost →
     countGrid unrevealedSafe (grid s) ≠ 0%nat ∧
     ∀ i j, isMineAt (grid s) i j = true → isRevealedAt (grid s) i j = true).

(** ** Runs of the stand-alone page

    The state the page is left in by a click, a right click or a tick of
    its timer: the handlers hand [setGameState] a function of the
    previous state; when that function throws, no new state is set. *)

Definition pageAfter (now : Z) (a : Action) (s : GameState) : GameState :=
  match a with
  | Click i j =>
      match App.handleCellClick now i j s with Ret s' => s' | _ => s end
  | Flag i j =>
      match Page.handleCellRightClick i j s with Ret s' => s' | _ => s end
  | Tick => Page.onInterval now s
  end.

Definition pageRunAll (l : list (Z * Action)) (s : GameState) : GameState :=
  foldl (λ s '(now, a), pageAfter now a s) s l.

(** ** The socket client

    The page that talks to the server keeps no engine: it sends the
    messages and shows the state it is sent. *)

Module Client.

(** [handleReset]: the payload of the "reset" message. *)
Definition handleReset (d : Page.Difficulty) (picks : list (Z * Z)) : Message :=
  let config := (10, 10, 15) in
  let config := match d with Page.Medium => (16, 16, 40) | _ => config end in
  let config := match d with Page.Hard => (16, 30, 99) | _ => config end in
  let '(nrows, ncols, nmines) := config in
  MReset (Some nrows) (Some ncols) (Some nmines) picks.

(** The timer effect: the value given to [setTimer] at the clock reading
    [now], or [prev], the value the timer had, when the effect sets
    nothing. *)
Definition timer (now : Z) (s : GameState) (prev : Z) : Z :=
  if isPlaying s && negb (startTimeUnset s) then
    Z.max 0 (timeLimit s - elapsedSeconds now s)
  else if negb (isPlaying s) && negb (startTimeUnset s) && Page.endTimeSet s then
    Z.max 0 (timeLimit s - (default 0 (endTime s) - default 0 (startTime s)) `div` 1000)
  else if negb (timeLimit s =? 0) then timeLimit s
  else prev.

End Client.

(** * Properties *)

(** ** Reading and writing the grid *)

Lemma getCell_Some g i j x :
  getCell g i j = Some x ↔
  0 ≤ i ∧ 0 ≤ j ∧ ∃ row, g !! Z.to_nat i = Some row ∧ row !! Z.to_nat j = Some x.
Proof.
  unfold getCell, getRow. split.
  - destruct (decide (0 ≤ i)); [|done].
    destruct (g !! Z.to_nat i) as [row|] eqn:Hrow; [|done].
    destruct (decide (0 ≤ j)); [|done]. eauto.
  - intros (Hi & Hj & row & Hrow & Hx).
    rewrite decide_True, Hrow, decide_True by done. done.
Qed.

Lemma getCell_nonneg g i j x : getCell g i j = Some x → 0 ≤ i ∧ 0 ≤ j.
Proof. rewrite getCell_Some. tauto. Qed.

Lemma getCell_updCell f i j g i' j' :
  0 ≤ i → 0 ≤ j →
  getCell (updCell f i j g) i' j' =
  if decide (i' = i ∧ j' = j) then f <$> getCell g i j else getCell g i' j'.
Proof.
  intros Hi Hj. unfold getCell, getRow, updCell.
  destruct (decide (i' = i ∧ j' = j)) as [[-> ->]|Hne].
  - destruct (decide (0 ≤ i)); [|done]. destruct (decide (0 ≤ j)); [|done].
    rewrite list_lookup_alter_eq.
    destruct (g !! Z.to_nat i) as [row|]; simpl; [|done].
    by rewrite list_lookup_alter_eq.
  - destruct (decide (0 ≤ i')) as [Hi'|Hi']; [|done].
    destruct (decide (i' = i)) as [->|Hnei].
    + rewrite list_lookup_alter_eq.
      destruct (g !! Z.to_nat i) as [row|]; simpl; [|done].
      destruct (decide (0 ≤ j')) as [Hj'|Hj']; [|done].
      rewrite list_lookup_alter_ne; [done|]. intros E. apply Hne. split; [done|lia].
    + rewrite list_lookup_alter_ne by lia. done.
Qed.

Lemma getCell_updCell_eq f i j g x :
  getCell g i j = Some x → getCell (updCell f i j g) i j = Some (f x).
Proof.
  intros Hx. destruct (getCell_nonneg _ _ _ _ Hx).
  rewrite getCell_updCell, decide_True, Hx by done. done.
Qed.

Lemma getCell_updCell_ne f i j g i' j' :
  0 ≤ i → 0 ≤ j → (i', j') ≠ (i, j) →
  getCell (updCell f i j g) i' j' = getCell g i' j'.
Proof.
  intros Hi Hj Hne. rewrite getCell_updCell by done.
  rewrite decide_False; [done|]. intros [-> ->]. done.
Qed.

Lemma getCell_forEachCell f g i j :
  getCell (forEachCell f g) i j = f <$> getCell g i j.
Proof.
  unfold getCell, getRow, forEachCell.
  destruct (decide (0 ≤ i)); [|done].
  rewrite list_lookup_fmap.
  destruct (g !! Z.to_nat i) as [row|]; simpl; [|done].
  destruct (decide (0 ≤ j)); [|done].
  by rewrite list_lookup_fmap.
Qed.

(** ** Shape *)

Lemma Shape_getCell nrows ncols g i j :
  Shape nrows ncols g →
  is_Some (getCell g i j) ↔ inBounds nrows ncols i j = true.
Proof.
  intros [Hlen Hrows]. unfold inBounds.
  rewrite !andb_true_iff, !Z.leb_le, !Z.ltb_lt. split.
  - intros [x Hx]. apply getCell_Some in Hx as (Hi & Hj & row & Hrow & Hx).
    pose proof (lookup_lt_Some _ _ _ Hrow) as Hlt.
    pose proof (lookup_lt_Some _ _ _ Hx) as Hlt'.
    rewrite Forall_lookup in Hrows. specialize (Hrows _ _ Hrow). simpl in Hrows.
    lia.
  - intros [[[Hi Hi'] Hj] Hj'].
    destruct (lookup_lt_is_Some_2 g (Z.to_nat i)) as [row Hrow]; [lia|].
    rewrite Forall_lookup in Hrows. specialize (Hrows _ _ Hrow). simpl in Hrows.
    destruct (lookup_lt_is_Some_2 row (Z.to_nat j)) as [x Hx]; [lia|].
    exists x. apply getCell_Some. eauto 6.
Qed.

Lemma Shape_updCell nrows ncols f i j g :
  Shape nrows ncols g → Shape nrows ncols (updCell f i j g).
Proof.
  intros [Hlen Hrows]. unfold updCell. split.
  - by rewrite length_alter.
  - apply Forall_alter; [done|]. intros row _ Hrow. by rewrite length_alter.
Qed.

Lemma Shape_forEachCell nrows ncols f g :
  Shape nrows ncols g → Shape nrows ncols (forEachCell f g).
Proof.
  intros [Hlen Hrows]. unfold forEachCell. split.
  - by rewrite length_map.
  - apply Forall_fmap. eapply Forall_impl; [done|].
    intros row Hrow. simpl. by rewrite length_map.
Qed.

(** ** Counting cells *)

Lemma countRow_alter P f (row : list Cell) k x :
  row !! k = Some x →
  (countRow P (alter f k row) + (if P x then 1 else 0) =
   countRow P row + (if P (f x) then 1 else 0))%nat.
Proof.
  revert k. induction row as [|y row IH]; intros [|k] Hk; simplify_eq/=.
  - destruct (P x), (P (f x)); lia.
  - specialize (IH _ Hk). destruct (P y); lia.
Qed.

Lemma countGrid_updCell P f i j g x :
  getCell g i j = Some x →
  (countGrid P (updCell f i j g) + (if P x then 1 else 0) =
   countGrid P g + (if P (f x) then 1 else 0))%nat.
Proof.
  rewrite getCell_Some. intros (_ & _ & row & Hrow & Hx). unfold updCell.
  revert Hrow. generalize (Z.to_nat i) as k. clear i.
  induction g as [|row' g IH]; intros [|k] Hk; simplify_eq/=.
  - pose proof (countRow_alter P f _ _ _ Hx). lia.
  - specialize (IH _ Hk). lia.
Qed.

Lemma countRow_zero P (row : list Cell) :
  countRow P row = 0%nat ↔ ∀ k x, row !! k = Some x → P x = false.
Proof.
  induction row as [|y row IH]; simpl.
  - split; [intros _ k x Hk; by destruct k|done].
  - destruct (P y) eqn:Hy.
    + split; [done|]. intros H. specialize (H 0%nat y eq_refl). congruence.
    + rewrite IH. split.
      * intros H [|k] x Hk; simplify_eq/=; eauto.
      * intros H k x Hk. apply (H (S k)). done.
Qed.

Lemma countGrid_zero P g :
  countGrid P g = 0%nat ↔ ∀ i j x, getCell g i j = Some x → P x = false.
Proof.
  split.
  - intros H0 i j x. rewrite getCell_Some. intros (_ & _ & row & Hrow & Hx).
    revert H0 Hrow. generalize (Z.to_nat i) as k.
    induction g as [|row' g IH]; intros [|k] H0 Hk; simplify_eq/=.
    + assert (countRow P row = 0%nat) as H by lia.
      rewrite countRow_zero in H. eauto.
    + eapply IH; [|done]. lia.
  - intros H. induction g as [|row g IH]; [done|]. simpl.
    assert (countRow P row = 0%nat) as ->.
    { apply countRow_zero. intros k x Hk.
      apply (H 0 (Z.of_nat k) x). apply getCell_Some.
      split; [lia|]. split; [lia|]. exists row. by rewrite Nat2Z.id. }
    simpl. apply IH. intros i j x Hx.
    apply getCell_Some in Hx as (Hi & Hj & row' & Hrow' & Hx).
    apply (H (i + 1) j x). apply getCell_Some. split; [lia|]. split; [done|].
    exists row'. split; [|done].
    replace (Z.to_nat (i + 1)) with (S (Z.to_nat i)) by lia. done.
Qed.

Lemma countRow_le_length P (row : list Cell) : (countRow P row ≤ length row)%nat.
Proof. induction row as [|y row IH]; simpl; [lia|]. destruct (P y); lia. Qed.

Lemma countGrid_le_cellCount P g : (countGrid P g ≤ cellCount g)%nat.
Proof.
  unfold cellCount. induction g as [|row g IH]; simpl; [lia|].
  rewrite length_app. pose proof (countRow_le_length P row). lia.
Qed.

(** The counter of [checkWin] is [countGrid unrevealedSafe]. *)
Lemma unrevealedSafeCells_countGrid g :
  unrevealedSafeCells g = Z.of_nat (countGrid unrevealedSafe g).
Proof.
  unfold unrevealedSafeCells.
  assert (Hrow : ∀ (row : list Cell) n,
    foldl (λ n x, if unrevealedSafe x then n + 1 else n) n row =
    n + Z.of_nat (countRow unrevealedSafe row)).
  { induction row as [|x row IH]; intros n; simpl; [lia|].
    rewrite IH. destruct (unrevealedSafe x); lia. }
  assert (Hg : ∀ n,
    foldl (λ n row, foldl (λ n x, if unrevealedSafe x then n + 1 else n) n row) n g =
    n + Z.of_nat (countGrid unrevealedSafe g)).
  { induction g as [|row g IH]; intros n; simpl; [lia|].
    rewrite IH, Hrow. lia. }
  rewrite Hg. lia.
Qed.

(** ** Extensions of a grid *)

Lemma cell_le_refl x : cell_le x x.
Proof. by repeat split. Qed.

Lemma cell_le_trans x y z : cell_le x y → cell_le y z → cell_le x z.
Proof.
  intros (?&?&?&?&?&?) (?&?&?&?&?&?). repeat split; try congruence. auto.
Qed.

Lemma cell_le_setRevealed x : cell_le x (setRevealed x).
Proof. by repeat split. Qed.

Lemma cell_le_revealMine x : cell_le x (revealMine x).
Proof. unfold revealMine. destruct (isMine x); by repeat split. Qed.

Global Instance grid_le_preorder : PreOrder grid_le.
Proof.
  split.
  - intros g. apply Forall2_same_length_lookup_2; [done|].
    intros k row row' H1 H2. simplify_eq.
    apply Forall2_same_length_lookup_2; [done|].
    intros k' x x' H3 H4. simplify_eq. apply cell_le_refl.
  - intros g1 g2 g3 H12 H23. unfold grid_le in *.
    eapply Forall2_trans; [|done..].
    intros r1 r2 r3 Hr12 Hr23.
    eapply Forall2_trans; [|done..]. apply cell_le_trans.
Qed.

Lemma grid_le_getCell g g' i j x :
  grid_le g g' → getCell g i j = Some x →
  ∃ y, getCell g' i j = Some y ∧ cell_le x y.
Proof.
  intros Hle. rewrite getCell_Some. intros (Hi & Hj & row & Hrow & Hx).
  destruct (Forall2_lookup_l _ _ _ _ _ Hle Hrow) as (row' & Hrow' & Hrr).
  destruct (Forall2_lookup_l _ _ _ _ _ Hrr Hx) as (y & Hy & Hxy).
  exists y. split; [|done]. apply getCell_Some. eauto 6.
Qed.

Lemma grid_le_getCell_r g g' i j y :
  grid_le g g' → getCell g' i j = Some y →
  ∃ x, getCell g i j = Some x ∧ cell_le x y.
Proof.
  intros Hle. rewrite getCell_Some. intros (Hi & Hj & row' & Hrow' & Hy).
  destruct (Forall2_lookup_r _ _ _ _ _ Hle Hrow') as (row & Hrow & Hrr).
  destruct (Forall2_lookup_r _ _ _ _ _ Hrr Hy) as (x & Hx & Hxy).
  exists x. split; [|done]. apply getCell_Some. eauto 6.
Qed.

Lemma grid_le_is_Some g g' i j :
  grid_le g g' → is_Some (getCell g' i j) ↔ is_Some (getCell g i j).
Proof.
  intros Hle. split; intros [x Hx].
  - destruct (grid_le_getCell_r _ _ _ _ _ Hle Hx) as (y & -> & _). eauto.
  - destruct (grid_le_getCell _ _ _ _ _ Hle Hx) as (y & -> & _). eauto.
Qed.

Lemma grid_le_updCell f i j g :
  (∀ x, cell_le x (f x)) → grid_le g (updCell f i j g).
Proof.
  intros Hf. unfold grid_le, updCell.
  apply Forall2_same_length_lookup_2; [by rewrite length_alter|].
  intros k row row' Hrow Hrow'.
  rewrite list_lookup_alter in Hrow'. case_decide; simplify_option_eq.
  - apply Forall2_same_length_lookup_2; [by rewrite length_alter|].
    intros k' x x' Hx Hx'.
    rewrite list_lookup_alter in Hx'. case_decide; simplify_option_eq; [done|].
    apply cell_le_refl.
  - apply Forall2_same_length_lookup_2; [done|].
    intros k' x x' H3 H4. simplify_eq. apply cell_le_refl.
Qed.

Lemma grid_le_forEachCell f g :
  (∀ x, cell_le x (f x)) → grid_le g (forEachCell f g).
Proof.
  intros Hf. unfold grid_le, forEachCell.
  apply Forall2_fmap_r, Forall_Forall2_diag, Forall_forall. intros row _.
  apply Forall2_fmap_r, Forall_Forall2_diag, Forall_forall. auto.
Qed.

Lemma grid_le_Shape nrows ncols g g' :
  grid_le g g' → Shape nrows ncols g → Shape nrows ncols g'.
Proof.
  intros Hle [Hlen Hrows]. split.
  - by rewrite <- (Forall2_length _ _ _ Hle).
  - apply Forall_lookup. intros k row' Hrow'.
    destruct (Forall2_lookup_r _ _ _ _ _ Hle Hrow') as (row & Hrow & Hrr).
    rewrite Forall_lookup in Hrows. specialize (Hrows _ _ Hrow). simpl in *.
    by rewrite <- (Forall2_length _ _ _ Hrr).
Qed.

Lemma grid_le_countGrid P g g' :
  (∀ x y, cell_le x y → P y = true → P x = true) →
  grid_le g g' → (countGrid P g' ≤ countGrid P g)%nat.
Proof.
  intros HP Hle. induction Hle as [|row row' g g' Hrr _ IH]; simpl; [lia|].
  assert (countRow P row' ≤ countRow P row)%nat; [|lia].
  clear IH. induction Hrr as [|x y row row' Hxy _ IH]; simpl; [lia|].
  specialize (HP _ _ Hxy). destruct (P y) eqn:Hy, (P x) eqn:Hx; try lia.
  all: by specialize (HP eq_refl).
Qed.

Lemma hidden_antitone x y : cell_le x y → hidden y = true → hidden x = true.
Proof.
  intros (_&_&_&_&_&Hr). unfold hidden.
  destruct (isRevealed x), (isRevealed y); auto.
Qed.

Lemma unrevealedSafe_antitone x y :
  cell_le x y → unrevealedSafe y = true → unrevealedSafe x = true.
Proof.
  intros (_&_&Hm&_&_&Hr). unfold unrevealedSafe. rewrite Hm.
  destruct (isMine x), (isRevealed x), (isRevealed y); auto.
Qed.

(** What stays and what grows, cell by cell. *)
Lemma grid_le_isMineAt g g' i j : grid_le g g' → isMineAt g' i j = isMineAt g i j.
Proof.
  intros Hle. unfold isMineAt.
  destruct (getCell g i j) as [x|] eqn:Hx.
  - destruct (grid_le_getCell _ _ _ _ _ Hle Hx) as (y & -> & Hxy). apply Hxy.
  - destruct (getCell g' i j) as [y|] eqn:Hy; [|done].
    destruct (grid_le_getCell_r _ _ _ _ _ Hle Hy) as (? & ? & _). congruence.
Qed.

Lemma grid_le_isFlaggedAt g g' i j :
  grid_le g g' → isFlaggedAt g' i j = isFlaggedAt g i j.
Proof.
  intros Hle. unfold isFlaggedAt.
  destruct (getCell g i j) as [x|] eqn:Hx.
  - destruct (grid_le_getCell _ _ _ _ _ Hle Hx) as (y & -> & Hxy). apply Hxy.
  - destruct (getCell g' i j) as [y|] eqn:Hy; [|done].
    destruct (grid_le_getCell_r _ _ _ _ _ Hle Hy) as (? & ? & _). congruence.
Qed.

Lemma grid_le_neighborMinesAt g g' i j :
  grid_le g g' → neighborMinesAt g' i j = neighborMinesAt g i j.
Proof.
  intros Hle. unfold neighborMinesAt.
  destruct (getCell g i j) as [x|] eqn:Hx.
  - destruct (grid_le_getCell _ _ _ _ _ Hle Hx) as (y & -> & Hxy). apply Hxy.
  - destruct (getCell g' i j) as [y|] eqn:Hy; [|done].
    destruct (grid_le_getCell_r _ _ _ _ _ Hle Hy) as (? & ? & _). congruence.
Qed.

Lemma grid_le_isRevealedAt g g' i j :
  grid_le g g' → isRevealedAt g i j = true → isRevealedAt g' i j = true.
Proof.
  intros Hle. unfold isRevealedAt.
  destruct (getCell g i j) as [x|] eqn:Hx; [|done].
  destruct (grid_le_getCell _ _ _ _ _ Hle Hx) as (y & -> & Hxy). apply Hxy.
Qed.

Lemma grid_le_openAt g g' i j :
  grid_le g g' → openAt g' i j = true → openAt g i j = true.
Proof.
  intros Hle. unfold openAt.
  destruct (getCell g' i j) as [y|] eqn:Hy; [|done].
  destruct (grid_le_getCell_r _ _ _ _ _ Hle Hy) as (x & -> & (_&_&_&Hf&_&Hr)).
  rewrite Hf. destruct (isRevealed x), (isRevealed y), (isFlagged x); auto.
Qed.

Lemma grid_le_NoAdjMine g g' : grid_le g g' → NoAdjMine g → NoAdjMine g'.
Proof.
  intros Hle H i j i' j' Hsome Hm Hz Hadj.
  rewrite (grid_le_isMineAt _ _ _ _ Hle) in Hm.
  rewrite (grid_le_isMineAt _ _ _ _ Hle).
  rewrite (grid_le_neighborMinesAt _ _ _ _ Hle) in Hz.
  rewrite (grid_le_is_Some _ _ _ _ Hle) in Hsome. eauto.
Qed.

Global Instance Ext_preorder : PreOrder Ext.
Proof.
  split.
  - intros s. by repeat split.
  - intros s1 s2 s3 (?&?&?&?&?&?) (?&?&?&?&?&?).
    split; [by etrans|]. repeat split; congruence.
Qed.

Global Instance RevealStep_preorder : PreOrder RevealStep.
Proof.
  split.
  - intros s. split; [done|auto].
  - intros s1 s2 s3 [H12 E12] [H23 E23]. split; [by etrans|].
    intros Hs. specialize (E12 Hs). subst s2. auto.
Qed.

(** ** Rules for [post] *)

Section post_rules.
Context {S : Type}.

Lemma post_ret {A} (a : A) (s : S) Q : Q a s → post (ret a) s Q.
Proof. intros H. by exists a, s. Qed.

Lemma post_bind {A B} (m : M S A) (k : A → M S B) s Q :
  post m s (λ a s', post (k a) s' Q) → post (let* x := m in k x) s Q.
Proof.
  intros (a & s' & Hm & b & s'' & Hk & HQ). exists b, s''.
  split; [|done]. unfold bind. by rewrite Hm.
Qed.

Lemma post_get {A} (k : S → M S A) s Q :
  post (k s) s Q → post (let* x := get in k x) s Q.
Proof. done. Qed.

Lemma post_modify {A} (f : S → S) (k : M S A) s Q :
  post k (f s) Q → post (let* _ := modify f in k) s Q.
Proof. done. Qed.

Lemma post_mono {A} (m : M S A) s (Q Q' : A → S → Prop) :
  post m s Q → (∀ a s', Q a s' → Q' a s') → post m s Q'.
Proof. intros (a & s' & Hm & HQ) H. exists a, s'. auto. Qed.

(** A loop whose iterations move along the preorder [T], keep [I], and
    each establish a fact [Q x] that later iterations do not undo. *)
Lemma post_forM {X} (T : relation S) `{!PreOrder T}
    (I : S → Prop) (Q : X → S → Prop) (l : list X) (body : X → M S unit) :
  (∀ x s s', Q x s → T s s' → Q x s') →
  (∀ x s, x ∈ l → I s → post (body x) s (λ _ s', T s s' ∧ I s' ∧ Q x s')) →
  ∀ s, I s →
    post (forM l body) s (λ _ s', T s s' ∧ I s' ∧ ∀ x, x ∈ l → Q x s').
Proof.
  intros Hstable. induction l as [|x l IH]; intros Hbody s HI; simpl.
  - apply post_ret. split; [done|]. split; [done|]. intros x Hx. by inv Hx.
  - apply post_bind.
    eapply post_mono; [apply Hbody; [left|done]|].
    intros _ s1 (HT1 & HI1 & HQ1). simpl.
    eapply post_mono; [apply IH; [|done]|].
    + intros y s2 Hy. apply Hbody. by right.
    + intros _ s2 (HT2 & HI2 & HQ2). simpl. split; [by etrans|].
      split; [done|]. intros y Hy. inv Hy; eauto.
Qed.
End post_rules.

Lemma post_readCellOf {A} i j x (k : Cell → M GameState A) s Q :
  getCell (grid s) i j = Some x →
  post (k x) s Q → post (let* y := readCellOf i j in k y) s Q.
Proof.
  intros Hx (a & s' & Hk & HQ). exists a, s'. split; [|done].
  unfold bind, readCellOf. by rewrite Hx.
Qed.

(** ** Reachability *)

Lemma Reach_open g i0 j0 i j : Reach g i0 j0 i j → openAt g i j = true.
Proof. by destruct 1. Qed.

Lemma Reach_start_open g i0 j0 i j : Reach g i0 j0 i j → openAt g i0 j0 = true.
Proof. by induction 1. Qed.

Lemma Reach_trans g i0 j0 i j i' j' :
  Reach g i0 j0 i j → Reach g i j i' j' → Reach g i0 j0 i' j'.
Proof. intros H1 H2. induction H2; [done|]. by eapply Reach_step. Qed.

Lemma Reach_anti g g' i0 j0 i j :
  grid_le g g' → Reach g' i0 j0 i j → Reach g i0 j0 i j.
Proof.
  intros Hle. induction 1 as [Ho|i j i' j' _ IH Hm Hz Hadj Ho].
  - apply Reach_start. by eapply grid_le_openAt.
  - eapply Reach_step; [apply IH| | |done|by eapply grid_le_openAt].
    + by rewrite <- (grid_le_isMineAt _ _ _ _ Hle).
    + by rewrite <- (grid_le_neighborMinesAt _ _ _ _ Hle).
Qed.

Lemma adjacent_offsets i j i' j' :
  adjacent i j i' j' ↔
  ∃ dr dc, dr ∈ offsets ∧ dc ∈ offsets ∧ i' = i + dr ∧ j' = j + dc.
Proof.
  unfold adjacent, offsets. split.
  - intros [Hi Hj]. exists (i' - i), (j' - j).
    assert (∀ d, -1 ≤ d ≤ 1 → d ∈ [-1; 0; 1]) as Hin.
    { intros d Hd. assert (d = -1 ∨ d = 0 ∨ d = 1) as [-> | [-> | ->]] by lia;
        repeat constructor. }
    repeat split; auto; lia.
  - intros (dr & dc & Hdr & Hdc & -> & ->).
    assert (∀ d, d ∈ [-1; 0; 1] → -1 ≤ d ≤ 1) as Hin.
    { intros d Hd. repeat (apply elem_of_cons in Hd as [-> | Hd]; [lia|]).
      by apply elem_of_nil in Hd. }
    apply Hin in Hdr, Hdc. lia.
Qed.

(** ** One call of [revealCell] *)

Lemma checkWin_run now s :
  checkWin now s =
  (Ret tt, if decide (countGrid unrevealedSafe (grid s) = 0%nat)
           then withEndTime now (withStatus Won s) else s).
Proof.
  unfold checkWin, bind, get. rewrite unrevealedSafeCells_countGrid.
  destruct (decide _) as [->|Hne]; [done|].
  destruct (Z.eqb_spec (Z.of_nat (countGrid unrevealedSafe (grid s))) 0); [lia|done].
Qed.

Lemma isRevealedAt_updCell_eq g i j x :
  getCell g i j = Some x → isRevealedAt (updCell setRevealed i j g) i j = true.
Proof.
  intros Hx. unfold isRevealedAt.
  by rewrite (getCell_updCell_eq _ _ _ _ _ Hx).
Qed.

Lemma isRevealedAt_updCell_ne g i j i' j' :
  0 ≤ i → 0 ≤ j → (i', j') ≠ (i, j) →
  isRevealedAt (updCell setRevealed i j g) i' j' = isRevealedAt g i' j'.
Proof.
  intros Hi Hj Hne. unfold isRevealedAt. by rewrite getCell_updCell_ne.
Qed.

Lemma hidden_updCell_setRevealed g i j x :
  getCell g i j = Some x → isRevealed x = false →
  (countGrid hidden (updCell setRevealed i j g) + 1 = countGrid hidden g)%nat.
Proof.
  intros Hx Hr. pose proof (countGrid_updCell hidden setRevealed _ _ _ _ Hx) as H.
  unfold hidden in H at 2 4. simpl in H. rewrite Hr in H. simpl in H. lia.
Qed.

Lemma Closed_trans g1 g2 g3 :
  grid_le g1 g2 → grid_le g2 g3 →
  Closed g1 g2 → Closed g2 g3 → Closed g1 g3.
Proof.
  intros H12 H23 C12 C23 i j i' j' Hh Hr Hm Hz Hadj Hsome.
  destruct (isRevealedAt g2 i j) eqn:Hr2.
  - rewrite (grid_le_isMineAt _ _ _ _ H23) in Hm.
    rewrite (grid_le_neighborMinesAt _ _ _ _ H23) in Hz.
    rewrite (grid_le_is_Some _ _ _ _ H23) in Hsome.
    specialize (C12 i j i' j' Hh Hr2 Hm Hz Hadj Hsome).
    apply orb_true_iff in C12 as [C|C]; apply orb_true_iff.
    + left. by eapply grid_le_isRevealedAt.
    + right. by rewrite (grid_le_isFlaggedAt _ _ _ _ H23).
  - by eapply C23.
Qed.

Lemma Sound_step g g2 g3 i j i' j' :
  grid_le g g2 →
  openAt g i j = true → isMineAt g i j = false → neighborMinesAt g i j = 0 →
  adjacent i j i' j' →
  Sound g i j g2 → Sound g2 i' j' g3 → Sound g i j g3.
Proof.
  intros Hle Ho Hm Hz Hadj S2 S3 a b Hh Hr.
  destruct (isRevealedAt g2 a b) eqn:Hr2; [by apply S2|].
  specialize (S3 a b Hr2 Hr). apply (Reach_anti _ _ _ _ _ _ Hle) in S3.
  eapply Reach_trans; [|done].
  eapply Reach_step; [by apply Reach_start|done..|].
  by eapply Reach_start_open.
Qed.

Lemma Visited_stable s i j s2 s3 :
  Visited s i j s2 → RevealStep s2 s3 → Visited s i j s3.
Proof.
  intros H [Hext Hend] Hin. destruct (H Hin) as [Hs|Hv].
  - left. by rewrite (Hend Hs).
  - right. apply orb_true_iff in Hv as [Hv|Hv]; apply orb_true_iff.
    + left. eapply grid_le_isRevealedAt; [apply Hext|done].
    + right. by rewrite (grid_le_isFlaggedAt _ _ _ _ (proj1 Hext)).
Qed.

Lemma Ext_ShapeOf s s' : Ext s s' → ShapeOf s → ShapeOf s'.
Proof.
  intros (Hle & Hr & Hc & _) H. unfold ShapeOf. rewrite Hr, Hc.
  by eapply grid_le_Shape.
Qed.

Lemma RevealPost_unchanged now s i j :
  (status s = Playing →
     isRevealedAt (grid s) i j || isFlaggedAt (grid s) i j = true) →
  (status s = Playing → openAt (grid s) i j = false) →
  RevealPost now s i j s.
Proof.
  intros Hv Ho. split; [done|]. split; [done|]. split; [done|]. split.
  - intros Hp Hopen. rewrite Ho in Hopen; done.
  - intros _ _ Hl _. split; [done|]. split.
    + intros a b a' b' Hh Hr. congruence.
    + intros a b Hh Hr. congruence.
Qed.

Lemma revealCell_S fuel now i j :
  revealCell (S fuel) now i j =
  (let* s := get in
   if negb (isPlaying s) then ret tt else
   let* x := readCellOf i j in
   if isRevealed x || isFlagged x then ret tt else
   let* _ := modifyGrid (updCell setRevealed i j) in
   if isMine x then
     let* _ := modify (withStatus Lost) in
     let* _ := modify (withEndTime now) in
     revealAllMines
   else
     let* _ :=
       if neighborMines x =? 0
       then floodFill (revealCell fuel now) i j
       else ret tt in
     checkWin now).
Proof. done. Qed.

(** The loops of the flood fill, given that the recursive calls behave. *)
Lemma floodFill_spec now fuel s s1 i j :
  (∀ s2 i' j',
     ShapeOf s2 → inBounds (rows s2) (cols s2) i' j' = true →
     (countGrid hidden (grid s2) < fuel)%nat →
     post (revealCell fuel now i' j') s2 (λ _ s', RevealPost now s2 i' j' s')) →
  ShapeOf s → Ext s s1 → (countGrid hidden (grid s1) < fuel)%nat →
  is_Some (getCell (grid s) i j) →
  openAt (grid s) i j = true → neighborMinesAt (grid s) i j = 0 →
  FillInv s s1 i j s1 →
  post (floodFill (revealCell fuel now) i j) s1
    (λ _ s2, FillInv s s1 i j s2 ∧
             ∀ dr dc, dr ∈ offsets → dc ∈ offsets → Visited s (i + dr) (j + dc) s2).
Proof.
  intros IH Hshape Hext1 Hfuel Hsome Hopen Hzero HI1.
  assert (Hbody : ∀ dr dc s2, dr ∈ offsets → dc ∈ offsets → FillInv s s1 i j s2 →
    post (let* s0 := get in
          if inBounds (rows s0) (cols s0) (i + dr) (j + dc)
          then revealCell fuel now (i + dr) (j + dc) else ret tt) s2
      (λ _ s3, RevealStep s2 s3 ∧ FillInv s s1 i j s3 ∧
               Visited s (i + dr) (j + dc) s3)).
  { intros dr dc s2 Hdr Hdc (Hstep2 & Hwin2 & Hcons2). apply post_get.
    assert (Hext2 : Ext s s2) by (etrans; [done|apply Hstep2]).
    assert (Hrows : rows s2 = rows s ∧ cols s2 = cols s).
    { destruct Hext2 as (_ & ? & ? & _). done. }
    destruct Hrows as [Hrows Hcols].
    destruct (inBounds (rows s2) (cols s2) (i + dr) (j + dc)) eqn:Hin.
    2:{ apply post_ret. split; [done|]. split; [done|].
        intros Hin'. rewrite Hrows, Hcols in Hin. congruence. }
    eapply post_mono.
    { apply IH; [by eapply Ext_ShapeOf|done|].
      pose proof (grid_le_countGrid hidden _ _ hidden_antitone
                    (proj1 (proj1 Hstep2))). lia. }
    intros _ s3 (Hstep3 & Hvis3 & Hwin3 & _ & Hcons3). simpl.
    split; [done|]. split.
    - split; [by etrans|]. split; [auto|].
      intros Hnam Hmine Hlost Hwin.
      destruct (Hcons2 Hnam Hmine Hlost Hwin) as (Hl2 & Hc2 & Hs2).
      assert (Hadj : adjacent i j (i + dr) (j + dc)).
      { apply adjacent_offsets. eauto 6. }
      destruct Hcons3 as (Hl3 & Hc3 & Hs3); [| |done|done|].
      + eapply grid_le_NoAdjMine; [apply Hext2|done].
      + rewrite (grid_le_isMineAt _ _ _ _ (proj1 Hext2)). by eapply Hnam.
      + split; [done|]. split.
        * eapply Closed_trans; [apply Hstep2|apply Hstep3|done..].
        * eapply Sound_step; [apply Hext2|done..].
    - intros _. destruct (decide (status s2 = Playing)) as [Hp|Hp].
      + right. auto.
      + left. destruct Hstep3 as [_ Hend]. by rewrite (Hend Hp). }
  unfold floodFill.
  eapply post_mono.
  { apply (post_forM RevealStep (FillInv s s1 i j)
             (λ dr s2, ∀ dc, dc ∈ offsets → Visited s (i + dr) (j + dc) s2));
      [| |done].
    - intros dr s2 s3 HQ Hstep dc Hdc. eapply Visited_stable; eauto.
    - intros dr s2 Hdr HI2.
      apply (post_forM RevealStep (FillInv s s1 i j)
               (λ dc s2, Visited s (i + dr) (j + dc) s2)); [| |done].
      + intros dc s3 s4 HQ Hstep. eapply Visited_stable; eauto.
      + intros dc s3 Hdc HI3. by apply Hbody. }
  intros _ s2 (_ & HI2 & HQ). simpl. split; [done|]. auto.
Qed.

Lemma Ext_reveal s i j :
  Ext s (withGrid (updCell setRevealed i j (grid s)) s).
Proof.
  split; [|done]. apply grid_le_updCell, cell_le_setRevealed.
Qed.

Lemma Ext_settle s s' st t :
  Ext s s' → Ext s (withEndTime t (withStatus st s')).
Proof. intros (?&?&?&?&?&?). by repeat split. Qed.

(** The state in which the flood-fill loops start satisfies their invariant. *)
Lemma FillInv_start s i j x :
  status s = Playing → getCell (grid s) i j = Some x →
  isRevealed x = false → isFlagged x = false →
  let s1 := withGrid (updCell setRevealed i j (grid s)) s in
  FillInv s s1 i j s1.
Proof.
  intros Hplay Hx Hrev Hflag s1. destruct (getCell_nonneg _ _ _ _ Hx) as [Hi Hj].
  split; [done|]. split.
  { intros Hw. simpl in Hw. congruence. }
  intros _ _ _ _. split; [simpl; congruence|]. split.
  - intros a b a' b' Hh Hr. congruence.
  - intros a b Hh Hr. destruct (decide ((a, b) = (i, j))) as [[= -> ->]|Hne].
    + apply Reach_start. unfold openAt. by rewrite Hx, Hrev, Hflag.
    + simpl in Hr. rewrite isRevealedAt_updCell_ne in Hr by done. congruence.
Qed.

(** From the end of the loops, through [checkWin], to the end of the call. *)
Lemma reveal_finish now s s2 i j x :
  ShapeOf s → status s = Playing → getCell (grid s) i j = Some x →
  isRevealed x = false → isFlagged x = false → isMine x = false →
  let s1 := withGrid (updCell setRevealed i j (grid s)) s in
  FillInv s s1 i j s2 →
  (neighborMines x = 0 →
   ∀ dr dc, dr ∈ offsets → dc ∈ offsets → Visited s (i + dr) (j + dc) s2) →
  RevealPost now s i j
    (if decide (countGrid unrevealedSafe (grid s2) = 0%nat)
     then withEndTime now (withStatus Won s2) else s2).
Proof.
  intros Hshape Hplay Hx Hrev Hflag Hmine s1 (Hstep & Hwin2 & Hcons) Hvis.
  destruct (getCell_nonneg _ _ _ _ Hx) as [Hi Hj].
  assert (Hext1 : Ext s s1) by apply Ext_reveal.
  assert (Hext2 : Ext s s2) by (etrans; [done|apply Hstep]).
  set (s' := if decide _ then _ else s2).
  assert (Hgrid : grid s' = grid s2) by (unfold s'; by destruct (decide _)).
  assert (Hext' : Ext s s').
  { unfold s'. destruct (decide _); [by apply Ext_settle|done]. }
  assert (Hrev' : isRevealedAt (grid s2) i j = true).
  { eapply grid_le_isRevealedAt; [apply Hstep|].
    simpl. by eapply isRevealedAt_updCell_eq. }
  split; [split; [done|congruence]|]. split.
  { intros _. by rewrite Hgrid, Hrev'. }
  split.
  { intros _. unfold WinInv. rewrite Hgrid. unfold s'.
    destruct (decide _); [done|apply Hwin2]. }
  split.
  { intros _ _ _. rewrite Hgrid. unfold s'.
    destruct (decide _) as [H0|H0]; simpl; [done|].
    split; [split; [apply Hwin2|done]|]. intros Hw. by specialize (Hwin2 Hw). }
  intros Hnam HmineAt Hlost Hwin.
  destruct (Hcons Hnam HmineAt Hlost Hwin) as (Hl2 & Hc2 & Hs2).
  rewrite Hgrid. split.
  { unfold s'. destruct (decide _); simpl; [done|done]. }
  split; [|done].
  intros a b a' b' Hh Hr Hm Hz Hadj Hsome.
  destruct (decide ((a, b) = (i, j))) as [[= -> ->]|Hne].
  2:{ eapply Hc2; [|done..]. simpl. by rewrite isRevealedAt_updCell_ne. }
  assert (Hx0 : neighborMines x = 0).
  { rewrite (grid_le_neighborMinesAt _ _ _ _ (proj1 Hext2)) in Hz.
    unfold neighborMinesAt in Hz. by rewrite Hx in Hz. }
  apply adjacent_offsets in Hadj as (dr & dc & Hdr & Hdc & -> & ->).
  assert (Hin : inBounds (rows s) (cols s) (i + dr) (j + dc) = true).
  { apply (Shape_getCell _ _ _ _ _ Hshape).
    by apply (grid_le_is_Some _ _ _ _ (proj1 Hext2)). }
  destruct (Hvis Hx0 dr dc Hdr Hdc Hin) as [Hover|Hv]; [|done].
  assert (Hw : status s2 = Won) by (destruct (status s2); done).
  specialize (Hwin2 Hw). destruct Hsome as [y Hy].
  pose proof (proj1 (countGrid_zero _ _) Hwin2 _ _ _ Hy) as Hsafe.
  assert (Hym : isMine y = false).
  { assert (isMineAt (grid s2) (i + dr) (j + dc) = false) as Hma.
    { rewrite (grid_le_isMineAt _ _ _ _ (proj1 Hext2)).
      eapply (Hnam i j); [by eexists|done| |].
      - unfold neighborMinesAt. by rewrite Hx.
      - apply adjacent_offsets. eauto 6. }
    unfold isMineAt in Hma. by rewrite Hy in Hma. }
  unfold unrevealedSafe in Hsafe. rewrite Hym in Hsafe. simpl in Hsafe.
  unfold isRevealedAt. rewrite Hy. apply negb_false_iff in Hsafe.
  by rewrite Hsafe.
Qed.

Lemma revealCell_spec now fuel s i j :
  ShapeOf s → inBounds (rows s) (cols s) i j = true →
  (countGrid hidden (grid s) < fuel)%nat →
  post (revealCell fuel now i j) s (λ _ s', RevealPost now s i j s').
Proof.
  revert s i j. induction fuel as [|fuel IH]; intros s i j Hshape Hin Hfuel; [lia|].
  rewrite revealCell_S. apply post_get.
  destruct (isPlaying s) eqn:Hplay; cbn [negb].
  2:{ apply post_ret. apply RevealPost_unchanged; intros Hp;
      unfold isPlaying in Hplay; by rewrite bool_decide_eq_false in Hplay. }
  apply bool_decide_eq_true in Hplay.
  destruct (proj2 (Shape_getCell _ _ _ i j Hshape) Hin) as [x Hx].
  eapply post_readCellOf; [done|].
  destruct (isRevealed x || isFlagged x) eqn:Hguard.
  { apply post_ret. apply RevealPost_unchanged; intros _.
    - unfold isRevealedAt, isFlaggedAt. by rewrite Hx.
    - unfold openAt. rewrite Hx. by destruct (isRevealed x), (isFlagged x). }
  apply orb_false_iff in Hguard as [Hrev Hflag].
  unfold modifyGrid at 1. apply post_modify.
  pose proof (FillInv_start s i j x Hplay Hx Hrev Hflag) as HI1.
  pose proof (Ext_reveal s i j) as Hext1.
  pose proof (hidden_updCell_setRevealed _ _ _ _ Hx Hrev) as Hcount.
  set (s1 := withGrid (updCell setRevealed i j (grid s)) s) in *.
  destruct (isMine x) eqn:Hmine.
  { do 2 apply post_modify. unfold revealAllMines, modifyGrid.
    eexists tt, _. split; [done|]. simpl.
    assert (HmineAt : isMineAt (grid s) i j = true).
    { unfold isMineAt. by rewrite Hx. }
    split; [split; [|congruence]|].
    { split; [|done]. simpl. etrans; [apply Hext1|].
      apply grid_le_forEachCell, cell_le_revealMine. }
    split.
    { intros _. simpl. apply orb_true_iff. left.
      eapply grid_le_isRevealedAt.
      - apply grid_le_forEachCell, cell_le_revealMine.
      - by eapply isRevealedAt_updCell_eq. }
    split; [intros _ Hw; simpl in Hw; congruence|].
    split; [intros _ _ Hm; congruence|]. intros _ Hm. congruence. }
  apply post_bind.
  assert (Hmid : post
    (if neighborMines x =? 0 then floodFill (revealCell fuel now) i j else ret tt) s1
    (λ _ s2, FillInv s s1 i j s2 ∧
       (neighborMines x = 0 →
        ∀ dr dc, dr ∈ offsets → dc ∈ offsets → Visited s (i + dr) (j + dc) s2))).
  { destruct (Z.eqb_spec (neighborMines x) 0) as [Hz|Hz].
    - eapply post_mono.
      + apply (floodFill_spec now fuel s s1 i j IH Hshape Hext1);
          [simpl; lia|by eexists| | |done].
        * unfold openAt. by rewrite Hx, Hrev, Hflag.
        * unfold neighborMinesAt. by rewrite Hx.
      + intros _ s2 [HI2 Hv]. simpl. auto.
    - apply post_ret. split; [done|]. intros Hz'. congruence. }
  eapply post_mono; [apply Hmid|]. intros _ s2 [HI2 Hvis]. simpl.
  eexists tt, _. split; [apply checkWin_run|].
  by eapply reveal_finish.
Qed.

(** ** The cases of a call that do not recurse *)

Lemma revealCell_not_playing fuel now i j s :
  status s ≠ Playing → revealCell (S fuel) now i j s = (Ret tt, s).
Proof.
  intros Hs. rewrite revealCell_S. unfold bind, get, isPlaying.
  by rewrite bool_decide_eq_false_2.
Qed.

Lemma revealCell_out_of_range fuel now i j s :
  status s = Playing → getCell (grid s) i j = None →
  revealCell (S fuel) now i j s = (Throw, s).
Proof.
  intros Hs Hx. rewrite revealCell_S. unfold bind, get, isPlaying, readCellOf.
  rewrite bool_decide_eq_true_2 by done. simpl. by rewrite Hx.
Qed.

Lemma revealCell_blocked fuel now i j s x :
  status s = Playing → getCell (grid s) i j = Some x →
  isRevealed x || isFlagged x = true →
  revealCell (S fuel) now i j s = (Ret tt, s).
Proof.
  intros Hs Hx Hb. rewrite revealCell_S. unfold bind, get, isPlaying, readCellOf.
  rewrite bool_decide_eq_true_2 by done. simpl. by rewrite Hx, Hb.
Qed.

Lemma revealCell_mine fuel now i j s x :
  status s = Playing → getCell (grid s) i j = Some x →
  isRevealed x = false → isFlagged x = false → isMine x = true →
  revealCell (S fuel) now i j s =
  (Ret tt, mkGameState (forEachCell revealMine (updCell setRevealed i j (grid s)))
             (rows s) (cols s) (mines s) Lost (startTime s) (Some now) (timeLimit s)).
Proof.
  intros Hs Hx Hr Hf Hm. rewrite revealCell_S.
  unfold bind, get, isPlaying, readCellOf.
  rewrite bool_decide_eq_true_2 by done. simpl. by rewrite Hx, Hr, Hf, Hm.
Qed.

(** ** Fuel *)

Lemma bind_Ret_inv {S A B} (m : M S A) (k : A → M S B) s b s'' :
  (let* x := m in k x) s = (Ret b, s'') →
  ∃ a s', m s = (Ret a, s') ∧ k a s' = (Ret b, s'').
Proof.
  unfold bind. destruct (m s) as [[a| |] s'] eqn:Hm; [eauto|done|done].
Qed.

Lemma bind_Ret {S A B} (m : M S A) (k : A → M S B) s a s' :
  m s = (Ret a, s') → (let* x := m in k x) s = k a s'.
Proof. intros Hm. unfold bind. by rewrite Hm. Qed.

Lemma forM_mono {S X} (l : list X) (body body' : X → M S unit) :
  (∀ x s s', body x s = (Ret tt, s') → body' x s = (Ret tt, s')) →
  ∀ s s', forM l body s = (Ret tt, s') → forM l body' s = (Ret tt, s').
Proof.
  intros Hb. induction l as [|x l IH]; intros s s' H; simpl in *; [done|].
  apply bind_Ret_inv in H as ([] & s1 & H1 & H2).
  rewrite (bind_Ret _ _ _ _ _ (Hb _ _ _ H1)). auto.
Qed.

Lemma floodFill_mono (reveal reveal' : Z → Z → M GameState unit) i j :
  (∀ a b s s', reveal a b s = (Ret tt, s') → reveal' a b s = (Ret tt, s')) →
  ∀ s s', floodFill reveal i j s = (Ret tt, s') →
          floodFill reveal' i j s = (Ret tt, s').
Proof.
  intros Hr. unfold floodFill. apply forM_mono. intros dr.
  apply forM_mono. intros dc s s'. unfold bind, get.
  destruct (inBounds _ _ _ _); [apply Hr|done].
Qed.

(** More fuel does not change the result of a call that returned. *)
Lemma revealCell_fuel_mono now fuel fuel' i j s s' :
  (fuel ≤ fuel')%nat →
  revealCell fuel now i j s = (Ret tt, s') →
  revealCell fuel' now i j s = (Ret tt, s').
Proof.
  revert fuel' i j s s'.
  induction fuel as [|fuel IH]; intros fuel' i j s s' Hle H; [done|].
  destruct fuel' as [|fuel']; [lia|].
  rewrite revealCell_S in H. rewrite revealCell_S.
  apply bind_Ret_inv in H as (s0 & s0' & Hget & H).
  rewrite (bind_Ret _ _ _ _ _ Hget). clear Hget.
  destruct (negb (isPlaying s0)); [done|].
  apply bind_Ret_inv in H as (x & s1 & Hread & H).
  rewrite (bind_Ret _ _ _ _ _ Hread). clear Hread.
  destruct (isRevealed x || isFlagged x); [done|].
  apply bind_Ret_inv in H as ([] & s2 & Hmod & H).
  rewrite (bind_Ret _ _ _ _ _ Hmod). clear Hmod.
  destruct (isMine x); [done|].
  apply bind_Ret_inv in H as ([] & s3 & H3 & H4).
  erewrite bind_Ret; [done|].
  destruct (neighborMines x =? 0); [|done].
  eapply floodFill_mono; [|done]. intros a b t t'. apply IH. lia.
Qed.

Lemma hidden_lt_click_fuel s :
  (countGrid hidden (grid s) < S (cellCount (grid s)))%nat.
Proof. pose proof (countGrid_le_cellCount hidden (grid s)). lia. Qed.

(** Every fuel above the number of hidden cells gives the result of
    [click]: the call returns, and the bound of the model does not show. *)
Lemma revealCell_fuel_enough now fuel i j s :
  ShapeOf s → (countGrid hidden (grid s) < fuel)%nat →
  revealCell fuel now i j s = click now i j s ∧
  fst (click now i j s) ≠ Diverge.
Proof.
  intros Hshape Hfuel. unfold click.
  destruct fuel as [|fuel]; [lia|].
  destruct (decide (status s = Playing)) as [Hp|Hp].
  2:{ by rewrite !revealCell_not_playing. }
  destruct (getCell (grid s) i j) as [x|] eqn:Hx.
  2:{ by rewrite !revealCell_out_of_range. }
  assert (Hin : inBounds (rows s) (cols s) i j = true).
  { apply (Shape_getCell _ _ _ _ _ Hshape). eauto. }
  destruct (revealCell_spec now (S (countGrid hidden (grid s))) s i j)
    as ([] & s' & Hrun & _); [done|done|lia|].
  pose proof (hidden_lt_click_fuel s) as Hc.
  rewrite (revealCell_fuel_mono now _ (S fuel) _ _ _ _ Hfuel Hrun).
  rewrite (revealCell_fuel_mono now _ (S (cellCount (grid s))) _ _ _ _ Hc Hrun).
  done.
Qed.

Lemma click_spec now s i j :
  ShapeOf s → inBounds (rows s) (cols s) i j = true →
  post (click now i j) s (λ _ s', RevealPost now s i j s').
Proof.
  intros Hshape Hin. apply revealCell_spec; [done..|apply hidden_lt_click_fuel].
Qed.

(** ** Losing by a click on a mine *)

Lemma forEachCell_updCell_absorb (f h : Cell → Cell) i j g :
  (∀ x, getCell g i j = Some x → f (h x) = f x) →
  0 ≤ i → 0 ≤ j →
  forEachCell f (updCell h i j g) = forEachCell f g.
Proof.
  intros Hfh Hi Hj. unfold forEachCell, updCell.
  apply list_eq. intros k. rewrite !list_lookup_fmap, list_lookup_alter.
  case_decide as Hk; [|done]. subst k.
  destruct (g !! Z.to_nat i) as [row|] eqn:Hrow; simpl; [|done]. f_equal.
  apply list_eq. intros k. rewrite !list_lookup_fmap, list_lookup_alter.
  case_decide as Hk; [|done]. subst k.
  destruct (row !! Z.to_nat j) as [x|] eqn:Hx; simpl; [|done]. f_equal.
  apply Hfh. apply getCell_Some. eauto 6.
Qed.

Lemma revealMine_setRevealed x :
  isMine x = true → revealMine (setRevealed x) = revealMine x.
Proof. intros Hm. unfold revealMine. simpl. by rewrite Hm. Qed.

Lemma isRevealedAt_revealMines g i j :
  isRevealedAt (forEachCell revealMine g) i j =
  isMineAt g i j || isRevealedAt g i j.
Proof.
  unfold isRevealedAt, isMineAt. rewrite getCell_forEachCell.
  destruct (getCell g i j) as [x|]; simpl; [|done].
  unfold revealMine. by destruct (isMine x) eqn:Hm.
Qed.

Lemma isFlaggedAt_revealMines g i j :
  isFlaggedAt (forEachCell revealMine g) i j = isFlaggedAt g i j.
Proof.
  unfold isFlaggedAt. rewrite getCell_forEachCell.
  destruct (getCell g i j) as [x|]; simpl; [|done].
  unfold revealMine. by destruct (isMine x).
Qed.

Lemma isMineAt_revealMines g i j :
  isMineAt (forEachCell revealMine g) i j = isMineAt g i j.
Proof.
  unfold isMineAt. rewrite getCell_forEachCell.
  destruct (getCell g i j) as [x|]; simpl; [|done].
  unfold revealMine. by destruct (isMine x) eqn:Hm.
Qed.

Lemma click_mine now i j s x :
  status s = Playing → getCell (grid s) i j = Some x →
  isRevealed x = false → isFlagged x = false → isMine x = true →
  click now i j s =
  (Ret tt, mkGameState (forEachCell revealMine (grid s))
             (rows s) (cols s) (mines s) Lost (startTime s) (Some now) (timeLimit s)).
Proof.
  intros Hs Hx Hr Hf Hm. unfold click.
  rewrite (revealCell_mine _ _ _ _ _ _ Hs Hx Hr Hf Hm).
  destruct (getCell_nonneg _ _ _ _ Hx).
  rewrite forEachCell_updCell_absorb; [done| |done..].
  intros y Hy. apply revealMine_setRevealed. congruence.
Qed.

(** C2. In a match that is being played, a click on a mine that is
    neither revealed nor flagged returns with the match lost and its end
    time set.  The grid it leaves is the old grid with every mine revealed,
    whichever mine was clicked: every mine is revealed, every flag is as it
    was, and no other cell changes its revealed state. *)
Theorem reveal_mine_loses now s i j x :
  status s = Playing → getCell (grid s) i j = Some x →
  isRevealed x = false → isFlagged x = false → isMine x = true →
  ∃ s', click now i j s = (Ret tt, s') ∧
    status s' = Lost ∧ endTime s' = Some now ∧
    grid s' = forEachCell revealMine (grid s) ∧
    (∀ a b, isMineAt (grid s) a b = true → isRevealedAt (grid s') a b = true) ∧
    (∀ a b, isFlaggedAt (grid s') a b = isFlaggedAt (grid s) a b) ∧
    (∀ a b, isMineAt (grid s') a b = isMineAt (grid s) a b) ∧
    (∀ a b, isMineAt (grid s) a b = false →
            isRevealedAt (grid s') a b = isRevealedAt (grid s) a b).
Proof.
  intros Hs Hx Hr Hf Hm. eexists. split; [by eapply click_mine|]. simpl.
  split; [done|]. split; [done|]. split; [done|]. split; [|split; [|split]].
  - intros a b Hmine. by rewrite isRevealedAt_revealMines, Hmine.
  - intros a b. apply isFlaggedAt_revealMines.
  - intros a b. apply isMineAt_revealMines.
  - intros a b Hmine. by rewrite isRevealedAt_revealMines, Hmine.
Qed.

Lemma reveal_mine_loses_witness :
  ∃ s', click 2000 0 0 board2x3 = (Ret tt, s') ∧
    status s' = Lost ∧ endTime s' = Some 2000 ∧
    grid s' = forEachCell revealMine (grid board2x3) ∧
    (∀ a b, isMineAt (grid board2x3) a b = true →
            isRevealedAt (grid s') a b = true) ∧
    (∀ a b, isFlaggedAt (grid s') a b = isFlaggedAt (grid board2x3) a b) ∧
    (∀ a b, isMineAt (grid s') a b = isMineAt (grid board2x3) a b) ∧
    (∀ a b, isMineAt (grid board2x3) a b = false →
            isRevealedAt (grid s') a b = isRevealedAt (grid board2x3) a b).
Proof.
  apply (reveal_mine_loses 2000 board2x3 0 0 (mkCell 0 0 true false false 0));
    reflexivity.
Defined.

(** ** Invalid reveals *)

Lemma click_not_playing now i j s :
  status s ≠ Playing → click now i j s = (Ret tt, s).
Proof. unfold click. apply revealCell_not_playing. Qed.

Lemma click_blocked now i j s x :
  status s = Playing → getCell (grid s) i j = Some x →
  isRevealed x || isFlagged x = true → click now i j s = (Ret tt, s).
Proof. unfold click. apply revealCell_blocked. Qed.

Lemma click_out_of_range now i j s :
  status s = Playing → getCell (grid s) i j = None →
  click now i j s = (Throw, s).
Proof. unfold click. apply revealCell_out_of_range. Qed.

(** C5, as the code has it.  A click is a silent no-op when the match is
    not being played, whatever the coordinates, and when the cell it names
    is already revealed or is flagged.  A click whose coordinates name no
    cell of the grid, in a match that is being played, raises an exception
    instead; the match is left as it was. *)
Theorem reveal_invalid now s i j :
  (status s ≠ Playing → click now i j s = (Ret tt, s)) ∧
  (∀ x, status s = Playing → getCell (grid s) i j = Some x →
        isRevealed x = true ∨ isFlagged x = true →
        click now i j s = (Ret tt, s)) ∧
  (status s = Playing → getCell (grid s) i j = None →
   click now i j s = (Throw, s)) ∧
  (ShapeOf s → status s = Playing → inBounds (rows s) (cols s) i j = false →
   click now i j s = (Throw, s)).
Proof.
  split; [apply click_not_playing|]. split; [|split].
  - intros x Hs Hx Hb. eapply click_blocked; [done..|].
    apply orb_true_iff. done.
  - apply click_out_of_range.
  - intros Hshape Hs Hin. apply click_out_of_range; [done|].
    destruct (getCell (grid s) i j) as [x|] eqn:Hx; [|done].
    assert (inBounds (rows s) (cols s) i j = true); [|congruence].
    apply (Shape_getCell _ _ _ _ _ Hshape). eauto.
Qed.

Lemma reveal_invalid_witness :
  click 2000 7 7 emptyGame = (Ret tt, emptyGame) ∧
  click 2000 0 5 board1x5 = (Throw, board1x5).
Proof.
  split.
  - apply (proj1 (reveal_invalid 2000 emptyGame 7 7)). discriminate.
  - apply (proj1 (proj2 (proj2 (reveal_invalid 2000 board1x5 0 5))));
      reflexivity.
Defined.

(** The claim C5 fails for coordinates out of range: in the fresh one-cell
    match, a click on (5, 5) is not a silent no-op, it raises. *)
Lemma reveal_out_of_range_raises :
  status board1x1 = Playing ∧
  inBounds (rows board1x1) (cols board1x1) 5 5 = false ∧
  click 2000 5 5 board1x1 ≠ (Ret tt, board1x1) ∧
  fst (click 2000 5 5 board1x1) = Throw.
Proof. repeat split. discriminate. Qed.

(** ** Flags *)

Lemma updCell_toggle_twice i j g :
  updCell toggleFlagged i j (updCell toggleFlagged i j g) = g.
Proof.
  unfold updCell. rewrite list_alter_alter_eq. apply list_alter_id.
  intros row. simpl. rewrite list_alter_alter_eq. apply list_alter_id.
  intros [? ? ? ? f ?]. unfold toggleFlagged. simpl. by rewrite negb_involutive.
Qed.

Lemma flagCell_not_playing i j s :
  status s ≠ Playing → flagCell i j s = (Ret tt, s).
Proof.
  intros Hs. unfold flagCell, bind, get, isPlaying.
  by rewrite bool_decide_eq_false_2.
Qed.

Lemma flagCell_hidden i j s x :
  status s = Playing → getCell (grid s) i j = Some x → isRevealed x = false →
  flagCell i j s = (Ret tt, withGrid (updCell toggleFlagged i j (grid s)) s).
Proof.
  intros Hs Hx Hr. unfold flagCell, bind, get, isPlaying, readCellOf.
  rewrite bool_decide_eq_true_2 by done. simpl. by rewrite Hx, Hr.
Qed.

Lemma flagCell_revealed i j s x :
  status s = Playing → getCell (grid s) i j = Some x → isRevealed x = true →
  flagCell i j s = (Ret tt, s).
Proof.
  intros Hs Hx Hr. unfold flagCell, bind, get, isPlaying, readCellOf.
  rewrite bool_decide_eq_true_2 by done. simpl. by rewrite Hx, Hr.
Qed.

Lemma flagCell_out_of_range i j s :
  status s = Playing → getCell (grid s) i j = None →
  flagCell i j s = (Throw, s).
Proof.
  intros Hs Hx. unfold flagCell, bind, get, isPlaying, readCellOf.
  rewrite bool_decide_eq_true_2 by done. simpl. by rewrite Hx.
Qed.

Lemma flagCell_status i j s : status (snd (flagCell i j s)) = status s.
Proof.
  destruct (decide (status s = Playing)) as [Hs|Hs].
  2:{ by rewrite flagCell_not_playing. }
  destruct (getCell (grid s) i j) as [x|] eqn:Hx.
  2:{ by rewrite flagCell_out_of_range. }
  destruct (isRevealed x) eqn:Hr.
  - by erewrite flagCell_revealed.
  - by erewrite flagCell_hidden.
Qed.

(** C8. In a match that is being played, a flag on a cell that is not
    revealed negates the cell's [isFlagged] and changes nothing else, in
    the cell, in the grid or in the match; a second flag on the same cell
    gives back the original match.  A flag on a revealed cell is a no-op.
    No flag changes the status. *)
Theorem flag_toggles s i j :
  (∀ x, status s = Playing → getCell (grid s) i j = Some x →
        isRevealed x = false →
     ∃ s', flagCell i j s = (Ret tt, s') ∧
       getCell (grid s') i j =
         Some (mkCell (r x) (c x) (isMine x) (isRevealed x)
                 (negb (isFlagged x)) (neighborMines x)) ∧
       (∀ a b, (a, b) ≠ (i, j) → getCell (grid s') a b = getCell (grid s) a b) ∧
       (rows s', cols s', mines s', status s', startTime s', endTime s', timeLimit s')
       = (rows s, cols s, mines s, status s, startTime s, endTime s, timeLimit s) ∧
       flagCell i j s' = (Ret tt, s)) ∧
  (∀ x, status s = Playing → getCell (grid s) i j = Some x →
        isRevealed x = true → flagCell i j s = (Ret tt, s)) ∧
  status (snd (flagCell i j s)) = status s.
Proof.
  split; [|split; [|apply flagCell_status]].
  - intros x Hs Hx Hr. destruct (getCell_nonneg _ _ _ _ Hx) as [Hi Hj].
    eexists. split; [by eapply flagCell_hidden|]. simpl.
    split; [by apply (getCell_updCell_eq toggleFlagged)|].
    split; [intros a b Hne; by apply getCell_updCell_ne|].
    split; [done|].
    erewrite flagCell_hidden; [|done|by eapply getCell_updCell_eq|done].
    simpl. rewrite updCell_toggle_twice. by destruct s.
  - intros x Hs Hx Hr. by eapply flagCell_revealed.
Qed.

Lemma flag_toggles_witness :
  ∃ s', flagCell 0 1 board2x3 = (Ret tt, s') ∧
    isFlaggedAt (grid s') 0 1 = true ∧ flagCell 0 1 s' = (Ret tt, board2x3).
Proof.
  destruct (proj1 (flag_toggles board2x3 0 1) (mkCell 0 1 false false false 2))
    as (s' & Hrun & Hcell & _ & _ & Hback); [reflexivity..|].
  exists s'. split; [done|]. split; [|done].
  unfold isFlaggedAt. by rewrite Hcell.
Defined.

(** ** The timeout *)

Lemma checkTimeout_idle now s :
  status s ≠ Playing ∨ startTimeUnset s = true →
  checkTimeout now s = (Ret false, s).
Proof.
  intros H. unfold checkTimeout, bind, get, isPlaying.
  destruct H as [Hs|Hu].
  - by rewrite bool_decide_eq_false_2.
  - rewrite Hu. by rewrite orb_true_r.
Qed.

Lemma checkTimeout_running now s :
  status s = Playing → startTimeUnset s = false →
  checkTimeout now s =
  if decide (timeLimit s ≤ elapsedSeconds now s)
  then (Ret true,
        mkGameState (forEachCell revealMine (grid s)) (rows s) (cols s)
          (mines s) Lost (startTime s) (Some now) (timeLimit s))
  else (Ret false, s).
Proof.
  intros Hs Hu. unfold checkTimeout, bind, get, isPlaying.
  rewrite bool_decide_eq_true_2, Hu by done. simpl.
  destruct (Z.leb_spec (timeLimit s) (elapsedSeconds now s));
    [by rewrite decide_True|by rewrite decide_False by lia].
Qed.

(** C6. [checkTimeout] returns false and changes nothing when the match
    is not being played or has no start time; the code tests
    [!startTime], which holds of [null] and of 0.  Otherwise the elapsed
    time is the floor of (now - startTime) / 1000; when it is at least
    the time limit the match is lost, its end time is set, every mine is
    revealed and the result is true; when it is less, nothing changes and
    the result is false.  With a start time [t0] and a limit of 120
    seconds, the match is still played at [t0 + 119000] and lost, all
    mines revealed, at [t0 + 120000]. *)
Theorem timeout_check now s :
  (status s ≠ Playing ∨ startTimeUnset s = true →
   checkTimeout now s = (Ret false, s)) ∧
  (∀ t0, status s = Playing → startTimeUnset s = false →
     startTime s = Some t0 →
     let elapsed := elapsedSeconds now s in
     elapsed = (now - t0) `div` 1000 ∧
     1000 * elapsed ≤ now - t0 < 1000 * elapsed + 1000 ∧
     (elapsed < timeLimit s → checkTimeout now s = (Ret false, s)) ∧
     (timeLimit s ≤ elapsed →
        ∃ s', checkTimeout now s = (Ret true, s') ∧
          status s' = Lost ∧ endTime s' = Some now ∧
          grid s' = forEachCell revealMine (grid s) ∧
          (∀ a b, isMineAt (grid s) a b = true →
                  isRevealedAt (grid s') a b = true))) ∧
  (∀ t0, status s = Playing → startTimeUnset s = false →
     startTime s = Some t0 → timeLimit s = 120 →
     checkTimeout (t0 + 119000) s = (Ret false, s) ∧
     ∃ s', checkTimeout (t0 + 120000) s = (Ret true, s') ∧
       status s' = Lost ∧
       (∀ a b, isMineAt (grid s) a b = true →
               isRevealedAt (grid s') a b = true)).
Proof.
  assert (Hel : ∀ t t0, startTime s = Some t0 →
            elapsedSeconds t s = (t - t0) `div` 1000).
  { intros t t0 Ht0. unfold elapsedSeconds. by rewrite Ht0. }
  split; [apply checkTimeout_idle|]. split.
  - intros t0 Hs Hset Ht0 elapsed. subst elapsed.
    rewrite (checkTimeout_running _ _ Hs Hset).
    rewrite (Hel _ _ Ht0).
    split; [done|]. split; [|split].
    + pose proof (Z.mul_div_le (now - t0) 1000 ltac:(lia)).
      pose proof (Z.mul_succ_div_gt (now - t0) 1000 ltac:(lia)). lia.
    + intros Hlt. by rewrite decide_False by lia.
    + intros Hge. rewrite decide_True by done. eexists. split; [done|]. simpl.
      split; [done|]. split; [done|]. split; [done|].
      intros a b Hm. by rewrite isRevealedAt_revealMines, Hm.
  - intros t0 Hs Hset Ht0 Hlim.
    rewrite !(checkTimeout_running _ _ Hs Hset).
    rewrite !(Hel _ _ Ht0), Hlim.
    replace (t0 + 119000 - t0) with 119000 by lia.
    replace (t0 + 120000 - t0) with 120000 by lia.
    split; [done|]. eexists. split; [done|]. simpl. split; [done|].
    intros a b Hm. by rewrite isRevealedAt_revealMines, Hm.
Qed.

Lemma timeout_check_witness :
  checkTimeout (1000 + 119000) board2x3 = (Ret false, board2x3) ∧
  ∃ s', checkTimeout (1000 + 120000) board2x3 = (Ret true, s') ∧
    status s' = Lost ∧
    (∀ a b, isMineAt (grid board2x3) a b = true →
            isRevealedAt (grid s') a b = true).
Proof.
  apply (proj2 (proj2 (timeout_check 0 board2x3)) 1000); reflexivity.
Defined.

(** ** Finished matches *)

Lemma act_not_playing now a s :
  status s ≠ Playing → act now a s = (Ret tt, s).
Proof.
  intros Hs. destruct a as [i j|i j|]; simpl.
  - by apply click_not_playing.
  - by apply flagCell_not_playing.
  - unfold bind. rewrite checkTimeout_idle by auto. done.
Qed.

Lemma runAll_not_playing l s : status s ≠ Playing → runAll l s = s.
Proof.
  intros Hs. unfold runAll. induction l as [|[now a] l IH]; simpl; [done|].
  unfold after at 2. by rewrite act_not_playing.
Qed.

Lemma createNewGame_fields nrows ncols nmines picks now s :
  createNewGame nrows ncols nmines picks now = Ret s →
  rows s = nrows ∧ cols s = ncols ∧ mines s = nmines ∧ status s = Playing ∧
  startTime s = Some now ∧ endTime s = None ∧
  timeLimit s = timeLimitFor nrows ncols.
Proof.
  unfold createNewGame. destruct (bind _ _ _) as [[[]| |] g]; [|done..].
  intros [= <-]. done.
Qed.

(** C9. Won and lost are final: once the match is not being played, a
    click, a flag and a timeout check each return without changing
    anything, and so does every run of them.  A match returned by
    [createNewGame] is being played. *)
Theorem terminal_status s :
  (status s ≠ Playing →
     (∀ now i j, click now i j s = (Ret tt, s)) ∧
     (∀ i j, flagCell i j s = (Ret tt, s)) ∧
     (∀ now, checkTimeout now s = (Ret false, s)) ∧
     (∀ l, runAll l s = s)) ∧
  (∀ nrows ncols nmines picks now,
     createNewGame nrows ncols nmines picks now = Ret s → status s = Playing).
Proof.
  split.
  - intros Hs. split; [|split; [|split]].
    + intros now i j. by apply click_not_playing.
    + intros i j. by apply flagCell_not_playing.
    + intros now. apply checkTimeout_idle. auto.
    + intros l. by apply runAll_not_playing.
  - intros nrows ncols nmines picks now H.
    by destruct (createNewGame_fields _ _ _ _ _ _ H) as (_&_&_&?&_).
Qed.

Lemma terminal_status_witness :
  let lost := after 2000 (Click 0 0) board2x3 in
  status lost = Lost ∧
  runAll [(3000, Click 0 1); (4000, Flag 1 1); (500000, Tick)] lost = lost.
Proof.
  split; [reflexivity|].
  apply (proj1 (terminal_status (after 2000 (Click 0 0) board2x3))).
  discriminate.
Defined.

(** ** Correct counts *)

Lemma adjacentMines_nonneg g i j : 0 ≤ adjacentMines g i j.
Proof.
  unfold adjacentMines. induction (neighbours8 i j) as [|p l IH]; simpl; [done|].
  destruct (isMineAt g p.1 p.2); lia.
Qed.

Lemma adjacentMines_zero g i j a b :
  adjacentMines g i j = 0 → (a, b) ∈ neighbours8 i j → isMineAt g a b = false.
Proof.
  unfold adjacentMines. induction (neighbours8 i j) as [|p l IH]; simpl.
  - intros _ H. by apply elem_of_nil in H.
  - intros H0 Hin.
    pose proof (adjacentMines_nonneg g i j) as Hnn.
    assert (0 ≤ foldr (λ p n, if isMineAt g p.1 p.2 then n + 1 else n) 0 l) as Hl.
    { clear. induction l as [|q l IH]; simpl; [done|].
      destruct (isMineAt g q.1 q.2); lia. }
    apply elem_of_cons in Hin as [<-|Hin]; simpl in *.
    + destruct (isMineAt g a b); [lia|done].
    + apply IH; [|done]. destruct (isMineAt g p.1 p.2); lia.
Qed.

Lemma adjacent_neighbours8 i j i' j' :
  adjacent i j i' j' → (i', j') = (i, j) ∨ (i', j') ∈ neighbours8 i j.
Proof.
  intros [Hi Hj]. unfold neighbours8.
  assert (i' = i - 1 ∨ i' = i ∨ i' = i + 1) as [-> | [-> | ->]] by lia;
  assert (j' = j - 1 ∨ j' = j ∨ j' = j + 1) as [-> | [-> | ->]] by lia;
    first [by left | right; repeat first [by left | right]].
Qed.

Lemma CountsCorrect_NoAdjMine g : CountsCorrect g → NoAdjMine g.
Proof.
  intros Hc i j i' j' Hsome Hm Hz Hadj.
  rewrite (Hc _ _ Hsome Hm) in Hz.
  destruct (adjacent_neighbours8 _ _ _ _ Hadj) as [[= -> ->]|Hin]; [done|].
  by eapply adjacentMines_zero.
Qed.

Lemma CountsCorrect_transfer g g' :
  (∀ i j, is_Some (getCell g' i j) ↔ is_Some (getCell g i j)) →
  (∀ i j, isMineAt g' i j = isMineAt g i j) →
  (∀ i j, neighborMinesAt g' i j = neighborMinesAt g i j) →
  CountsCorrect g → CountsCorrect g'.
Proof.
  intros Hs Hm Hn Hc i j Hsome Hmine.
  rewrite Hn, (Hc i j); [|by apply Hs|by rewrite <- Hm].
  unfold adjacentMines. induction (neighbours8 i j) as [|p l IH]; simpl; [done|].
  by rewrite Hm, IH.
Qed.

Lemma grid_le_CountsCorrect g g' : grid_le g g' → CountsCorrect g → CountsCorrect g'.
Proof.
  intros Hle. apply CountsCorrect_transfer.
  - intros i j. by apply grid_le_is_Some.
  - intros i j. by apply grid_le_isMineAt.
  - intros i j. by apply grid_le_neighborMinesAt.
Qed.

(** ** The flood fill reveals the region and its border *)

Lemma openAt_is_Some g i j : openAt g i j = true → is_Some (getCell g i j).
Proof. unfold openAt. destruct (getCell g i j); [eauto|done]. Qed.

Lemma openAt_hidden g i j :
  openAt g i j = true → isRevealedAt g i j = false ∧ isFlaggedAt g i j = false.
Proof.
  unfold openAt, isRevealedAt, isFlaggedAt.
  destruct (getCell g i j) as [x|]; [|done].
  by destruct (isRevealed x), (isFlagged x).
Qed.

Lemma Reach_safe g i0 j0 i j :
  NoAdjMine g → isMineAt g i0 j0 = false →
  Reach g i0 j0 i j → isMineAt g i j = false.
Proof.
  intros Hnam Hm0. induction 1 as [|i j i' j' HR IH Hm Hz Hadj Ho]; [done|].
  eapply Hnam; [|done..]. by eapply openAt_is_Some, Reach_open.
Qed.

Lemma Region_zero g i0 j0 i j :
  Region g i0 j0 i j →
  openAt g i j = true ∧ isMineAt g i j = false ∧ neighborMinesAt g i j = 0.
Proof. by destruct 1. Qed.

Lemma Region_Reach g i0 j0 i j : Region g i0 j0 i j → Reach g i0 j0 i j.
Proof.
  induction 1 as [|i j i' j' HR IH Hadj Ho Hm Hz]; [by apply Reach_start|].
  destruct (Region_zero _ _ _ _ _ HR) as (_ & Hm' & Hz').
  by eapply Reach_step.
Qed.

Lemma Reach_Region_Border g i0 j0 i j :
  CountsCorrect g →
  isMineAt g i0 j0 = false → neighborMinesAt g i0 j0 = 0 →
  Reach g i0 j0 i j ↔ Region g i0 j0 i j ∨ Border g i0 j0 i j.
Proof.
  intros Hc Hm0 Hz0. pose proof (CountsCorrect_NoAdjMine _ Hc) as Hnam. split.
  - induction 1 as [Ho|i j i' j' HR IH Hm Hz Hadj Ho].
    + left. by apply Region_start.
    + assert (Region g i0 j0 i j) as Hreg.
      { destruct IH as [?|(?&?&_&_&_&Hpos)]; [done|lia]. }
      assert (isMineAt g i' j' = false) as Hm'.
      { eapply Hnam; [|done..]. by eapply openAt_is_Some, Reach_open. }
      destruct (decide (neighborMinesAt g i' j' = 0)) as [Hz'|Hz'].
      * left. by eapply Region_step.
      * right. exists i, j. repeat split; try done; try apply Hadj.
        pose proof (adjacentMines_nonneg g i' j').
        rewrite <- (Hc i' j') in *; [lia|by apply openAt_is_Some|done].
  - intros [Hreg|(a & b & Hreg & Hadj & Ho & Hpos)].
    + by apply Region_Reach.
    + destruct (Region_zero _ _ _ _ _ Hreg) as (_ & Hm & Hz).
      eapply Reach_step; [by apply Region_Reach|done..].
Qed.

(** Everything the fill can reach is revealed once the call is over. *)
Lemma Closed_complete g g' i0 j0 i j :
  grid_le g g' → Closed g g' →
  isRevealedAt g' i0 j0 = true →
  Reach g i0 j0 i j → isRevealedAt g' i j = true.
Proof.
  intros Hle Hcl H0. induction 1 as [|i j i' j' HR IH Hm Hz Hadj Ho]; [done|].
  destruct (openAt_hidden _ _ _ (Reach_open _ _ _ _ _ HR)) as [Hh _].
  destruct (openAt_hidden _ _ _ Ho) as [_ Hf'].
  specialize (Hcl i j i' j' Hh IH).
  rewrite (grid_le_isMineAt _ _ _ _ Hle), (grid_le_neighborMinesAt _ _ _ _ Hle),
    (grid_le_isFlaggedAt _ _ _ _ Hle), (grid_le_is_Some _ _ _ _ Hle) in Hcl.
  specialize (Hcl Hm Hz Hadj (openAt_is_Some _ _ _ Ho)).
  rewrite Hf', orb_false_r in Hcl. done.
Qed.

(** ** Reachable states, concretely *)

Lemma Reachable_runAll l s : Reachable s → Reachable (runAll l s).
Proof.
  unfold runAll. revert s. induction l as [|[now a] l IH]; intros s Hs; [done|].
  simpl. apply IH. by apply Reachable_after.
Qed.

Lemma Reachable_board1x5 : Reachable board1x5.
Proof. by apply (Reachable_new 1 5 0 [] 1000); [repeat split|]. Qed.

(** ** Board generation *)

Lemma getCell_initGrid nrows ncols i j :
  getCell (initGrid nrows ncols) i j =
  if inBounds nrows ncols i j then Some (newCell i j) else None.
Proof.
  unfold getCell, getRow, initGrid, inBounds.
  destruct (decide (0 ≤ i)) as [Hi|Hi].
  2:{ destruct (Z.leb_spec 0 i); [lia|done]. }
  destruct (Z.leb_spec 0 i); [|lia]. rewrite list_lookup_fmap.
  destruct (Z.ltb_spec i nrows) as [Hi'|Hi'].
  2:{ rewrite lookup_seqZ_ge by lia. done. }
  rewrite lookup_seqZ_lt by lia. simpl.
  destruct (decide (0 ≤ j)) as [Hj|Hj].
  2:{ destruct (Z.leb_spec 0 j); [lia|done]. }
  destruct (Z.leb_spec 0 j); [|lia]. rewrite list_lookup_fmap.
  destruct (Z.ltb_spec j ncols) as [Hj'|Hj'].
  2:{ rewrite lookup_seqZ_ge by lia. done. }
  rewrite lookup_seqZ_lt by lia. simpl. do 2 f_equal; lia.
Qed.

Lemma Shape_initGrid nrows ncols :
  0 ≤ nrows → 0 ≤ ncols → Shape nrows ncols (initGrid nrows ncols).
Proof.
  intros Hr Hc. unfold initGrid. split.
  - rewrite length_fmap, length_seqZ. lia.
  - apply Forall_fmap, Forall_forall. intros i _. simpl.
    rewrite length_fmap, length_seqZ. lia.
Qed.

Lemma countGrid_initGrid nrows ncols :
  countGrid isMine (initGrid nrows ncols) = 0%nat.
Proof.
  apply countGrid_zero. intros i j x. rewrite getCell_initGrid.
  destruct (inBounds _ _ _ _); [|done]. by intros [= <-].
Qed.

Lemma AllHidden_initGrid nrows ncols : AllHidden (initGrid nrows ncols).
Proof.
  intros i j x. rewrite getCell_initGrid.
  destruct (inBounds _ _ _ _); [|done]. by intros [= <-].
Qed.

(** A loop with an invariant over the part of the list already done. *)
Lemma post_forM_prefix {S X} (I : list X → S → Prop) (l : list X)
    (body : X → M S unit) :
  (∀ pre x suf s, l = pre ++ x :: suf → I pre s →
     post (body x) s (λ _ s', I (pre ++ [x]) s')) →
  ∀ s, I [] s → post (forM l body) s (λ _ s', I l s').
Proof.
  intros Hbody.
  assert (∀ suf pre s, l = pre ++ suf → I pre s →
            post (forM suf body) s (λ _ s', I l s')) as H.
  { induction suf as [|x suf IH]; intros pre s Hl HI; simpl.
    - apply post_ret. by rewrite Hl, app_nil_r.
    - apply post_bind. eapply post_mono; [by eapply Hbody|].
      intros [] s' HI'. simpl in *. eapply IH; [|done].
      by rewrite <- app_assoc. }
  intros s HI. by eapply (H l []).
Qed.

(** *** Placing the mines *)

Lemma isMineAt_updCell_setMine g i j a b :
  is_Some (getCell g i j) →
  isMineAt (updCell setMine i j g) a b =
  if decide ((a, b) = (i, j)) then true else isMineAt g a b.
Proof.
  intros [x Hx]. destruct (getCell_nonneg _ _ _ _ Hx) as [Hi Hj].
  unfold isMineAt. case_decide as Hab.
  - injection Hab as -> ->. by rewrite (getCell_updCell_eq _ _ _ _ _ Hx).
  - by rewrite getCell_updCell_ne.
Qed.

Lemma AllHidden_updCell f i j g :
  is_Some (getCell g i j) →
  (∀ x, isRevealed (f x) = isRevealed x ∧ isFlagged (f x) = isFlagged x) →
  AllHidden g → AllHidden (updCell f i j g).
Proof.
  intros [x Hx] Hf Hg a b y Hy.
  destruct (getCell_nonneg _ _ _ _ Hx) as [Hi Hj].
  rewrite getCell_updCell in Hy by done. case_decide as Hab; [|eauto].
  rewrite Hx in Hy. simplify_eq/=. destruct (Hf x) as [-> ->]. eauto.
Qed.

Lemma placeMines_done picks nmines placed :
  ¬ placed < nmines → placeMines picks nmines placed = ret tt.
Proof. intros H. destruct picks; simpl; by rewrite decide_False. Qed.

Lemma placeMines_cons i j picks nmines placed :
  placed < nmines →
  placeMines ((i, j) :: picks) nmines placed =
  (let* x := readCell i j in
   if negb (isMine x) then
     let* _ := modify (updCell setMine i j) in
     placeMines picks nmines (placed + 1)
   else placeMines picks nmines placed).
Proof. intros H. simpl. by rewrite decide_True. Qed.

Lemma readCell_Some i j g x :
  getCell g i j = Some x → readCell i j g = (Ret x, g).
Proof. intros H. unfold readCell. by rewrite H. Qed.

Lemma readCell_Ret_inv i j g x g' :
  readCell i j g = (Ret x, g') → getCell g i j = Some x ∧ g' = g.
Proof.
  unfold readCell. destruct (getCell g i j); [|done]. by intros [= -> ->].
Qed.

Lemma countGrid_isMine_setMine g i j x :
  getCell g i j = Some x → isMine x = false →
  countGrid isMine (updCell setMine i j g) = S (countGrid isMine g).
Proof.
  intros Hx Hm. pose proof (countGrid_updCell isMine setMine _ _ _ _ Hx) as H.
  simpl in H. rewrite Hm in H. lia.
Qed.

(** If the loop ends, the grid holds exactly [nmines] mines. *)
Lemma placeMines_partial nrows ncols nmines picks placed g g' :
  Shape nrows ncols g → AllHidden g →
  Z.of_nat (countGrid isMine g) = placed → placed ≤ nmines →
  placeMines picks nmines placed g = (Ret tt, g') →
  Shape nrows ncols g' ∧ AllHidden g' ∧ Z.of_nat (countGrid isMine g') = nmines.
Proof.
  revert placed g. induction picks as [|[i j] picks IH];
    intros placed g Hshape Hhid Hcount Hle Hrun;
    destruct (decide (placed < nmines)) as [Hlt|Hge].
  - simpl in Hrun. by rewrite decide_True in Hrun.
  - rewrite placeMines_done in Hrun by done. injection Hrun as <-.
    split; [done|]. split; [done|]. lia.
  - rewrite placeMines_cons in Hrun by done.
    apply bind_Ret_inv in Hrun as (x & g1 & Hread & Hrun).
    apply readCell_Ret_inv in Hread as [Hx ->].
    destruct (isMine x) eqn:Hm; simpl in Hrun.
    + by eapply IH.
    + apply (IH (placed + 1) (updCell setMine i j g)); [..|lia|done].
      * by apply Shape_updCell.
      * apply AllHidden_updCell; [by eexists|done..].
      * rewrite (countGrid_isMine_setMine _ _ _ _ Hx Hm). lia.
  - rewrite placeMines_done in Hrun by done. injection Hrun as <-.
    split; [done|]. split; [done|]. lia.
Qed.

Lemma freshPicks_step g i j picks :
  is_Some (getCell g i j) →
  (length (freshPicks g ((i, j) :: picks)) ≤
   S (length (freshPicks (updCell setMine i j g) picks)))%nat.
Proof.
  intros Hsome.
  change (S (length ?l)) with (length ((i, j) :: l)).
  apply submseteq_length, NoDup_submseteq; [apply NoDup_remove_dups|].
  intros q. unfold freshPicks.
  rewrite elem_of_remove_dups, list_elem_of_filter, !elem_of_cons,
    elem_of_remove_dups, list_elem_of_filter.
  intros [Hq [->|Hin]]; [by left|].
  destruct (decide (q = (i, j))) as [->|Hne]; [by left|]. right.
  split; [|done]. rewrite isMineAt_updCell_setMine by done.
  rewrite decide_False; [done|]. by destruct q.
Qed.

(** The loop ends when the picks hold enough distinct free cells. *)
Lemma placeMines_total nrows ncols nmines picks placed g :
  Shape nrows ncols g → picksInRange nrows ncols picks →
  nmines - placed ≤ Z.of_nat (length (freshPicks g picks)) →
  ∃ g', placeMines picks nmines placed g = (Ret tt, g').
Proof.
  revert placed g. induction picks as [|[i j] picks IH];
    intros placed g Hshape Hrange Hfresh;
    destruct (decide (placed < nmines)) as [Hlt|Hge];
    try (rewrite placeMines_done by done; by eexists).
  - simpl in Hfresh. lia.
  - rewrite placeMines_cons by done.
    assert (Hin : inBounds nrows ncols i j = true).
    { apply (Hrange (i, j)). by left. }
    destruct (proj2 (Shape_getCell _ _ _ i j Hshape) Hin) as [x Hx].
    assert (Hrange' : picksInRange nrows ncols picks).
    { intros p Hp. apply Hrange. by right. }
    rewrite (bind_Ret _ _ _ _ _ (readCell_Some _ _ _ _ Hx)).
    destruct (isMine x) eqn:Hm; simpl.
    + apply IH; [done..|].
      unfold freshPicks in *. rewrite filter_cons_False in Hfresh; [done|].
      simpl. unfold isMineAt. rewrite Hx, Hm. done.
    + unfold bind, modify. apply IH; [by apply Shape_updCell|done|].
      pose proof (freshPicks_step g i j picks ltac:(eauto)). lia.
Qed.

(** *** Counting the neighbours *)

Lemma countStep_run nrows ncols i j dr dc count g :
  Shape nrows ncols g →
  countStep nrows ncols i j dr dc count g =
  (Ret (if isMineAt g (i + dr) (j + dc) then count + 1 else count), g).
Proof.
  intros Hshape. unfold countStep, isMineAt.
  pose proof (Shape_getCell _ _ _ (i + dr) (j + dc) Hshape) as Hs.
  destruct (inBounds nrows ncols (i + dr) (j + dc)).
  - destruct (proj2 Hs eq_refl) as [x Hx].
    rewrite (bind_Ret _ _ _ _ _ (readCell_Some _ _ _ _ Hx)). by rewrite Hx.
  - destruct (getCell g (i + dr) (j + dc)) as [x|] eqn:Hx; [|done].
    assert (false = true) by (apply Hs; eauto). done.
Qed.

Lemma foldM_pure {S X A} (l : list X) (body : X → A → M S A)
    (f : X → A → A) (s : S) :
  (∀ x a, body x a s = (Ret (f x a), s)) →
  ∀ a, foldM l body a s = (Ret (foldl (λ a x, f x a) a l), s).
Proof.
  intros Hb. induction l as [|x l IH]; intros a; simpl; [done|].
  by rewrite (bind_Ret _ _ _ _ _ (Hb x a)).
Qed.

Lemma countMines_run nrows ncols i j g :
  Shape nrows ncols g →
  countMines nrows ncols i j g =
  (Ret (adjacentMines g i j + if isMineAt g i j then 1 else 0), g).
Proof.
  intros Hshape. unfold countMines.
  rewrite (foldM_pure offsets _
    (λ dr count, foldl (λ count dc,
       if isMineAt g (i + dr) (j + dc) then count + 1 else count) count offsets)).
  2:{ intros dr count.
      apply (foldM_pure offsets _
        (λ dc count, if isMineAt g (i + dr) (j + dc) then count + 1 else count)).
      intros dc count'. by apply countStep_run. }
  f_equal. f_equal.
  unfold adjacentMines, neighbours8, offsets. cbn [foldl foldr fst snd].
  rewrite !Z.add_0_r.
  change (i + -1) with (i - 1). change (j + -1) with (j - 1).
  repeat match goal with
         | |- context [isMineAt g ?a ?b] => destruct (isMineAt g a b)
         end; lia.
Qed.

Lemma calcCell_run nrows ncols i j g x :
  Shape nrows ncols g → getCell g i j = Some x →
  calcCell nrows ncols i j g =
  (Ret tt, if isMine x then g
           else updCell (setNeighborMines (adjacentMines g i j)) i j g).
Proof.
  intros Hshape Hx. unfold calcCell.
  rewrite (bind_Ret _ _ _ _ _ (readCell_Some _ _ _ _ Hx)).
  destruct (isMine x) eqn:Hm; [done|].
  rewrite (bind_Ret _ _ _ _ _ (countMines_run _ _ _ _ _ Hshape)).
  unfold isMineAt. rewrite Hx, Hm, Z.add_0_r. done.
Qed.

Lemma counted_isMine g0 i j x : isMine (counted g0 i j x) = isMine x.
Proof. unfold counted. by destruct (isMine x) eqn:Hm. Qed.

Lemma CalcInv_isMineAt nrows ncols g0 processed g a b :
  CalcInv nrows ncols g0 processed g → isMineAt g a b = isMineAt g0 a b.
Proof.
  intros (_ & _ & Hc). unfold isMineAt. rewrite Hc.
  destruct (processed a b); [|done].
  destruct (getCell g0 a b); simpl; [apply counted_isMine|done].
Qed.

Lemma adjacentMines_ext g g' i j :
  (∀ a b, isMineAt g a b = isMineAt g' a b) →
  adjacentMines g i j = adjacentMines g' i j.
Proof.
  intros H. unfold adjacentMines.
  induction (neighbours8 i j) as [|p l IH]; simpl; [done|]. by rewrite H, IH.
Qed.

Lemma CalcInv_ext nrows ncols g0 p p' g :
  (∀ a b, p a b = p' a b) →
  CalcInv nrows ncols g0 p g → CalcInv nrows ncols g0 p' g.
Proof.
  intros Hpp (Hs & Hn & Hc). split; [done|]. split; [done|].
  intros a b. by rewrite <- Hpp.
Qed.

Lemma calcCell_step nrows ncols g0 processed g i j :
  CalcInv nrows ncols g0 processed g → inBounds nrows ncols i j = true →
  post (calcCell nrows ncols i j) g
    (λ _ g', CalcInv nrows ncols g0
               (λ a b, processed a b || ((a =? i) && (b =? j))) g').
Proof.
  intros Hinv Hin. pose proof Hinv as (Hshape & Hcount & Hcells).
  destruct (proj2 (Shape_getCell _ _ _ i j Hshape) Hin) as [x Hx].
  destruct (getCell_nonneg _ _ _ _ Hx) as [Hi Hj].
  exists tt. eexists. split; [by eapply calcCell_run|].
  assert (Hx0 : ∃ x0, getCell g0 i j = Some x0 ∧
            isMine x0 = isMine x ∧
            (isMine x = false →
             setNeighborMines (adjacentMines g0 i j) x = counted g0 i j x0)).
  { specialize (Hcells i j). rewrite Hx in Hcells.
    destruct (getCell g0 i j) as [x0|]; [|by destruct (processed i j)].
    exists x0. split; [done|].
    destruct (processed i j); simpl in Hcells; injection Hcells as ->.
    - split; [by rewrite counted_isMine|]. rewrite counted_isMine.
      intros Hm. unfold counted. by rewrite Hm.
    - split; [done|]. intros Hm. unfold counted. by rewrite Hm. }
  destruct Hx0 as (x0 & Hx0 & Hm0 & Hset).
  assert (Hadj : adjacentMines g i j = adjacentMines g0 i j).
  { apply adjacentMines_ext. intros a b. by eapply CalcInv_isMineAt. }
  destruct (isMine x) eqn:Hm.
  - split; [done|]. split; [done|]. intros a b. rewrite Hcells.
    destruct (processed a b); simpl; [done|].
    destruct (Z.eqb_spec a i) as [->|]; [|done].
    destruct (Z.eqb_spec b j) as [->|]; [|done]. simpl.
    rewrite Hx0. simpl. unfold counted. by rewrite Hm0.
  - split; [by apply Shape_updCell|]. split.
    { rewrite <- Hcount.
      pose proof (countGrid_updCell isMine
        (setNeighborMines (adjacentMines g i j)) _ _ _ _ Hx) as H.
      simpl in H. lia. }
    intros a b. rewrite getCell_updCell by done.
    case_decide as Hab.
    + destruct Hab as [-> ->]. rewrite !Z.eqb_refl, orb_true_r. simpl.
      rewrite Hx, Hx0. simpl. f_equal. rewrite Hadj. auto.
    + rewrite Hcells.
      assert ((a =? i) && (b =? j) = false) as ->; [|by rewrite orb_false_r].
      apply andb_false_iff.
      destruct (Z.eqb_spec a i), (Z.eqb_spec b j); auto. tauto.
Qed.

Lemma CalcInv_weaken nrows ncols g0 p p' g :
  (∀ a b, p a b = p' a b ∨ getCell g0 a b = None) →
  CalcInv nrows ncols g0 p g → CalcInv nrows ncols g0 p' g.
Proof.
  intros Hpp (Hs & Hn & Hc). split; [done|]. split; [done|].
  intros a b. rewrite Hc. destruct (Hpp a b) as [-> | ->]; [done|].
  by destruct (p a b), (p' a b).
Qed.

Lemma bool_decide_elem_of_snoc (l : list Z) (x y : Z) :
  bool_decide (y ∈ l ++ [x]) = bool_decide (y ∈ l) || (y =? x).
Proof.
  destruct (Z.eqb_spec y x) as [-> | Hne].
  - rewrite orb_true_r. apply bool_decide_eq_true.
    apply elem_of_app. right. by left.
  - rewrite orb_false_r. apply bool_decide_ext.
    rewrite elem_of_app, list_elem_of_singleton. tauto.
Qed.

(** The loops under "Calculate neighbors" return, with every safe cell
    showing the number of mines around it and nothing else changed. *)
Lemma calcNeighbors_spec nrows ncols g0 :
  Shape nrows ncols g0 →
  post (calcNeighbors nrows ncols) g0
    (λ _ g', Shape nrows ncols g' ∧
             countGrid isMine g' = countGrid isMine g0 ∧
             ∀ a b, getCell g' a b = counted g0 a b <$> getCell g0 a b).
Proof.
  intros Hshape0. unfold calcNeighbors.
  assert (Hnone : ∀ a b, ¬ (0 ≤ b < ncols) → getCell g0 a b = None).
  { intros a b Hb. destruct (getCell g0 a b) as [x|] eqn:Hx; [|done].
    assert (inBounds nrows ncols a b = true) as Hin.
    { apply (Shape_getCell _ _ _ _ _ Hshape0). eauto. }
    unfold inBounds in Hin. rewrite !andb_true_iff in Hin. lia. }
  assert (Hnone' : ∀ a b, ¬ (0 ≤ a < nrows) → getCell g0 a b = None).
  { intros a b Ha. destruct (getCell g0 a b) as [x|] eqn:Hx; [|done].
    assert (inBounds nrows ncols a b = true) as Hin.
    { apply (Shape_getCell _ _ _ _ _ Hshape0). eauto. }
    unfold inBounds in Hin. rewrite !andb_true_iff in Hin. lia. }
  eapply post_mono.
  { apply (post_forM_prefix
      (λ pre g, CalcInv nrows ncols g0 (λ a b, bool_decide (a ∈ pre)) g)).
    - intros pre i suf g Hl Hinv.
      assert (Hi : 0 ≤ i < nrows).
      { assert (i ∈ seqZ 0 nrows) as Hi.
        { rewrite Hl. apply elem_of_app. right. by left. }
        apply elem_of_seqZ in Hi. lia. }
      eapply post_mono.
      { apply (post_forM_prefix
          (λ pre' g, CalcInv nrows ncols g0
             (λ a b, bool_decide (a ∈ pre) ||
                     ((a =? i) && bool_decide (b ∈ pre'))) g)).
        - intros pre' j suf' g' Hl' Hinv'.
          assert (Hj : 0 ≤ j < ncols).
          { assert (j ∈ seqZ 0 ncols) as Hj.
            { rewrite Hl'. apply elem_of_app. right. by left. }
            apply elem_of_seqZ in Hj. lia. }
          eapply post_mono.
          { apply (calcCell_step _ _ _ _ _ i j Hinv').
            unfold inBounds. rewrite !andb_true_iff, !Z.leb_le, !Z.ltb_lt. lia. }
          intros [] g'' Hinv''. simpl in *.
          eapply CalcInv_ext; [|done]. intros a b. simpl.
          rewrite bool_decide_elem_of_snoc.
          destruct (bool_decide (a ∈ pre)), (a =? i), (bool_decide (b ∈ pre')),
            (b =? j); done.
        - eapply CalcInv_ext; [|done]. intros a b. simpl.
          by rewrite andb_false_r, orb_false_r. }
      intros [] g' Hinv'. simpl in *.
      eapply CalcInv_weaken; [|done]. intros a b. simpl.
      rewrite bool_decide_elem_of_snoc.
      destruct (decide (0 ≤ b < ncols)) as [Hb|Hb]; [left|right; by apply Hnone].
      rewrite (bool_decide_eq_true_2 (b ∈ seqZ 0 ncols)); [|apply elem_of_seqZ; lia].
      by rewrite andb_true_r.
    - split; [done|]. split; [done|]. intros a b.
      done. }
  intros [] g' (Hs & Hn & Hc). simpl in *. split; [done|]. split; [done|].
  intros a b. rewrite Hc.
  destruct (decide (0 ≤ a < nrows)) as [Ha|Ha].
  - rewrite bool_decide_eq_true_2; [done|]. apply elem_of_seqZ. lia.
  - rewrite (Hnone' a b Ha). by destruct (bool_decide _).
Qed.

(** *** The generated match *)

Lemma createNewGame_Ret_inv nrows ncols nmines picks now s :
  createNewGame nrows ncols nmines picks now = Ret s →
  ∃ g1, placeMines picks nmines 0 (initGrid nrows ncols) = (Ret tt, g1) ∧
        calcNeighbors nrows ncols g1 = (Ret tt, grid s).
Proof.
  unfold createNewGame.
  destruct (bind _ _ _) as [[[]| |] g] eqn:Hrun; [|done..].
  intros [= <-]. simpl.
  apply bind_Ret_inv in Hrun as ([] & g1 & H1 & H2). eauto.
Qed.

(** What holds of every match that [createNewGame] returns. *)
Lemma createNewGame_sound nrows ncols nmines picks now s :
  0 ≤ nrows → 0 ≤ ncols → 0 ≤ nmines →
  createNewGame nrows ncols nmines picks now = Ret s →
  ShapeOf s ∧ CountsCorrect (grid s) ∧ AllHidden (grid s) ∧
  Z.of_nat (countGrid isMine (grid s)) = nmines.
Proof.
  intros Hr Hc Hn Hrun.
  destruct (createNewGame_fields _ _ _ _ _ _ Hrun) as (Hrows & Hcols & _).
  apply createNewGame_Ret_inv in Hrun as (g1 & Hplace & Hcalc).
  destruct (placeMines_partial nrows ncols _ _ _ _ _
              (Shape_initGrid _ _ Hr Hc) (AllHidden_initGrid _ _)
              (f_equal Z.of_nat (countGrid_initGrid nrows ncols)) Hn Hplace)
    as (Hs1 & Hh1 & Hn1).
  destruct (calcNeighbors_spec _ _ _ Hs1) as ([] & g2 & Hcalc' & Hs2 & Hn2 & Hc2).
  rewrite Hcalc in Hcalc'. injection Hcalc' as <-.
  assert (Hmine : ∀ a b, isMineAt (grid s) a b = isMineAt g1 a b).
  { intros a b. unfold isMineAt. rewrite Hc2.
    destruct (getCell g1 a b); simpl; [apply counted_isMine|done]. }
  split; [unfold ShapeOf; by rewrite Hrows, Hcols|]. split; [|split].
  - intros i j Hsome Hm. rewrite (adjacentMines_ext _ g1 _ _ Hmine).
    rewrite Hmine in Hm. rewrite Hc2 in Hsome.
    unfold neighborMinesAt, isMineAt in *. rewrite Hc2.
    destruct (getCell g1 i j) as [x|]; simpl in *.
    + unfold counted. by rewrite Hm.
    + by destruct Hsome.
  - intros i j y. rewrite Hc2.
    destruct (getCell g1 i j) as [x|] eqn:Hx; simpl; [|done].
    intros [= <-]. destruct (Hh1 _ _ _ Hx) as [Hrev Hflag].
    unfold counted. by destruct (isMine x).
  - by rewrite Hn2.
Qed.

(** [createNewGame] returns when the picks are cells of the grid and
    [nmines] of them at least are distinct. *)
Lemma createNewGame_returns nrows ncols nmines picks now :
  0 ≤ nrows → 0 ≤ ncols →
  picksInRange nrows ncols picks →
  nmines ≤ Z.of_nat (length (remove_dups picks)) →
  ∃ s, createNewGame nrows ncols nmines picks now = Ret s.
Proof.
  intros Hr Hc Hrange Henough.
  pose proof (Shape_initGrid _ _ Hr Hc) as Hs0.
  destruct (placeMines_total nrows ncols nmines picks 0 _ Hs0 Hrange) as [g1 H1].
  { assert (length (remove_dups picks) ≤
            length (freshPicks (initGrid nrows ncols) picks))%nat; [|lia].
    apply submseteq_length, NoDup_submseteq; [apply NoDup_remove_dups|].
    intros p. unfold freshPicks.
    rewrite !elem_of_remove_dups, list_elem_of_filter. intros Hp.
    split; [|done]. unfold isMineAt. rewrite getCell_initGrid.
    by destruct (inBounds _ _ _ _). }
  assert (Shape nrows ncols g1) as Hs1.
  { destruct (decide (0 < nmines)) as [Hpos|Hpos].
    - eapply (placeMines_partial nrows ncols nmines picks 0);
        [done|apply AllHidden_initGrid| |lia|done].
      by rewrite countGrid_initGrid.
    - rewrite placeMines_done in H1 by lia. by injection H1 as <-. }
  destruct (calcNeighbors_spec _ _ _ Hs1) as ([] & g2 & H2 & _).
  eexists. unfold createNewGame.
  rewrite (bind_Ret _ _ _ _ _ H1), H2. done.
Qed.

(** C7. For [rows], [cols] > 0 and 0 <= [mines] < [rows * cols], every
    match that [createNewGame] returns has a grid of [rows] by [cols]
    cells of which exactly [mines] are mines; each safe cell shows the
    number of mines among its up to eight neighbours; no cell is revealed
    or flagged; the match is being played, has no end time, and its time
    limit is 300 for 16 by 16, 600 for 16 by 30 and 120 otherwise.  The
    function returns as soon as the random picks, all cells of the grid,
    hold [mines] distinct cells. *)
Theorem board_generation nrows ncols nmines picks now :
  validSize nrows ncols nmines →
  (∀ s, createNewGame nrows ncols nmines picks now = Ret s →
     Z.of_nat (countGrid isMine (grid s)) = nmines ∧
     CountsCorrect (grid s) ∧ ShapeOf s ∧ AllHidden (grid s) ∧
     rows s = nrows ∧ cols s = ncols ∧ mines s = nmines ∧
     status s = Playing ∧ startTime s = Some now ∧ endTime s = None ∧
     timeLimit s =
       (if decide (nrows = 16 ∧ ncols = 16) then 300
        else if decide (nrows = 16 ∧ ncols = 30) then 600 else 120)) ∧
  (picksInRange nrows ncols picks →
   nmines ≤ Z.of_nat (length (remove_dups picks)) →
   ∃ s, createNewGame nrows ncols nmines picks now = Ret s).
Proof.
  intros (Hr & Hc & Hn & Hlt). split.
  - intros s Hrun.
    assert (0 ≤ nrows) as Hr' by lia. assert (0 ≤ ncols) as Hc' by lia.
    destruct (createNewGame_sound _ _ _ _ _ _ Hr' Hc' Hn Hrun)
      as (Hshape & Hcounts & Hhid & Hmines).
    destruct (createNewGame_fields _ _ _ _ _ _ Hrun)
      as (Hrows & Hcols & Hm & Hst & Hstart & Hend & Hlimit).
    repeat (split; [done|]). rewrite Hlimit. unfold timeLimitFor.
    destruct (Z.eqb_spec nrows 16), (Z.eqb_spec ncols 16), (Z.eqb_spec ncols 30);
      simpl; repeat case_decide; try done; lia.
  - intros Hrange Henough. apply createNewGame_returns; [lia|lia|done..].
Qed.

Lemma board_generation_witness :
  (∃ s, createNewGame 2 3 2 [(0, 0); (0, 0); (1, 2)] 1000 = Ret s) ∧
  Z.of_nat (countGrid isMine (grid board2x3)) = 2 ∧
  CountsCorrect (grid board2x3) ∧ timeLimit board2x3 = 120.
Proof.
  assert (validSize 2 3 2) as Hv by (unfold validSize; lia).
  pose proof (board_generation 2 3 2 [(0, 0); (0, 0); (1, 2)] 1000 Hv)
    as [Hsound Hreturns].
  destruct (Hsound board2x3 eq_refl)
    as (Hn & Hc & _ & _ & _ & _ & _ & _ & _ & _ & Hl).
  split; [|split; [exact Hn|split; [exact Hc|exact Hl]]].
  apply Hreturns.
  - intros p Hp.
    repeat (apply elem_of_cons in Hp as [-> | Hp]; [reflexivity|]).
    by apply elem_of_nil in Hp.
  - vm_compute. discriminate.
Defined.

(** ** The invariant holds of every reachable state *)

Lemma countRow_all P (row : list Cell) :
  Forall (λ x, P x = true) row → countRow P row = length row.
Proof. induction 1 as [|x row Hx _ IH]; simpl; [done|]. by rewrite Hx, IH. Qed.

Lemma countGrid_all P g :
  (∀ i j x, getCell g i j = Some x → P x = true) →
  countGrid P g = cellCount g.
Proof.
  unfold cellCount. induction g as [|row g IH]; intros H; simpl; [done|].
  rewrite length_app, IH, countRow_all; [done| |].
  - apply Forall_lookup. intros k x Hk. apply (H 0 (Z.of_nat k)).
    apply getCell_Some. split; [lia|]. split; [lia|].
    exists row. by rewrite Nat2Z.id.
  - intros i j x Hx. apply getCell_Some in Hx as (Hi & Hj & row' & Hrow' & Hx).
    apply (H (i + 1) j). apply getCell_Some. split; [lia|]. split; [done|].
    exists row'. split; [|done].
    replace (Z.to_nat (i + 1)) with (S (Z.to_nat i)) by lia. done.
Qed.

Lemma cellCount_Shape nrows ncols g :
  Shape nrows ncols g → Z.of_nat (cellCount g) = nrows * ncols.
Proof.
  intros [<- Hrows]. unfold cellCount.
  induction Hrows as [|row g Hrow _ IH]; simpl; [lia|].
  rewrite length_app. lia.
Qed.

Lemma GoodState_new nrows ncols nmines picks now s :
  validSize nrows ncols nmines →
  createNewGame nrows ncols nmines picks now = Ret s → GoodState s.
Proof.
  intros (Hr & Hc & Hn & Hlt) Hrun.
  assert (0 ≤ nrows) as Hr' by lia. assert (0 ≤ ncols) as Hc' by lia.
  destruct (createNewGame_sound _ _ _ _ _ _ Hr' Hc' Hn Hrun)
    as (Hshape & Hcounts & Hhid & Hmines).
  destruct (createNewGame_fields _ _ _ _ _ _ Hrun)
    as (Hrows & Hcols & _ & Hst & _).
  assert (Hunrev : ∀ i j, isRevealedAt (grid s) i j = false).
  { intros i j. unfold isRevealedAt.
    destruct (getCell (grid s) i j) as [x|] eqn:Hx; [|done].
    by destruct (Hhid _ _ _ Hx). }
  split; [done|]. split; [done|]. split; [intros Hw; congruence|].
  split; [|split].
  - intros _ H0.
    assert (countGrid isMine (grid s) = cellCount (grid s)) as Hall.
    { apply countGrid_all. intros i j x Hx.
      pose proof (proj1 (countGrid_zero _ _) H0 _ _ _ Hx) as Hu.
      destruct (Hhid _ _ _ Hx) as [Hrev _].
      unfold unrevealedSafe in Hu. rewrite Hrev in Hu.
      by destruct (isMine x). }
    pose proof (cellCount_Shape _ _ _ Hshape) as Hcc.
    rewrite Hrows, Hcols in Hcc. lia.
  - intros _ i j _. apply Hunrev.
  - intros i j Hrev. by rewrite Hunrev in Hrev.
Qed.

Lemma GoodState_lost t s : GoodState s → GoodState (lostAt t s).
Proof.
  intros (Hshape & Hcounts & Hwin & Hplay & Hmines & Hboth).
  assert (Hle : grid_le (grid s) (forEachCell revealMine (grid s))).
  { apply grid_le_forEachCell, cell_le_revealMine. }
  split; [by apply Shape_forEachCell|]. split; [by eapply grid_le_CountsCorrect|].
  split; [intros Hw; simpl in Hw; congruence|].
  split; [intros Hp; simpl in Hp; congruence|].
  split; [intros Hl; simpl in Hl; congruence|].
  intros i j. simpl.
  rewrite isRevealedAt_revealMines, isFlaggedAt_revealMines, isMineAt_revealMines.
  destruct (isMineAt (grid s) i j) eqn:Hm; [done|]. simpl.
  intros Hr Hf. by rewrite (Hboth _ _ Hr Hf) in Hm.
Qed.

Lemma GoodState_flag i j s x :
  status s = Playing → getCell (grid s) i j = Some x → isRevealed x = false →
  GoodState s → GoodState (withGrid (updCell toggleFlagged i j (grid s)) s).
Proof.
  intros Hst Hx Hrev (Hshape & Hcounts & Hwin & Hplay & Hmines & Hboth).
  destruct (getCell_nonneg _ _ _ _ Hx) as [Hi Hj].
  set (g' := updCell toggleFlagged i j (grid s)).
  assert (Hcell : ∀ a b, getCell g' a b =
            if decide (a = i ∧ b = j) then Some (toggleFlagged x)
            else getCell (grid s) a b).
  { intros a b. unfold g'. rewrite getCell_updCell by done.
    case_decide; [by rewrite Hx|done]. }
  assert (Hm : ∀ a b, isMineAt g' a b = isMineAt (grid s) a b).
  { intros a b. unfold isMineAt. rewrite Hcell.
    case_decide as Hab; [|done]. destruct Hab as [-> ->]. by rewrite Hx. }
  assert (Hr : ∀ a b, isRevealedAt g' a b = isRevealedAt (grid s) a b).
  { intros a b. unfold isRevealedAt. rewrite Hcell.
    case_decide as Hab; [|done]. destruct Hab as [-> ->]. by rewrite Hx. }
  split; [by apply Shape_updCell|]. split; [|split; [|split; [|split]]].
  - eapply CountsCorrect_transfer; [| | |done]; simpl.
    + intros a b. fold g'. rewrite Hcell.
      case_decide as Hab; [|done]. destruct Hab as [-> ->]. rewrite Hx.
      split; eauto.
    + done.
    + intros a b. fold g'. unfold neighborMinesAt. rewrite Hcell.
      case_decide as Hab; [|done]. destruct Hab as [-> ->]. by rewrite Hx.
  - intros Hw. simpl in Hw. congruence.
  - intros _. simpl. fold g'.
    pose proof (countGrid_updCell unrevealedSafe toggleFlagged _ _ _ _ Hx) as H.
    unfold unrevealedSafe in H at 2 4. simpl in H. fold g' in H.
    specialize (Hplay Hst). destruct (negb (isMine x) && negb (isRevealed x)); lia.
  - intros Hl a b. simpl. fold g'. rewrite Hm, Hr. by apply Hmines.
  - intros a b. simpl. fold g'. rewrite Hm, Hr. intros Hrab Hfab.
    destruct (decide (a = i ∧ b = j)) as [[-> ->]|Hne].
    + unfold isRevealedAt in Hrab. rewrite Hx in Hrab. congruence.
    + apply Hboth; [done|]. unfold isFlaggedAt in *. rewrite Hcell in Hfab.
      by rewrite decide_False in Hfab.
Qed.

(** The four ways a click on a rectangular grid can go. *)
Lemma click_cases now s i j :
  ShapeOf s →
  click now i j s = (Ret tt, s) ∨
  click now i j s = (Throw, s) ∨
  (∃ x, status s = Playing ∧ getCell (grid s) i j = Some x ∧
        openAt (grid s) i j = true ∧ isMine x = true ∧
        click now i j s = (Ret tt, lostAt now s)) ∨
  (∃ x s', status s = Playing ∧ getCell (grid s) i j = Some x ∧
           openAt (grid s) i j = true ∧ isMine x = false ∧
           click now i j s = (Ret tt, s') ∧ RevealPost now s i j s').
Proof.
  intros Hshape.
  destruct (decide (status s = Playing)) as [Hs|Hs].
  2:{ left. by apply click_not_playing. }
  destruct (getCell (grid s) i j) as [x|] eqn:Hx.
  2:{ right. left. by apply click_out_of_range. }
  destruct (isRevealed x || isFlagged x) eqn:Hb.
  { left. by eapply click_blocked. }
  apply orb_false_iff in Hb as [Hr Hf].
  assert (Ho : openAt (grid s) i j = true).
  { unfold openAt. by rewrite Hx, Hr, Hf. }
  do 2 right. destruct (isMine x) eqn:Hm.
  - left. exists x. repeat (split; [done|]). by apply (click_mine _ _ _ _ x).
  - right. assert (Hin : inBounds (rows s) (cols s) i j = true).
    { apply (Shape_getCell _ _ _ _ _ Hshape). eauto. }
    destruct (click_spec now s i j Hshape Hin) as ([] & s' & Hrun & Hpost).
    exists x, s'. done.
Qed.

Lemma GoodState_reveal now s i j s' x :
  status s = Playing → getCell (grid s) i j = Some x →
  openAt (grid s) i j = true → isMine x = false →
  RevealPost now s i j s' → GoodState s → GoodState s'.
Proof.
  intros Hs Hx Ho Hm Hpost (Hshape & Hcounts & Hwin & Hplay & Hmines & Hboth).
  assert (HmAt : isMineAt (grid s) i j = false).
  { unfold isMineAt. by rewrite Hx. }
  destruct Hpost as ([Hext _] & _ & Hwin' & Hiff & Hcons).
  pose proof (CountsCorrect_NoAdjMine _ Hcounts) as Hnam.
  destruct Hcons as (Hnl & _ & Hsound); [done|done|congruence|done|].
  destruct (Hiff Hs Ho HmAt) as [Hwon _].
  pose proof (proj1 Hext) as Hle.
  assert (Hold : ∀ a b, isMineAt (grid s) a b = true →
            isRevealedAt (grid s') a b = false).
  { intros a b Hmab. destruct (isRevealedAt (grid s') a b) eqn:Hr'; [|done].
    assert (isRevealedAt (grid s) a b = false) as Hh.
    { apply Hmines; [congruence|done]. }
    specialize (Hsound a b Hh Hr').
    by rewrite (Reach_safe _ _ _ _ _ Hnam HmAt Hsound) in Hmab. }
  split; [by eapply Ext_ShapeOf|]. split; [by eapply grid_le_CountsCorrect|].
  split; [auto|]. split; [|split].
  - intros Hp H0. apply Hwon in H0. congruence.
  - intros _ a b. rewrite (grid_le_isMineAt _ _ _ _ Hle). apply Hold.
  - intros a b Hr' Hf'.
    rewrite (grid_le_isMineAt _ _ _ _ Hle).
    rewrite (grid_le_isFlaggedAt _ _ _ _ Hle) in Hf'.
    destruct (isRevealedAt (grid s) a b) eqn:Hr; [by apply Hboth|].
    specialize (Hsound a b Hr Hr').
    destruct (openAt_hidden _ _ _ (Reach_open _ _ _ _ _ Hsound)). congruence.
Qed.

Lemma flagCell_cases i j s :
  flagCell i j s = (Ret tt, s) ∨ flagCell i j s = (Throw, s) ∨
  (∃ x, status s = Playing ∧ getCell (grid s) i j = Some x ∧
        isRevealed x = false ∧
        flagCell i j s =
          (Ret tt, withGrid (updCell toggleFlagged i j (grid s)) s)).
Proof.
  destruct (decide (status s = Playing)) as [Hs|Hs].
  2:{ left. by apply flagCell_not_playing. }
  destruct (getCell (grid s) i j) as [x|] eqn:Hx.
  2:{ right. left. by apply flagCell_out_of_range. }
  destruct (isRevealed x) eqn:Hr.
  - left. by eapply flagCell_revealed.
  - do 2 right. exists x. repeat (split; [done|]). by eapply flagCell_hidden.
Qed.

Lemma checkTimeout_cases now s :
  checkTimeout now s = (Ret false, s) ∨
  (status s = Playing ∧ checkTimeout now s = (Ret true, lostAt now s)).
Proof.
  destruct (decide (status s = Playing)) as [Hs|Hs].
  2:{ left. apply checkTimeout_idle. auto. }
  destruct (startTimeUnset s) eqn:Hu.
  { left. apply checkTimeout_idle. auto. }
  rewrite (checkTimeout_running _ _ Hs Hu). case_decide; auto.
Qed.

Lemma GoodState_after now a s : GoodState s → GoodState (after now a s).
Proof.
  intros Hgood. pose proof Hgood as (Hshape & _).
  unfold after. destruct a as [i j|i j|]; simpl.
  - destruct (click_cases now s i j Hshape)
      as [-> | [-> | [(x & _ & _ & _ & _ & ->) | (x & s' & Hs & Hx & Ho & Hm & -> & Hp)]]];
      simpl; [done|done|by apply GoodState_lost|by eapply GoodState_reveal].
  - destruct (flagCell_cases i j s) as [-> | [-> | (x & Hs & Hx & Hr & ->)]];
      simpl; [done|done|by eapply GoodState_flag].
  - unfold bind. destruct (checkTimeout_cases now s) as [-> | [_ ->]];
      simpl; [done|by apply GoodState_lost].
Qed.

Lemma Reachable_GoodState s : Reachable s → GoodState s.
Proof.
  induction 1 as [nrows ncols nmines picks now s Hv Hrun|now a s _ IH].
  - by eapply GoodState_new.
  - by apply GoodState_after.
Qed.

Lemma Reachable_board2x3 : Reachable board2x3.
Proof.
  by apply (Reachable_new 2 3 2 [(0, 0); (0, 0); (1, 2)] 1000);
    [unfold validSize; lia|].
Qed.

Lemma Reachable_board1x3 : Reachable board1x3.
Proof.
  by apply (Reachable_new 1 3 2 [(0, 0); (0, 1)] 1000);
    [unfold validSize; lia|].
Qed.

(** ** Revealed and flagged *)

Lemma click_keeps_flags now s i j a b :
  ShapeOf s →
  isFlaggedAt (grid (after now (Click i j) s)) a b = isFlaggedAt (grid s) a b.
Proof.
  intros Hshape. unfold after. simpl.
  destruct (click_cases now s i j Hshape)
    as [-> | [-> | [(x & _ & _ & _ & _ & ->) | (x & s' & _ & _ & _ & _ & -> & Hp)]]];
    simpl; [done|done|apply isFlaggedAt_revealMines|].
  destruct Hp as ([[Hle _] _] & _). by apply grid_le_isFlaggedAt.
Qed.

Lemma tick_keeps_flags now s a b :
  isFlaggedAt (grid (after now Tick s)) a b = isFlaggedAt (grid s) a b.
Proof.
  unfold after. simpl. unfold bind.
  destruct (checkTimeout_cases now s) as [-> | [_ ->]]; simpl; [done|].
  apply isFlaggedAt_revealMines.
Qed.

(** C4, as the code has it.  In every reachable state, a cell that is
    both revealed and flagged is a mine, and the match is lost: no safe
    cell is ever revealed and flagged at once, and no cell is while the
    match is being played or is won.  A flag on a revealed cell does
    nothing, and a click on a flagged cell does nothing.  No click and no
    timeout check changes a flag: the mines revealed when the match is
    lost keep the flags they have. *)
Theorem revealed_and_flagged s :
  Reachable s →
  (∀ i j, isRevealedAt (grid s) i j = true → isFlaggedAt (grid s) i j = true →
          isMineAt (grid s) i j = true ∧ status s = Lost) ∧
  (∀ i j x, status s = Playing → getCell (grid s) i j = Some x →
            isRevealed x = true → flagCell i j s = (Ret tt, s)) ∧
  (∀ now i j x, getCell (grid s) i j = Some x → isFlagged x = true →
                click now i j s = (Ret tt, s)) ∧
  (∀ now i j a b,
     isFlaggedAt (grid (after now (Click i j) s)) a b = isFlaggedAt (grid s) a b) ∧
  (∀ now a b,
     isFlaggedAt (grid (after now Tick s)) a b = isFlaggedAt (grid s) a b).
Proof.
  intros Hreach.
  destruct (Reachable_GoodState _ Hreach) as (Hshape & _ & _ & _ & Hmines & Hboth).
  split; [|split; [|split; [|split]]].
  - intros i j Hr Hf. pose proof (Hboth _ _ Hr Hf) as Hm. split; [done|].
    destruct (decide (status s = Lost)) as [|Hnl]; [done|].
    specialize (Hmines Hnl _ _ Hm). congruence.
  - intros i j x Hs Hx Hr. by eapply flagCell_revealed.
  - intros now i j x Hx Hf.
    destruct (decide (status s = Playing)) as [Hs|Hs].
    + eapply click_blocked; [done..|]. by rewrite Hf, orb_true_r.
    + by apply click_not_playing.
  - intros now i j a b. by apply click_keeps_flags.
  - intros now a b. apply tick_keeps_flags.
Qed.

Lemma revealed_and_flagged_witness :
  let s := runAll [(2000, Flag 0 0); (3000, Click 0 1)] board1x3 in
  isMineAt (grid s) 0 0 = true ∧ status s = Lost.
Proof.
  apply (proj1 (revealed_and_flagged
                  (runAll [(2000, Flag 0 0); (3000, Click 0 1)] board1x3)
                  (Reachable_runAll _ _ Reachable_board1x3)) 0 0);
    reflexivity.
Defined.

(** The claim C4 fails when the match is lost: on the row of three cells
    with mines on the first two, flag the first and click the second.  The
    first cell is then revealed and still flagged.  The same happens when
    the clock, not a mine, ends the match. *)
Lemma flagged_mine_revealed_on_loss :
  let s := runAll [(2000, Flag 0 0); (3000, Click 0 1)] board1x3 in
  let s' := runAll [(2000, Flag 0 0); (200000, Tick)] board1x3 in
  Reachable s ∧
  isRevealedAt (grid s) 0 0 = true ∧ isFlaggedAt (grid s) 0 0 = true ∧
  Reachable s' ∧
  isRevealedAt (grid s') 0 0 = true ∧ isFlaggedAt (grid s') 0 0 = true.
Proof.
  intros s s'.
  split; [apply Reachable_runAll, Reachable_board1x3|].
  split; [reflexivity|]. split; [reflexivity|].
  split; [apply Reachable_runAll, Reachable_board1x3|].
  split; reflexivity.
Qed.

(** ** Winning *)

Lemma unrevealedSafeCells_zero g :
  unrevealedSafeCells g = 0 ↔
  ∀ a b y, getCell g a b = Some y → isMine y = true ∨ isRevealed y = true.
Proof.
  rewrite unrevealedSafeCells_countGrid.
  assert (Z.of_nat (countGrid unrevealedSafe g) = 0 ↔
          countGrid unrevealedSafe g = 0%nat) as -> by lia.
  rewrite countGrid_zero. unfold unrevealedSafe.
  split; intros H a b y Hy; specialize (H a b y Hy);
    destruct (isMine y), (isRevealed y); simpl in *; auto;
    destruct H; done.
Qed.

(** ** The engine of the stand-alone page *)

Global Instance DrainStep_preorder : PreOrder DrainStep.
Proof.
  split.
  - intros st. split; [done|auto].
  - intros st1 st2 st3 [H12 Q12] [H23 Q23]. split; [by etrans|auto].
Qed.

Lemma Settled_stable g0 a b st st' :
  Settled g0 a b st → DrainStep st st' → Settled g0 a b st'.
Proof.
  intros H [Hle _] Hsome. specialize (H Hsome).
  destruct (isRevealedAt st.1 a b) eqn:Hr.
  - by rewrite (grid_le_isRevealedAt _ _ _ _ Hle Hr).
  - simpl in H. rewrite <- orb_assoc, H. apply orb_true_r.
Qed.

Lemma unrevealed_countGrid g :
  App.unrevealed g = Z.of_nat (countGrid unrevealedSafe g).
Proof.
  unfold App.unrevealed. f_equal.
  induction g as [|row g IH]; simpl; [done|].
  rewrite filter_app, length_app, IH. f_equal.
  induction row as [|x row IHrow]; simpl; [done|].
  destruct (unrevealedSafe x) eqn:Hx.
  - rewrite filter_cons_True by done. simpl. by rewrite IHrow.
  - rewrite filter_cons_False by congruence. done.
Qed.

Lemma visit_spec nrows ncols g0 i0 j0 cr cc bound st a b :
  adjacent cr cc a b →
  DrainInv nrows ncols g0 i0 j0 (Some (cr, cc)) bound st →
  post (App.visit nrows ncols a b) st
    (λ _ st', DrainStep st st' ∧
              DrainInv nrows ncols g0 i0 j0 (Some (cr, cc)) bound st' ∧
              Settled g0 a b st').
Proof.
  intros Hadj Hinv. pose proof Hinv as (Hshape & Hle & Hm & Hsound & Hq & Hcl).
  destruct st as [g q]. simpl in *. unfold App.visit, post. simpl.
  pose proof (Shape_getCell _ _ _ a b Hshape) as Hsome.
  destruct (inBounds nrows ncols a b) eqn:Hin.
  2:{ exists tt, (g, q). split; [done|]. split; [done|]. split; [done|].
      intros Hs0. simpl. apply (grid_le_is_Some _ _ _ _ Hle) in Hs0.
      apply Hsome in Hs0. done. }
  destruct (proj2 Hsome eq_refl) as [y Hy]. rewrite Hy.
  destruct (grid_le_getCell_r _ _ _ _ _ Hle Hy) as (y0 & Hy0 & Hyy).
  destruct Hyy as (_ & _ & Hmy & Hfy & Hny & _).
  destruct (isRevealed y) eqn:Hr; simpl.
  { exists tt, (g, q). split; [done|]. split; [done|]. split; [done|].
    intros _. simpl. unfold isRevealedAt. by rewrite Hy, Hr. }
  destruct (isFlagged y) eqn:Hf; simpl.
  { exists tt, (g, q). split; [done|]. split; [done|]. split; [done|].
    intros _. simpl. unfold isFlaggedAt. rewrite Hy0, <- Hfy.
    by rewrite orb_true_r. }
  destruct (isMine y) eqn:Hmine; simpl.
  { exists tt, (g, q). split; [done|]. split; [done|]. split; [done|].
    intros _. simpl. unfold isMineAt. rewrite Hy0, <- Hmy.
    by rewrite orb_true_r. }
  destruct (getCell_nonneg _ _ _ _ Hy) as [Ha Hb].
  set (g' := updCell setRevealed a b g).
  set (q' := if neighborMines y =? 0 then q ++ [(a, b)] else q).
  assert (Hqq : ∀ p, p ∈ q → p ∈ q').
  { intros p Hp. unfold q'. destruct (_ =? _); [|done].
    apply elem_of_app. by left. }
  assert (Hgg : grid_le g g') by apply grid_le_updCell, cell_le_setRevealed.
  assert (Hcur : Reach g0 i0 j0 cr cc ∧ isMineAt g0 cr cc = false ∧
                 neighborMinesAt g0 cr cc = 0).
  { destruct (Hq cr cc) as (?&?&?&_); auto. }
  destruct Hcur as (Hrc & Hmc & Hzc).
  assert (Hnew : Reach g0 i0 j0 a b ∧ isMineAt g0 a b = false).
  { split.
    - eapply Reach_step; [done..|]. unfold openAt. rewrite Hy0.
      destruct (isRevealed y0) eqn:Hr0.
      + assert (isRevealedAt g a b = true) as Hra.
        { eapply grid_le_isRevealedAt; [done|].
          unfold isRevealedAt. by rewrite Hy0. }
        unfold isRevealedAt in Hra. rewrite Hy in Hra. congruence.
      + by rewrite <- Hfy.
    - unfold isMineAt. by rewrite Hy0, <- Hmy. }
  assert (Hab : isRevealedAt g' a b = true) by by eapply isRevealedAt_updCell_eq.
  assert (Hother : ∀ u v, (u, v) ≠ (a, b) →
            isRevealedAt g' u v = isRevealedAt g u v).
  { intros u v Hne. by apply isRevealedAt_updCell_ne. }
  assert (Hmono : ∀ u v, isRevealedAt g u v = true → isRevealedAt g' u v = true).
  { intros u v. by apply grid_le_isRevealedAt. }
  exists tt, (g', q'). split; [done|]. split; [done|].
  split; [|intros _; simpl; by rewrite Hab].
  split; [by apply Shape_updCell|]. split; [by etrans|]. simpl.
  split; [|split; [|split]].
  - pose proof (hidden_updCell_setRevealed _ _ _ _ Hy Hr) as Hc. fold g' in Hc.
    assert (length q' ≤ S (length q))%nat; [|lia].
    unfold q'. destruct (_ =? _); [|lia]. rewrite length_app. simpl. lia.
  - intros u v Hh0 Hr'. destruct (decide ((u, v) = (a, b))) as [[= -> ->]|Hne];
      [done|]. apply Hsound; [done|]. by rewrite <- Hother.
  - intros u v Hin'.
    assert ((u, v) = (a, b) ∧ neighborMines y = 0 ∨
            ((u, v) ∈ q ∨ Some (cr, cc) = Some (u, v))) as [[[= -> ->] Hz]|Hold].
    { destruct Hin' as [Hin'|Hin']; [|by right; right].
      unfold q' in Hin'. destruct (Z.eqb_spec (neighborMines y) 0);
        [|by right; left].
      apply elem_of_app in Hin' as [Hin'|Hin']; [by right; left|].
      apply list_elem_of_singleton in Hin'. by left. }
    + destruct Hnew as [HR HM]. split; [done|]. split; [done|]. split; [|done].
      unfold neighborMinesAt. by rewrite Hy0, <- Hny.
    + destruct (Hq u v Hold) as (?&?&?&?). auto.
  - intros u v u' v' Hh0 Hr' Hz.
    destruct (decide ((u, v) = (a, b))) as [[= -> ->]|Hne].
    + left. unfold q'. unfold neighborMinesAt in Hz. rewrite Hy0, <- Hny in Hz.
      rewrite Hz. simpl. apply elem_of_app. right. by left.
    + rewrite Hother in Hr' by done.
      destruct (Hcl u v u' v' Hh0 Hr' Hz) as [Hin'|[Hc|Hn]]; [by left; auto|by right; left|].
      right. right. intros Hadj' Hs'. specialize (Hn Hadj' Hs').
      destruct (isRevealedAt g u' v') eqn:Hru.
      * by rewrite (Hmono _ _ Hru).
      * simpl in Hn. rewrite <- orb_assoc, Hn. apply orb_true_r.
Qed.

Lemma drainQueue_S fuel nrows ncols :
  App.drainQueue (S fuel) nrows ncols =
  (let* st := get in
   match st.2 with
   | [] => ret tt
   | (cr, cc) :: queue' =>
       let* _ := modify (λ st : Grid * list (Z * Z), (st.1, queue')) in
       let* _ :=
         forM offsets (λ dr, forM offsets (λ dc,
           App.visit nrows ncols (cr + dr) (cc + dc))) in
       App.drainQueue fuel nrows ncols
   end).
Proof. done. Qed.

Lemma DrainInv_bound nrows ncols g0 i0 j0 cur bound bound' st :
  (bound ≤ bound')%nat →
  DrainInv nrows ncols g0 i0 j0 cur bound st →
  DrainInv nrows ncols g0 i0 j0 cur bound' st.
Proof.
  intros Hb (H1 & H2 & H3 & H4). split; [done|]. split; [done|].
  split; [lia|done].
Qed.

(** The queue loop ends, with the queue empty, when the fuel exceeds the
    number of hidden cells plus the length of the queue. *)
Lemma drainQueue_spec nrows ncols g0 i0 j0 fuel bound st :
  (bound < fuel)%nat →
  DrainInv nrows ncols g0 i0 j0 None bound st →
  post (App.drainQueue fuel nrows ncols) st
    (λ _ st', DrainInv nrows ncols g0 i0 j0 None bound st' ∧
              grid_le st.1 st'.1 ∧ st'.2 = []).
Proof.
  revert bound st. induction fuel as [|fuel IH]; intros bound st Hb Hinv; [lia|].
  rewrite drainQueue_S. apply post_get.
  destruct st as [g q]. cbn [snd]. destruct q as [|[cr cc] q'].
  { by apply post_ret. }
  apply post_modify. cbn [fst].
  destruct Hinv as (Hshape & Hle & Hm & Hsound & Hq & Hcl).
  cbn [fst snd length] in Hshape, Hle, Hm, Hsound, Hq, Hcl.
  assert (Hinv1 : DrainInv nrows ncols g0 i0 j0 (Some (cr, cc)) (bound - 1) (g, q')).
  { split; [done|]. split; [done|]. split; [simpl; lia|]. split; [done|].
    simpl. split.
    - intros a b Hab. apply Hq. left.
      destruct Hab as [Hab|[= <- <-]]; [by right|by left].
    - intros a b a' b' Hh Hr Hz.
      destruct (Hcl a b a' b' Hh Hr Hz) as [Hin|[Hc|Hn]]; [|done|by right; right].
      apply elem_of_cons in Hin as [[= -> ->]|Hin]; [by right; left|by left]. }
  apply post_bind.
  eapply post_mono.
  { apply (post_forM DrainStep
             (DrainInv nrows ncols g0 i0 j0 (Some (cr, cc)) (bound - 1))
             (λ dr st, ∀ dc, dc ∈ offsets → Settled g0 (cr + dr) (cc + dc) st));
      [| |done].
    - intros dr st st' HQ Hstep dc Hdc. eapply Settled_stable; eauto.
    - intros dr st Hdr Hst.
      apply (post_forM DrainStep
               (DrainInv nrows ncols g0 i0 j0 (Some (cr, cc)) (bound - 1))
               (λ dc st, Settled g0 (cr + dr) (cc + dc) st)); [| |done].
      + intros dc st1 st2 HQ Hstep. eapply Settled_stable; eauto.
      + intros dc st1 Hdc Hst1. apply visit_spec; [|done].
        apply adjacent_offsets. eauto 6. }
  intros [] st2 ([Hle2 _] & Hinv2 & Hset). cbn beta in *.
  eapply post_mono.
  { apply (IH (bound - 1)%nat); [lia|].
    destruct Hinv2 as (H1 & H2 & H3 & H4 & H5 & H6).
    split; [done|]. split; [done|]. split; [done|]. split; [done|]. split.
    - intros a b [Hab|Hab]; [|done]. apply H5. by left.
    - intros a b a' b' Hh Hr Hz.
      destruct (H6 a b a' b' Hh Hr Hz) as [Hin|[[= <- <-]|Hn]];
        [by left| |by right; right].
      right. right. intros Hadj Hsome.
      apply adjacent_offsets in Hadj as (dr & dc & Hdr & Hdc & -> & ->).
      by apply Hset. }
  intros [] st3 (Hinv3 & Hle3 & Hq3). cbn beta. split; [|split; [|done]].
  - eapply DrainInv_bound; [|done]. lia.
  - cbn [fst] in Hle2. by etrans.
Qed.

(** ** From soundness and closure to the region *)

Lemma fill_exact s i j s' :
  CountsCorrect (grid s) →
  openAt (grid s) i j = true → isMineAt (grid s) i j = false →
  neighborMinesAt (grid s) i j = 0 →
  grid_le (grid s) (grid s') →
  Sound (grid s) i j (grid s') → Closed (grid s) (grid s') →
  isRevealedAt (grid s') i j = true →
  FillsRegion s i j s'.
Proof.
  intros Hc Ho Hm Hz Hle Hsound Hcl H0.
  pose proof (CountsCorrect_NoAdjMine _ Hc) as Hnam.
  split; [|split; [|split]].
  - intros a b. rewrite <- (Reach_Region_Border _ _ _ _ _ Hc Hm Hz). split.
    + intros Hr. destruct (isRevealedAt (grid s) a b) eqn:Hr0; [by left|].
      right. by apply Hsound.
    + intros [Hr|HR]; [by eapply grid_le_isRevealedAt|].
      by eapply Closed_complete.
  - intros a b. by apply grid_le_isFlaggedAt.
  - intros a b. by apply grid_le_isMineAt.
  - intros a b Hh Hr. specialize (Hsound a b Hh Hr). split.
    + by destruct (openAt_hidden _ _ _ (Reach_open _ _ _ _ _ Hsound)).
    + by eapply Reach_safe.
Qed.

Lemma WinChecked_intro now s' :
  (status s' = Won ↔ countGrid unrevealedSafe (grid s') = 0%nat) →
  (status s' = Won → endTime s' = Some now) →
  WinChecked now s'.
Proof.
  intros Hwon Hend.
  assert (status s' = Won ↔ unrevealedSafeCells (grid s') = 0) as H.
  { rewrite unrevealedSafeCells_countGrid, Hwon. lia. }
  split; [done|]. split; [|done]. by rewrite <- unrevealedSafeCells_zero.
Qed.

(** ** A click on the stand-alone page *)

Lemma DrainInv_start s i j x :
  ShapeOf s → getCell (grid s) i j = Some x →
  isRevealed x = false → isFlagged x = false → isMine x = false →
  neighborMines x = 0 →
  DrainInv (rows s) (cols s) (grid s) i j None (countGrid hidden (grid s))
    (updCell setRevealed i j (grid s), [(i, j)]).
Proof.
  intros Hshape Hx Hr Hf Hm Hz.
  destruct (getCell_nonneg _ _ _ _ Hx) as [Hi Hj].
  assert (Ho : openAt (grid s) i j = true).
  { unfold openAt. by rewrite Hx, Hr, Hf. }
  assert (HmAt : isMineAt (grid s) i j = false).
  { unfold isMineAt. by rewrite Hx. }
  assert (Hother : ∀ a b, (a, b) ≠ (i, j) →
            isRevealedAt (updCell setRevealed i j (grid s)) a b =
            isRevealedAt (grid s) a b).
  { intros a b Hne. by apply isRevealedAt_updCell_ne. }
  split; [by apply Shape_updCell|].
  split; [apply grid_le_updCell, cell_le_setRevealed|]. cbn [fst snd].
  split; [|split; [|split]].
  - pose proof (hidden_updCell_setRevealed _ _ _ _ Hx Hr) as Hc. simpl. lia.
  - intros a b Hh Hr'.
    destruct (decide ((a, b) = (i, j))) as [[= -> ->]|Hne].
    + split; [by apply Reach_start|done].
    + rewrite Hother in Hr' by done. congruence.
  - intros a b [Hin|Hin]; [|done].
    apply list_elem_of_singleton in Hin as [= -> ->].
    split; [by apply Reach_start|]. split; [done|]. split.
    + unfold neighborMinesAt. by rewrite Hx.
    + by eapply isRevealedAt_updCell_eq.
  - intros a b a' b' Hh Hr' Hz'.
    destruct (decide ((a, b) = (i, j))) as [[= -> ->]|Hne].
    + left. by left.
    + rewrite Hother in Hr' by done. congruence.
Qed.

Lemma App_click_safe now s i j x :
  ShapeOf s → status s = Playing → getCell (grid s) i j = Some x →
  isRevealed x = false → isFlagged x = false → isMine x = false →
  ∃ s', App.handleCellClick now i j s = Ret s' ∧ Ext s s' ∧
    (status s' = Won ↔ countGrid unrevealedSafe (grid s') = 0%nat) ∧
    (status s' = Won → endTime s' = Some now) ∧ status s' ≠ Lost ∧
    (∀ a b, isRevealedAt (grid s) a b = false →
            isRevealedAt (grid s') a b = true →
            Reach (grid s) i j a b ∧ isMineAt (grid s) a b = false) ∧
    isRevealedAt (grid s') i j = true ∧
    (NoAdjMine (grid s) → Closed (grid s) (grid s')).
Proof.
  intros Hshape Hs Hx Hr Hf Hm.
  destruct (getCell_nonneg _ _ _ _ Hx) as [Hi Hj].
  set (g0 := grid s). set (g1 := updCell setRevealed i j g0).
  assert (Ho : openAt g0 i j = true).
  { unfold openAt, g0. by rewrite Hx, Hr, Hf. }
  assert (HmAt : isMineAt g0 i j = false).
  { unfold isMineAt, g0. by rewrite Hx. }
  assert (Hle1 : grid_le g0 g1) by apply grid_le_updCell, cell_le_setRevealed.
  assert (Hr1 : isRevealedAt g1 i j = true) by by eapply isRevealedAt_updCell_eq.
  assert (Hother : ∀ a b, (a, b) ≠ (i, j) →
            isRevealedAt g1 a b = isRevealedAt g0 a b).
  { intros a b Hne. by apply isRevealedAt_updCell_ne. }
  assert (Hmid : ∃ g' q',
    (if neighborMines x =? 0
     then App.drainQueue (S (cellCount g0)) (rows s) (cols s)
     else ret tt) (g1, [(i, j)]) = (Ret tt, (g', q')) ∧
    grid_le g0 g' ∧ isRevealedAt g' i j = true ∧
    (∀ a b, isRevealedAt g0 a b = false → isRevealedAt g' a b = true →
            Reach g0 i j a b ∧ isMineAt g0 a b = false) ∧
    (NoAdjMine g0 → Closed g0 g')).
  { destruct (Z.eqb_spec (neighborMines x) 0) as [Hz|Hz].
    - destruct (drainQueue_spec (rows s) (cols s) g0 i j (S (cellCount g0))
                  (countGrid hidden g0) (g1, [(i, j)]))
        as ([] & [g' q'] & Hrun & Hinv & Hle1' & Hq').
      { pose proof (countGrid_le_cellCount hidden g0). lia. }
      { by apply (DrainInv_start s i j x). }
      cbn [fst snd] in Hq', Hle1'. subst q'.
      destruct Hinv as (_ & Hle & _ & Hsound & _ & Hcl). cbn [fst snd] in *.
      exists g', []. split; [done|]. split; [done|].
      split; [by eapply grid_le_isRevealedAt|]. split; [done|].
      intros Hnam a b a' b' Hh Hr' Hm' Hz' Hadj Hsome.
      rewrite (grid_le_isMineAt _ _ _ _ Hle) in Hm'.
      rewrite (grid_le_neighborMinesAt _ _ _ _ Hle) in Hz'.
      rewrite (grid_le_is_Some _ _ _ _ Hle) in Hsome.
      rewrite (grid_le_isFlaggedAt _ _ _ _ Hle).
      destruct (Hcl a b a' b' Hh Hr' Hz') as [Hin|[Hc|Hn]];
        [by apply elem_of_nil in Hin|done|].
      specialize (Hn Hadj Hsome).
      assert (isMineAt g0 a' b' = false) as Hsafe.
      { eapply Hnam; [|done..]. unfold isRevealedAt in Hr'.
        apply (grid_le_is_Some _ _ _ _ Hle).
        destruct (getCell g' a b); [eauto|done]. }
      by rewrite Hsafe, orb_false_r in Hn.
    - exists g1, [(i, j)]. split; [done|]. split; [done|]. split; [done|]. split.
      + intros a b Hh Hr'.
        destruct (decide ((a, b) = (i, j))) as [[= -> ->]|Hne].
        * split; [by apply Reach_start|done].
        * rewrite Hother in Hr' by done. congruence.
      + intros _ a b a' b' Hh Hr' Hm' Hz'.
        destruct (decide ((a, b) = (i, j))) as [[= -> ->]|Hne].
        * rewrite (grid_le_neighborMinesAt _ _ _ _ Hle1) in Hz'.
          unfold neighborMinesAt, g0 in Hz'. rewrite Hx in Hz'. done.
        * rewrite Hother in Hr' by done. congruence. }
  destruct Hmid as (g' & q' & Hrun & Hle & Hrev & Hsound & Hcl).
  unfold App.handleCellClick, App.revealCell, isPlaying.
  rewrite bool_decide_eq_true_2 by done. cbn [negb].
  rewrite Hx, Hr, Hf, Hm. cbn [orb]. fold g0 g1. rewrite Hrun.
  rewrite unrevealed_countGrid.
  destruct (Z.eqb_spec (Z.of_nat (countGrid unrevealedSafe g')) 0) as [H0|H0].
  - eexists. split; [done|]. cbn [grid status endTime].
    split; [by repeat split|]. split; [split; [lia|done]|].
    split; [done|]. split; [done|]. done.
  - eexists. split; [done|]. cbn [grid withGrid status endTime].
    split; [by repeat split|]. rewrite Hs.
    split; [split; [done|lia]|]. split; [done|]. split; [done|]. done.
Qed.

(** More fuel does not change the result of a queue loop that ended. *)
Lemma drainQueue_fuel_mono fuel fuel' nrows ncols st st' :
  (fuel ≤ fuel')%nat →
  App.drainQueue fuel nrows ncols st = (Ret tt, st') →
  App.drainQueue fuel' nrows ncols st = (Ret tt, st').
Proof.
  revert fuel' st. induction fuel as [|fuel IH]; intros fuel' st Hle H; [done|].
  destruct fuel' as [|fuel']; [lia|].
  rewrite drainQueue_S in H. rewrite drainQueue_S.
  apply bind_Ret_inv in H as (st0 & st0' & Hget & H).
  rewrite (bind_Ret _ _ _ _ _ Hget). clear Hget.
  destruct (st0.2) as [|[cr cc] q']; [done|].
  apply bind_Ret_inv in H as ([] & st1 & Hmod & H).
  rewrite (bind_Ret _ _ _ _ _ Hmod). clear Hmod.
  apply bind_Ret_inv in H as ([] & st2 & Hloop & H).
  rewrite (bind_Ret _ _ _ _ _ Hloop). apply IH; [lia|done].
Qed.

(** Every fuel above the number of hidden cells gives the result of the
    click handler of the page, which is never [Diverge]. *)
Lemma App_revealCell_fuel_enough now fuel i j s :
  ShapeOf s → (countGrid hidden (grid s) < fuel)%nat →
  App.revealCell fuel now i j s =
  App.revealCell (S (cellCount (grid s))) now i j s ∧
  App.handleCellClick now i j s ≠ Diverge.
Proof.
  intros Hshape Hfuel.
  assert (Hgoal : App.revealCell fuel now i j s =
                  App.revealCell (S (cellCount (grid s))) now i j s ∧
                  App.revealCell (S (cellCount (grid s))) now i j s ≠ Diverge).
  { unfold App.revealCell.
    destruct (negb (isPlaying s)); [done|].
    destruct (getCell (grid s) i j) as [x|] eqn:Hx; [|done].
    destruct (isRevealed x || isFlagged x) eqn:Hb; [done|].
    apply orb_false_iff in Hb as [Hr Hf].
    destruct (isMine x) eqn:Hm; [done|].
    destruct (Z.eqb_spec (neighborMines x) 0) as [Hz|Hz].
    2:{ unfold ret. split; [done|]. by destruct (_ =? _). }
    destruct (drainQueue_spec (rows s) (cols s) (grid s) i j
                (S (countGrid hidden (grid s))) (countGrid hidden (grid s))
                (updCell setRevealed i j (grid s), [(i, j)]))
      as ([] & [g' q'] & Hrun & _); [lia|by apply (DrainInv_start s i j x)|].
    pose proof (hidden_lt_click_fuel s) as Hc.
    rewrite (drainQueue_fuel_mono _ fuel _ _ _ _ Hfuel Hrun).
    rewrite (drainQueue_fuel_mono _ (S (cellCount (grid s))) _ _ _ _ Hc Hrun).
    split; [done|]. by destruct (_ =? _). }
  split; [apply Hgoal|]. unfold App.handleCellClick.
  destruct (negb (isPlaying s)); [done|apply Hgoal].
Qed.

Lemma App_click_blocked now s i j x :
  status s = Playing → getCell (grid s) i j = Some x →
  isRevealed x || isFlagged x = true →
  App.handleCellClick now i j s = Ret s.
Proof.
  intros Hs Hx Hb. unfold App.handleCellClick, App.revealCell, isPlaying.
  rewrite bool_decide_eq_true_2 by done. cbn [negb]. by rewrite Hx, Hb.
Qed.

(** * The reveal, on the server and on the page *)

(** C1. In a match that is being played, a click on a safe cell that is
    neither revealed nor flagged returns, on the server and on the
    stand-alone page alike, and the match is won exactly when the number
    of cells that are neither mines nor revealed is then zero, that is
    when every cell is a mine or revealed; the end time is then set.  From
    a reachable state, the same holds of every click that does not hit a
    mine, whatever its coordinates.  On the board of one cell and no mine,
    the click on (0, 0) wins the match. *)
Theorem win_detection :
  (∀ now s i j x,
     ShapeOf s → status s = Playing → getCell (grid s) i j = Some x →
     isRevealed x = false → isFlagged x = false → isMine x = false →
     (∃ s', click now i j s = (Ret tt, s') ∧ WinChecked now s') ∧
     (∃ s', App.handleCellClick now i j s = Ret s' ∧ WinChecked now s')) ∧
  (∀ now s i j,
     Reachable s → status s = Playing →
     ¬ (openAt (grid s) i j = true ∧ isMineAt (grid s) i j = true) →
     status (after now (Click i j) s) = Won ↔
     unrevealedSafeCells (grid (after now (Click i j) s)) = 0) ∧
  (∀ picks now now' s,
     createNewGame 1 1 0 picks now = Ret s →
     (∃ s', click now' 0 0 s = (Ret tt, s') ∧
        status s' = Won ∧ endTime s' = Some now') ∧
     (∃ s', App.handleCellClick now' 0 0 s = Ret s' ∧
        status s' = Won ∧ endTime s' = Some now')).
Proof.
  assert (Hserver : ∀ now s i j x,
     ShapeOf s → status s = Playing → getCell (grid s) i j = Some x →
     isRevealed x = false → isFlagged x = false → isMine x = false →
     ∃ s', click now i j s = (Ret tt, s') ∧ RevealPost now s i j s' ∧
       (status s' = Won ↔ countGrid unrevealedSafe (grid s') = 0%nat) ∧
       (status s' = Won → endTime s' = Some now)).
  { intros now s i j x Hshape Hs Hx Hr Hf Hm.
    assert (Hin : inBounds (rows s) (cols s) i j = true).
    { apply (Shape_getCell _ _ _ _ _ Hshape). eauto. }
    destruct (click_spec now s i j Hshape Hin) as ([] & s' & Hrun & Hpost).
    exists s'. split; [done|]. split; [done|].
    destruct Hpost as (_ & _ & _ & Hiff & _).
    apply Hiff; [done| |by unfold isMineAt; rewrite Hx].
    unfold openAt. by rewrite Hx, Hr, Hf. }
  split; [|split].
  - intros now s i j x Hshape Hs Hx Hr Hf Hm. split.
    + destruct (Hserver now s i j x) as (s' & Hrun & _ & Hwon & Hend); try done.
      exists s'. split; [done|]. by apply WinChecked_intro.
    + destruct (App_click_safe now s i j x)
        as (s' & Hrun & _ & Hwon & Hend & _); try done.
      exists s'. split; [done|]. by apply WinChecked_intro.
  - intros now s i j Hreach Hs Hnomine.
    destruct (Reachable_GoodState _ Hreach) as (Hshape & _ & _ & Hplay & _).
    assert (Hsame : status s = Won ↔ unrevealedSafeCells (grid s) = 0).
    { rewrite unrevealedSafeCells_countGrid. specialize (Hplay Hs).
      split; [congruence|lia]. }
    unfold after. simpl.
    destruct (click_cases now s i j Hshape)
      as [-> | [-> | [(x & _ & Hx & Ho & Hm & _) | (x & s' & _ & Hx & Ho & Hm & -> & Hp)]]];
      simpl; [done|done| |].
    + exfalso. apply Hnomine. split; [done|]. unfold isMineAt. by rewrite Hx.
    + destruct Hp as (_ & _ & _ & Hiff & _).
      destruct Hiff as [Hwon _]; [done|done|by unfold isMineAt; rewrite Hx|].
      rewrite unrevealedSafeCells_countGrid, Hwon. lia.
  - intros picks now now' s Hrun.
    destruct (createNewGame_sound 1 1 0 _ _ _ ltac:(done) ltac:(done) ltac:(done) Hrun)
      as (Hshape & _ & Hhid & Hmines).
    destruct (createNewGame_fields _ _ _ _ _ _ Hrun) as (Hrows & Hcols & _ & Hs & _).
    assert (Hcell : ∀ a b, is_Some (getCell (grid s) a b) → a = 0 ∧ b = 0).
    { intros a b Hsome. apply (Shape_getCell _ _ _ _ _ Hshape) in Hsome.
      rewrite Hrows, Hcols in Hsome. unfold inBounds in Hsome.
      rewrite !andb_true_iff, !Z.leb_le, !Z.ltb_lt in Hsome. lia. }
    destruct (proj2 (Shape_getCell _ _ _ 0 0 Hshape)) as [x Hx].
    { by rewrite Hrows, Hcols. }
    destruct (Hhid _ _ _ Hx) as [Hr Hf].
    assert (Hm : isMine x = false).
    { apply (proj1 (countGrid_zero isMine (grid s)) ltac:(lia) _ _ _ Hx). }
    assert (Hall : ∀ s', grid_le (grid s) (grid s') →
              isRevealedAt (grid s') 0 0 = true →
              countGrid unrevealedSafe (grid s') = 0%nat).
    { intros s' Hle Hrev. apply countGrid_zero. intros a b y Hy.
      destruct (Hcell a b) as [-> ->].
      { apply (grid_le_is_Some _ _ _ _ Hle). eauto. }
      unfold isRevealedAt in Hrev. rewrite Hy in Hrev.
      unfold unrevealedSafe. by rewrite Hrev, andb_false_r. }
    split.
    + destruct (Hserver now' s 0 0 x) as (s' & Hclick & Hpost & Hwon & Hend);
        try done.
      exists s'. split; [done|].
      assert (status s' = Won) as Hw; [|auto].
      apply Hwon. destruct Hpost as ([[Hle _] _] & Hvis & _).
      apply Hall; [done|]. specialize (Hvis Hs).
      rewrite (grid_le_isFlaggedAt _ _ _ _ Hle) in Hvis.
      unfold isFlaggedAt in Hvis. rewrite Hx, Hf in Hvis.
      by rewrite orb_false_r in Hvis.
    + destruct (App_click_safe now' s 0 0 x)
        as (s' & Hclick & [Hle _] & Hwon & Hend & _ & _ & Hrev & _); try done.
      exists s'. split; [done|].
      assert (status s' = Won) as Hw; [|auto]. apply Hwon. by apply Hall.
Qed.

Lemma win_detection_witness :
  (∃ s', click 2000 0 0 board1x1 = (Ret tt, s') ∧
     status s' = Won ∧ endTime s' = Some 2000) ∧
  (∃ s', App.handleCellClick 2000 0 1 board2x3 = Ret s' ∧ WinChecked 2000 s') ∧
  (status (after 2000 (Click 0 1) board2x3) = Won ↔
   unrevealedSafeCells (grid (after 2000 (Click 0 1) board2x3)) = 0).
Proof.
  split; [|split].
  - apply (proj2 (proj2 win_detection) [] 1000 2000 board1x1). reflexivity.
  - apply (proj1 win_detection 2000 board2x3 0 1 (mkCell 0 1 false false false 2));
      try reflexivity.
    by destruct (Reachable_GoodState _ Reachable_board2x3).
  - apply (proj1 (proj2 win_detection) 2000 board2x3 0 1).
    + apply Reachable_board2x3.
    + reflexivity.
    + intros [_ H]. discriminate H.
Defined.

(** C3, as the code has it.  On a board with correct counts, in a match
    that is being played, a click on a safe cell that shows 0 and is
    neither revealed nor flagged returns, on the server and on the
    stand-alone page alike, and the cells it reveals are exactly those of
    the region of the clicked cell and of its border.  The region is made
    of the zero cells linked to the clicked cell through adjacent zero
    cells that were neither revealed nor flagged when the click came; the
    border is made of the numbered cells next to the region that were
    neither revealed nor flagged.  Flags and mines are where they were, and
    no flagged cell and no mine is revealed. *)
Theorem flood_fill_exact now s i j :
  ShapeOf s → CountsCorrect (grid s) → status s = Playing →
  openAt (grid s) i j = true → isMineAt (grid s) i j = false →
  neighborMinesAt (grid s) i j = 0 →
  (∃ s', click now i j s = (Ret tt, s') ∧ FillsRegion s i j s') ∧
  (∃ s', App.handleCellClick now i j s = Ret s' ∧ FillsRegion s i j s').
Proof.
  intros Hshape Hc Hplay Ho Hm Hz.
  pose proof (CountsCorrect_NoAdjMine _ Hc) as Hnam.
  destruct (openAt_hidden _ _ _ Ho) as [Hh0 Hf0]. split.
  - assert (Hin : inBounds (rows s) (cols s) i j = true).
    { apply (Shape_getCell _ _ _ _ _ Hshape). by apply openAt_is_Some. }
    destruct (click_spec now s i j Hshape Hin)
      as ([] & s' & Hrun & [Hext _] & Hvis & _ & _ & Hcons).
    destruct Hcons as (_ & Hcl & Hsound);
      [done|done|congruence|intros ?; congruence|].
    destruct Hext as [Hle _].
    exists s'. split; [done|]. apply fill_exact; try done.
    specialize (Hvis Hplay).
    by rewrite (grid_le_isFlaggedAt _ _ _ _ Hle), Hf0, orb_false_r in Hvis.
  - destruct (openAt_is_Some _ _ _ Ho) as [x Hx].
    unfold openAt, isMineAt in *. rewrite Hx in *.
    apply andb_true_iff in Ho as [Hr Hf].
    apply negb_true_iff in Hr, Hf.
    destruct (App_click_safe now s i j x)
      as (s' & Hrun & [Hle _] & _ & _ & _ & Hsound & Hrev & Hcl); try done.
    exists s'. split; [done|]. apply fill_exact; try done.
    + unfold openAt. by rewrite Hx, Hr, Hf.
    + unfold isMineAt. by rewrite Hx.
    + intros a b Hh Hr'. by apply Hsound.
    + by apply Hcl.
Qed.

Lemma Reachable_board3x3 :
  Reachable (newGame 3 3 1 [(0, 0)] 1000).
Proof.
  apply (Reachable_new 3 3 1 [(0, 0)] 1000); [unfold validSize; lia|].
  vm_compute. reflexivity.
Qed.

Lemma flood_fill_exact_witness :
  let s := newGame 3 3 1 [(0, 0)] 1000 in
  (∃ s', click 2000 2 2 s = (Ret tt, s') ∧ FillsRegion s 2 2 s') ∧
  (∃ s', App.handleCellClick 2000 2 2 s = Ret s' ∧ FillsRegion s 2 2 s').
Proof.
  intros s.
  destruct (Reachable_GoodState _ Reachable_board3x3) as (Hshape & Hcounts & _).
  apply (flood_fill_exact 2000 s 2 2 Hshape Hcounts); reflexivity.
Defined.

(** The claim C3 fails where a zero cell was revealed earlier.  On the
    row of five safe cells, flag the second and the fourth, click the
    third, and take the flags off: only the third cell is revealed.  A
    click on the second cell now reveals it and the first one and stops at
    the third; the fifth cell, which is in the same 8-connected region of
    zero cells, is neither flagged nor a mine and stays hidden, on the
    server and on the stand-alone page. *)
Lemma flood_stops_at_revealed_cells :
  let s := runAll [(2000, Flag 0 1); (2000, Flag 0 3); (2000, Click 0 2);
                   (2000, Flag 0 1); (2000, Flag 0 3)] board1x5 in
  Reachable s ∧ status s = Playing ∧
  openAt (grid s) 0 1 = true ∧ neighborMinesAt (grid s) 0 1 = 0 ∧
  ZeroRegion (grid s) 0 1 0 4 ∧
  isFlaggedAt (grid s) 0 4 = false ∧ isMineAt (grid s) 0 4 = false ∧
  fst (click 3000 0 1 s) = Ret tt ∧
  isRevealedAt (grid (snd (click 3000 0 1 s))) 0 4 = false ∧
  ∃ s', App.handleCellClick 3000 0 1 s = Ret s' ∧
        isRevealedAt (grid s') 0 4 = false.
Proof.
  intros s. split; [apply Reachable_runAll, Reachable_board1x5|].
  repeat split; try reflexivity.
  - apply (ZeroRegion_step _ _ _ 0 3); [|unfold adjacent; lia|by eexists|done..].
    apply (ZeroRegion_step _ _ _ 0 2); [|unfold adjacent; lia|by eexists|done..].
    apply (ZeroRegion_step _ _ _ 0 1); [|unfold adjacent; lia|by eexists|done..].
    apply ZeroRegion_start.
  - eexists. split; reflexivity.
Qed.

(** C10. In every reachable state of a match that is being played, no
    mine is revealed.  On a board with correct counts, a click on a safe
    cell of a match that is being played returns without losing the match
    and leaves every mine as hidden as it was; on the stand-alone page,
    where the flood fill tests [isMine], this holds of every board. *)
Theorem no_mine_shown_while_playing :
  (∀ s, Reachable s → status s = Playing →
        ∀ i j, isMineAt (grid s) i j = true →
               isRevealedAt (grid s) i j = false) ∧
  (∀ now s i j,
     ShapeOf s → CountsCorrect (grid s) → status s = Playing →
     inBounds (rows s) (cols s) i j = true →
     isMineAt (grid s) i j = false →
     ∃ s', click now i j s = (Ret tt, s') ∧ MinesKept s s') ∧
  (∀ now s i j,
     ShapeOf s → status s = Playing →
     inBounds (rows s) (cols s) i j = true →
     isMineAt (grid s) i j = false →
     ∃ s', App.handleCellClick now i j s = Ret s' ∧ MinesKept s s').
Proof.
  assert (Hkept : ∀ s s' : GameState,
    grid_le (grid s) (grid s') →
    (∀ a b, isRevealedAt (grid s) a b = false →
            isRevealedAt (grid s') a b = true → isMineAt (grid s) a b = false) →
    ∀ a b, isMineAt (grid s) a b = true →
           isRevealedAt (grid s') a b = isRevealedAt (grid s) a b).
  { intros s s' Hle Hnew a b Hmab.
    destruct (isRevealedAt (grid s) a b) eqn:Hr.
    - by eapply grid_le_isRevealedAt.
    - destruct (isRevealedAt (grid s') a b) eqn:Hr'; [|done].
      rewrite (Hnew a b Hr Hr') in Hmab. done. }
  split; [|split].
  - intros s Hreach Hs.
    destruct (Reachable_GoodState _ Hreach) as (_ & _ & _ & _ & Hmines & _).
    apply Hmines. congruence.
  - intros now s i j Hshape Hc Hs Hin Hm.
    destruct (click_spec now s i j Hshape Hin) as ([] & s' & Hrun & Hpost).
    exists s'. split; [done|].
    destruct Hpost as ([[Hle _] _] & _ & _ & _ & Hcons).
    destruct Hcons as (Hnl & _ & Hsound);
      [by apply CountsCorrect_NoAdjMine|done|congruence|intros ?; congruence|].
    split; [done|]. apply Hkept; [done|]. intros a b Hh Hr.
    eapply Reach_safe; [by apply CountsCorrect_NoAdjMine|done|by apply Hsound].
  - intros now s i j Hshape Hs Hin Hm.
    destruct (proj2 (Shape_getCell _ _ _ i j Hshape) Hin) as [x Hx].
    destruct (isRevealed x || isFlagged x) eqn:Hb.
    { exists s. split; [by eapply App_click_blocked|].
      split; [congruence|done]. }
    apply orb_false_iff in Hb as [Hr Hf].
    destruct (App_click_safe now s i j x)
      as (s' & Hrun & [Hle _] & _ & _ & Hnl & Hsound & _); try done.
    { unfold isMineAt in Hm. by rewrite Hx in Hm. }
    exists s'. split; [done|]. split; [done|]. apply Hkept; [done|].
    intros a b Hh Hr'. by apply Hsound.
Qed.

Lemma no_mine_shown_while_playing_witness :
  isRevealedAt (grid (runAll [(2000, Click 0 1); (3000, Flag 0 0)] board2x3))
    1 2 = false ∧
  ∃ s', App.handleCellClick 2000 1 1 board2x3 = Ret s' ∧ MinesKept board2x3 s'.
Proof.
  split.
  - apply (proj1 no_mine_shown_while_playing
             (runAll [(2000, Click 0 1); (3000, Flag 0 0)] board2x3)).
    + apply Reachable_runAll, Reachable_board2x3.
    + reflexivity.
    + reflexivity.
  - apply (proj2 (proj2 no_mine_shown_while_playing) 2000 board2x3 1 1);
      try reflexivity.
    by destruct (Reachable_GoodState _ Reachable_board2x3).
Defined.

(** * Further properties of the code *)

(** ** Status and end time through a reveal *)

Global Instance StatusStep_preorder now : PreOrder (StatusStep now).
Proof.
  split.
  - intros s. by left.
  - intros s1 s2 s3 [[H1 H1']|[H1 H1']] [[H2 H2']|[H2 H2']].
    + left. split; congruence.
    + by right.
    + right. split; congruence.
    + by right.
Qed.

(** A loop keeps a preorder that each of its iterations keeps, whatever
    the outcome. *)
Lemma forM_always {S X} (T : relation S) `{!PreOrder T} (l : list X)
    (body : X → M S unit) :
  (∀ x s, T s (body x s).2) → ∀ s, T s (forM l body s).2.
Proof.
  intros Hb. induction l as [|x l IH]; intros s; simpl; [done|].
  unfold bind. pose proof (Hb x s) as H.
  destruct (body x s) as [[[]| |] s1]; simpl in *; [|done..].
  etrans; [done|apply IH].
Qed.

Lemma revealCell_StatusStep now fuel i j s :
  StatusStep now s (revealCell fuel now i j s).2.
Proof.
  revert i j s. induction fuel as [|fuel IH]; intros i j s; [done|].
  rewrite revealCell_S. unfold bind at 1, get.
  destruct (negb (isPlaying s)); [done|].
  unfold bind at 1, readCellOf.
  destruct (getCell (grid s) i j) as [x|]; [|done].
  destruct (isRevealed x || isFlagged x); [done|].
  unfold bind at 1, modifyGrid, modify.
  set (s1 := withGrid _ s).
  destruct (isMine x).
  { right. done. }
  set (m := if neighborMines x =? 0 then floodFill (revealCell fuel now) i j
            else ret tt).
  assert (Hloop : StatusStep now s1 (m s1).2).
  { unfold m. destruct (neighborMines x =? 0); [|done]. unfold floodFill.
    apply forM_always; [apply _|]. intros dr s2.
    apply forM_always; [apply _|]. intros dc s3. unfold bind, get.
    destruct (inBounds _ _ _ _); [apply IH|done]. }
  assert (StatusStep now s s1) as H1 by by left.
  unfold bind at 1.
  destruct (m s1) as [[[]| |] s2]; simpl in Hloop; [|by etrans..].
  rewrite checkWin_run. simpl.
  etrans; [done|]. etrans; [done|].
  destruct (decide _); [by right|done].
Qed.

(** ** The server and the page reveal the same cells *)

Lemma cell_le_eq x y1 y2 :
  cell_le x y1 → cell_le x y2 → isRevealed y1 = isRevealed y2 → y1 = y2.
Proof.
  destruct x, y1, y2. intros (?&?&?&?&?&_) (?&?&?&?&?&_) ?. simpl in *.
  congruence.
Qed.

Lemma grid_le_eq g g1 g2 :
  grid_le g g1 → grid_le g g2 →
  (∀ a b, isRevealedAt g1 a b = isRevealedAt g2 a b) → g1 = g2.
Proof.
  intros H1 H2 Hrev. apply list_eq. intros k.
  destruct (g !! k) as [row|] eqn:Hrow.
  2:{ apply lookup_ge_None in Hrow.
      rewrite (lookup_ge_None_2 g1), (lookup_ge_None_2 g2); [done|..].
      - by rewrite <- (Forall2_length _ _ _ H2).
      - by rewrite <- (Forall2_length _ _ _ H1). }
  destruct (Forall2_lookup_l _ _ _ _ _ H1 Hrow) as (row1 & Hrow1 & Hr1).
  destruct (Forall2_lookup_l _ _ _ _ _ H2 Hrow) as (row2 & Hrow2 & Hr2).
  rewrite Hrow1, Hrow2. f_equal. apply list_eq. intros k'.
  destruct (row !! k') as [x|] eqn:Hx.
  2:{ apply lookup_ge_None in Hx.
      rewrite (lookup_ge_None_2 row1), (lookup_ge_None_2 row2); [done|..].
      - by rewrite <- (Forall2_length _ _ _ Hr2).
      - by rewrite <- (Forall2_length _ _ _ Hr1). }
  destruct (Forall2_lookup_l _ _ _ _ _ Hr1 Hx) as (y1 & Hy1 & Hxy1).
  destruct (Forall2_lookup_l _ _ _ _ _ Hr2 Hx) as (y2 & Hy2 & Hxy2).
  rewrite Hy1, Hy2. f_equal. apply (cell_le_eq x); [done..|].
  specialize (Hrev (Z.of_nat k) (Z.of_nat k')).
  unfold isRevealedAt in Hrev.
  rewrite (proj2 (getCell_Some g1 _ _ y1)) in Hrev.
  2:{ split; [lia|]. split; [lia|]. exists row1. by rewrite !Nat2Z.id. }
  rewrite (proj2 (getCell_Some g2 _ _ y2)) in Hrev; [done|].
  split; [lia|]. split; [lia|]. exists row2. by rewrite !Nat2Z.id.
Qed.

(** Sound and closed: the cells revealed are those reached. *)
Lemma revealed_iff_Reach g g' i j :
  grid_le g g' → Sound g i j g' → Closed g g' →
  isRevealedAt g' i j = true →
  ∀ a b, isRevealedAt g' a b = true ↔
         isRevealedAt g a b = true ∨ Reach g i j a b.
Proof.
  intros Hle Hsound Hcl H0 a b. split.
  - intros Hr. destruct (isRevealedAt g a b) eqn:Hr0; [by left|].
    right. by apply Hsound.
  - intros [Hr|HR]; [by eapply grid_le_isRevealedAt|].
    by eapply Closed_complete.
Qed.

Lemma bool_eq_iff (b1 b2 : bool) : (b1 = true ↔ b2 = true) → b1 = b2.
Proof.
  destruct b1, b2; intros [H1 H2];
    [done|symmetry; by apply H1|by apply H2|done].
Qed.

Lemma engines_agree_safe now s i j x :
  ShapeOf s → NoAdjMine (grid s) → status s = Playing →
  getCell (grid s) i j = Some x →
  isRevealed x = false → isFlagged x = false → isMine x = false →
  App.handleCellClick now i j s = asOutcome (click now i j s).
Proof.
  intros Hshape Hnam Hs Hx Hr Hf Hm.
  assert (Hin : inBounds (rows s) (cols s) i j = true).
  { apply (Shape_getCell _ _ _ _ _ Hshape). eauto. }
  assert (Ho : openAt (grid s) i j = true).
  { unfold openAt. by rewrite Hx, Hr, Hf. }
  assert (HmAt : isMineAt (grid s) i j = false).
  { unfold isMineAt. by rewrite Hx. }
  assert (HfAt : isFlaggedAt (grid s) i j = false).
  { unfold isFlaggedAt. by rewrite Hx. }
  pose proof (revealCell_StatusStep now (S (cellCount (grid s))) i j s) as Hst.
  fold (click now i j s) in Hst.
  destruct (click_spec now s i j Hshape Hin) as ([] & s1 & Hrun1 & Hpost).
  rewrite Hrun1 in Hst |- *. simpl in Hst |- *.
  destruct Hpost as ([Hext1 _] & Hvis1 & _ & Hiff1 & Hcons1).
  destruct (Hiff1 Hs Ho HmAt) as [Hwon1 Hend1].
  destruct Hcons1 as (Hnl1 & Hcl1 & Hsound1);
    [done|done|congruence|intros ?; congruence|].
  destruct (App_click_safe now s i j x Hshape Hs Hx Hr Hf Hm)
    as (s2 & Hrun2 & Hext2 & Hwon2 & Hend2 & Hnl2 & Hsound2 & Hrev2 & Hcl2).
  rewrite Hrun2. f_equal.
  pose proof (proj1 Hext1) as Hle1. pose proof (proj1 Hext2) as Hle2.
  assert (Hrev1 : isRevealedAt (grid s1) i j = true).
  { specialize (Hvis1 Hs).
    by rewrite (grid_le_isFlaggedAt _ _ _ _ Hle1), HfAt, orb_false_r in Hvis1. }
  assert (Hgrid : grid s2 = grid s1).
  { apply (grid_le_eq (grid s)); [done..|]. intros a b. apply bool_eq_iff.
    rewrite (revealed_iff_Reach _ _ i j Hle2); [|intros u v Hu Hv; by apply Hsound2|by apply Hcl2|done].
    by rewrite (revealed_iff_Reach _ _ i j Hle1). }
  assert (Hstatus : status s2 = status s1 ∧ endTime s2 = endTime s1).
  { rewrite Hgrid in Hwon2.
    destruct (decide (countGrid unrevealedSafe (grid s1) = 0%nat)) as [H0|H0].
    - assert (status s1 = Won) by by apply Hwon1.
      assert (status s2 = Won) by by apply Hwon2.
      split; [congruence|]. rewrite Hend1, Hend2; done.
    - assert (status s1 = Playing) as Hp1.
      { assert (status s1 ≠ Won) by (intros E; by apply H0, Hwon1).
        by destruct (status s1). }
      assert (status s2 = Playing) as Hp2.
      { assert (status s2 ≠ Won) by (intros E; by apply H0, Hwon2).
        by destruct (status s2). }
      split; [congruence|].
      destruct Hst as [[_ He]|[Hnp _]]; [|done]. rewrite He.
      clear -Hrun2 Hp2 Hs Hx Hr Hf Hm.
      unfold App.handleCellClick, App.revealCell, isPlaying in Hrun2.
      rewrite bool_decide_eq_true_2 in Hrun2 by done. cbn [negb] in Hrun2.
      rewrite Hx, Hr, Hf, Hm in Hrun2. cbn [orb] in Hrun2.
      set (m := if neighborMines x =? 0 then _ else _) in Hrun2.
      destruct (m _) as [[[]| |] [g' q']]; [|done..].
      destruct (App.unrevealed g' =? 0); injection Hrun2 as <-; [done|done]. }
  destruct Hext1 as (_ & ? & ? & ? & ? & ?).
  destruct Hext2 as (_ & ? & ? & ? & ? & ?). destruct Hstatus.
  destruct s1, s2. simpl in *. congruence.
Qed.

Lemma App_click_not_playing now s i j :
  status s ≠ Playing → App.handleCellClick now i j s = Ret s.
Proof.
  intros Hs. unfold App.handleCellClick, isPlaying.
  by rewrite bool_decide_eq_false_2.
Qed.

Lemma App_click_out_of_range now s i j :
  status s = Playing → getCell (grid s) i j = None →
  App.handleCellClick now i j s = Throw.
Proof.
  intros Hs Hx. unfold App.handleCellClick, App.revealCell, isPlaying.
  rewrite bool_decide_eq_true_2 by done. cbn [negb]. by rewrite Hx.
Qed.

Lemma App_click_mine now s i j x :
  status s = Playing → getCell (grid s) i j = Some x →
  isRevealed x = false → isFlagged x = false → isMine x = true →
  App.handleCellClick now i j s = Ret (lostAt now s).
Proof.
  intros Hs Hx Hr Hf Hm. unfold App.handleCellClick, App.revealCell, isPlaying.
  rewrite bool_decide_eq_true_2 by done. cbn [negb].
  rewrite Hx, Hr, Hf, Hm. cbn [orb]. unfold lostAt.
  destruct (getCell_nonneg _ _ _ _ Hx).
  rewrite forEachCell_updCell_absorb; [done| |done..].
  intros y. rewrite Hx. intros [= <-]. unfold revealMine, setRevealed.
  destruct x; simpl in *. by rewrite Hm.
Qed.

(** X1.  A click is served alike by the server and by the stand-alone
    page: on a well-shaped board with correct neighbour counts, the page's
    [handleCellClick] returns the state the server's [revealCell] leaves,
    and it throws where the server throws.  The recursion of the one and
    the queue of the other reveal the same cells. *)
Theorem engines_agree_on_click now s i j :
  ShapeOf s → CountsCorrect (grid s) →
  App.handleCellClick now i j s = asOutcome (click now i j s).
Proof.
  intros Hshape Hcc.
  destruct (decide (status s = Playing)) as [Hs|Hs].
  2:{ by rewrite click_not_playing, App_click_not_playing. }
  destruct (getCell (grid s) i j) as [x|] eqn:Hx.
  2:{ by rewrite click_out_of_range, App_click_out_of_range. }
  destruct (isRevealed x || isFlagged x) eqn:Hb.
  { rewrite (click_blocked _ _ _ _ x) by done.
    by rewrite (App_click_blocked _ _ _ _ x). }
  apply orb_false_iff in Hb as [Hr Hf].
  destruct (isMine x) eqn:Hm.
  - rewrite (click_mine _ _ _ _ x) by done.
    by rewrite (App_click_mine _ _ _ _ x).
  - by apply (engines_agree_safe _ _ _ _ x);
      [|apply CountsCorrect_NoAdjMine|..].
Qed.

Lemma engines_agree_on_click_witness :
  App.handleCellClick 2000 1 0 board2x3 =
  asOutcome (click 2000 1 0 board2x3).
Proof.
  apply engines_agree_on_click;
    apply (Reachable_GoodState _ Reachable_board2x3).
Defined.

(** ** The other handlers of the page *)

(** X2.  The right-click handler of the page, which flags on a copy of
    the grid, returns the state the server's "flag" handler leaves, and
    throws where it throws. *)
Theorem page_flag_agrees i j s :
  Page.handleCellRightClick i j s = asOutcome (flagCell i j s).
Proof.
  unfold Page.handleCellRightClick, flagCell, bind, get, readCellOf, modifyGrid,
    modify, ret, throw.
  destruct (negb (isPlaying s)); [done|]. simpl.
  destruct (getCell (grid s) i j) as [x|]; [|done]. simpl.
  by destruct (isRevealed x).
Qed.

(** X3.  The interval callback of the page's timer and the server's
    [checkTimeout] end the match at the same clock readings and leave the
    same state: [Math.max(0, timeLimit - elapsed) === 0] is
    [elapsed >= timeLimit]. *)
Theorem page_timeout_agrees now s :
  Page.onInterval now s = (checkTimeout now s).2.
Proof.
  unfold Page.onInterval, checkTimeout, bind, get, modify, revealAllMines,
    modifyGrid, ret.
  destruct (isPlaying s) eqn:Hp; cbn [negb andb orb]; [|done].
  destruct (startTimeUnset s); cbn [negb]; [done|].
  destruct (Z.leb_spec (timeLimit s) (elapsedSeconds now s)).
  - rewrite (proj2 (Z.eqb_eq _ 0)) by lia. by destruct s.
  - by rewrite (proj2 (Z.eqb_neq _ 0)) by lia.
Qed.

(** ** Termination *)

(** X4.  The recursion of the server's [revealCell] ends: on a
    well-shaped board it never goes deeper than the number of hidden
    cells, so with any bound above that number the call returns or throws,
    and the outcome does not depend on the bound. *)
Theorem server_reveal_terminates now fuel fuel' i j s :
  ShapeOf s →
  (countGrid hidden (grid s) < fuel)%nat →
  (countGrid hidden (grid s) < fuel')%nat →
  (revealCell fuel now i j s).1 ≠ Diverge ∧
  revealCell fuel' now i j s = revealCell fuel now i j s.
Proof.
  intros Hshape Hf Hf'.
  destruct (revealCell_fuel_enough now fuel i j s Hshape Hf) as [-> Hnd].
  destruct (revealCell_fuel_enough now fuel' i j s Hshape Hf') as [-> _].
  done.
Qed.

Lemma server_reveal_terminates_witness :
  (revealCell 7 2000 1 0 board2x3).1 ≠ Diverge ∧
  revealCell 9 2000 1 0 board2x3 = revealCell 7 2000 1 0 board2x3.
Proof.
  apply server_reveal_terminates;
    [apply (Reachable_GoodState _ Reachable_board2x3)|
     vm_compute; lia|vm_compute; lia].
Defined.

(** X5.  The queue loop of the page's [revealCell] ends: on a
    well-shaped board, with any bound on the iterations above the number
    of hidden cells the call returns or throws, and the outcome does not
    depend on the bound. *)
Theorem page_reveal_terminates now fuel fuel' i j s :
  ShapeOf s →
  (countGrid hidden (grid s) < fuel)%nat →
  (countGrid hidden (grid s) < fuel')%nat →
  App.revealCell fuel now i j s ≠ Diverge ∧
  App.revealCell fuel' now i j s = App.revealCell fuel now i j s.
Proof.
  intros Hshape Hf Hf'.
  destruct (App_revealCell_fuel_enough now fuel i j s Hshape Hf) as [E Hnd].
  destruct (App_revealCell_fuel_enough now fuel' i j s Hshape Hf') as [-> _].
  rewrite E. split; [|done].
  intros Hd. apply Hnd. unfold App.handleCellClick.
  destruct (negb (isPlaying s)) eqn:Hp; [|done].
  unfold App.revealCell in Hd. by rewrite Hp in Hd.
Qed.

Lemma page_reveal_terminates_witness :
  App.revealCell 7 2000 1 0 board2x3 ≠ Diverge ∧
  App.revealCell 9 2000 1 0 board2x3 = App.revealCell 7 2000 1 0 board2x3.
Proof.
  apply page_reveal_terminates;
    [apply (Reachable_GoodState _ Reachable_board2x3)|
     vm_compute; lia|vm_compute; lia].
Defined.

(** ** What no action changes *)

Global Instance SameBoard_preorder : PreOrder SameBoard.
Proof.
  split.
  - intros s. split_and!; try done. intros i j.
    by destruct (getCell (grid s) i j).
  - intros s1 s2 s3 (?&?&?&?&?&Hs12&H12) (?&?&?&?&?&Hs23&H23).
    split_and!; try congruence; [by auto|]. intros i j.
    specialize (H12 i j). specialize (H23 i j).
    destruct (getCell (grid s1) i j), (getCell (grid s2) i j),
      (getCell (grid s3) i j); try done.
    destruct H12 as (?&?&?&?), H23 as (?&?&?&?). repeat split; congruence.
Qed.

Lemma Ext_SameBoard s s' : Ext s s' → SameBoard s s'.
Proof.
  intros (Hle & Hr & Hc & ? & ? & ?). split_and!; try done.
  - unfold ShapeOf. rewrite Hr, Hc. by apply grid_le_Shape.
  - intros i j. destruct (getCell (grid s) i j) as [x|] eqn:Hx.
    + destruct (grid_le_getCell _ _ _ _ _ Hle Hx) as (y & -> & Hxy).
      by destruct Hxy as (?&?&?&?&?&?).
    + destruct (getCell (grid s') i j) as [y|] eqn:Hy; [|done].
      destruct (grid_le_getCell_r _ _ _ _ _ Hle Hy) as (x & Hx' & _).
      congruence.
Qed.

Lemma Ext_withGrid s g :
  grid_le (grid s) g → Ext s (withGrid g s).
Proof. intros Hle. by repeat split. Qed.

Lemma revealCell_Ext now fuel i j s : Ext s (revealCell fuel now i j s).2.
Proof.
  revert i j s. induction fuel as [|fuel IH]; intros i j s; [done|].
  rewrite revealCell_S. unfold bind at 1, get.
  destruct (negb (isPlaying s)); [done|].
  unfold bind at 1, readCellOf.
  destruct (getCell (grid s) i j) as [x|]; [|done].
  destruct (isRevealed x || isFlagged x); [done|].
  unfold bind at 1, modifyGrid, modify.
  set (s1 := withGrid _ s).
  assert (Ext s s1) as H1.
  { apply Ext_withGrid, grid_le_updCell, cell_le_setRevealed. }
  destruct (isMine x).
  { cbn. etrans; [done|]. split; [|done]. simpl.
    apply grid_le_forEachCell. intros y. unfold revealMine.
    destruct (isMine y); [apply cell_le_setRevealed|done]. }
  set (m := if neighborMines x =? 0 then floodFill (revealCell fuel now) i j
            else ret tt).
  assert (Hloop : Ext s1 (m s1).2).
  { unfold m. destruct (neighborMines x =? 0); [|done]. unfold floodFill.
    apply forM_always; [apply _|]. intros dr s2.
    apply forM_always; [apply _|]. intros dc s3. unfold bind, get.
    destruct (inBounds _ _ _ _); [apply IH|done]. }
  unfold bind at 1.
  destruct (m s1) as [[[]| |] s2]; simpl in Hloop; [|by etrans..].
  rewrite checkWin_run. simpl.
  etrans; [done|]. etrans; [done|].
  destruct (decide _); [|done]. split; [|done]. done.
Qed.

Lemma SameBoard_lostAt t s : SameBoard s (lostAt t s).
Proof.
  split_and!; try done.
  - unfold ShapeOf, lostAt. cbn [grid rows cols]. apply Shape_forEachCell.
  - intros i j. unfold lostAt. cbn [grid]. rewrite getCell_forEachCell.
    destruct (getCell (grid s) i j) as [x|]; [|done]. simpl.
    unfold revealMine. by destruct (isMine x) eqn:E.
Qed.

Lemma SameBoard_after now a s : SameBoard s (after now a s).
Proof.
  unfold after. destruct a as [i j|i j|]; simpl.
  - apply Ext_SameBoard, revealCell_Ext.
  - destruct (flagCell_cases i j s) as [-> | [-> | (x & _ & Hx & _ & ->)]];
      [done..|]. simpl.
    destruct (getCell_nonneg _ _ _ _ Hx) as [Hi Hj].
    split_and!; try done.
    + unfold ShapeOf, withGrid. cbn [grid rows cols]. apply Shape_updCell.
    + intros a b. unfold withGrid. cbn [grid]. rewrite getCell_updCell by done.
      destruct (decide _) as [[-> ->]|_].
      * by rewrite Hx.
      * by destruct (getCell (grid s) a b).
  - unfold bind.
    destruct (checkTimeout_cases now s) as [-> | [_ ->]]; [done|].
    apply SameBoard_lostAt.
Qed.

(** X6.  No click, flag or tick moves a mine, relabels a cell or
    changes a neighbour count: along every run of the server the board
    keeps its size, each cell keeps its coordinates, its mine and its
    count, and the match keeps its mine total, start time and time limit.
    Only the revealed and flagged marks, the status and the end time
    change. *)
Theorem runs_keep_the_board l s : SameBoard s (runAll l s).
Proof.
  unfold runAll. revert s.
  induction l as [|[now a] l IH]; intros s; [done|]. simpl.
  etrans; [apply (SameBoard_after now a)|apply IH].
Qed.

(** ** The board of a match *)

Lemma countGrid_Forall2 (P : Cell → bool) (R : Cell → Cell → Prop) g g' :
  (∀ x y, R x y → P y = P x) →
  Forall2 (Forall2 R) g g' → countGrid P g' = countGrid P g.
Proof.
  intros HR. induction 1 as [|row row' g g' Hrow _ IH]; [done|].
  simpl. rewrite IH. f_equal.
  induction Hrow as [|x y row row' Hxy _ IHrow]; [done|].
  simpl. by rewrite (HR _ _ Hxy), IHrow.
Qed.

Lemma grid_le_countMines g g' :
  grid_le g g' → countGrid isMine g' = countGrid isMine g.
Proof.
  apply countGrid_Forall2. by intros x y (_ & _ & ? & _).
Qed.

Lemma after_countMines now a s :
  countGrid isMine (grid (after now a s)) = countGrid isMine (grid s).
Proof.
  unfold after. destruct a as [i j|i j|]; simpl.
  - apply grid_le_countMines, revealCell_Ext.
  - destruct (flagCell_cases i j s) as [-> | [-> | (x & _ & Hx & _ & ->)]];
      [done..|]. unfold withGrid. cbn [snd grid].
    pose proof (countGrid_updCell isMine toggleFlagged i j _ x Hx) as H.
    replace (isMine (toggleFlagged x)) with (isMine x) in H by by destruct x.
    lia.
  - unfold bind.
    destruct (checkTimeout_cases now s) as [-> | [_ ->]]; [done|].
    unfold lostAt. cbn [snd grid]. apply grid_le_countMines.
    apply grid_le_forEachCell. intros y. unfold revealMine.
    destruct (isMine y); [apply cell_le_setRevealed|done].
Qed.

Lemma adjacentMines_le_8 g i j : adjacentMines g i j ≤ 8.
Proof.
  unfold adjacentMines, neighbours8. cbn [foldr fst snd].
  repeat match goal with |- context [if ?b then _ else _] => destruct b end;
    lia.
Qed.

Lemma Unnumbered_initGrid nrows ncols : Unnumbered (initGrid nrows ncols).
Proof.
  intros i j x. rewrite getCell_initGrid.
  destruct (inBounds nrows ncols i j); [|done]. by intros [= <-].
Qed.

Lemma placeMines_Unnumbered picks nmines placed g :
  Unnumbered g → Unnumbered (placeMines picks nmines placed g).2.
Proof.
  revert placed g. induction picks as [|[i j] picks IH]; intros placed g Hg.
  - simpl. by destruct (decide _).
  - destruct (decide (placed < nmines)) as [Hlt|Hge].
    2:{ by rewrite placeMines_done. }
    rewrite placeMines_cons by done. unfold bind at 1, readCell.
    destruct (getCell g i j) as [x|] eqn:Hx; [|done].
    destruct (negb (isMine x)); [|by apply IH].
    unfold bind at 1, modify. apply IH.
    destruct (getCell_nonneg _ _ _ _ Hx) as [Hi Hj].
    intros a b y. rewrite getCell_updCell by done.
    destruct (decide _) as [[-> ->]|_]; [|apply Hg].
    rewrite Hx. intros [= <-]. by apply Hg in Hx.
Qed.

Lemma createNewGame_labelled nrows ncols nmines picks now s :
  0 ≤ nrows → 0 ≤ ncols → 0 ≤ nmines →
  createNewGame nrows ncols nmines picks now = Ret s →
  CellsLabelled (grid s).
Proof.
  intros Hrows Hcols Hmines Hrun.
  destruct (createNewGame_Ret_inv _ _ _ _ _ _ Hrun) as (g1 & Hp & Hc).
  assert (Hu : Unnumbered g1).
  { pose proof (placeMines_Unnumbered picks nmines 0 _
                  (Unnumbered_initGrid nrows ncols)) as H.
    by rewrite Hp in H. }
  assert (Hs1 : Shape nrows ncols g1).
  { by destruct (placeMines_partial nrows ncols _ _ _ _ _
                   (Shape_initGrid _ _ Hrows Hcols) (AllHidden_initGrid _ _)
                   (f_equal Z.of_nat (countGrid_initGrid nrows ncols))
                   Hmines Hp). }
  destruct (calcNeighbors_spec nrows ncols g1 Hs1) as ([] & g' & Hc' & _ & _ & Hcells).
  rewrite Hc in Hc'. injection Hc' as <-.
  intros i j y. rewrite Hcells.
  destruct (getCell g1 i j) as [x|] eqn:Hx; [|done]. intros [= <-].
  destruct (Hu _ _ _ Hx) as (Hr & Hcc & Hn). unfold counted.
  destruct (isMine x); [lia|]. simpl.
  pose proof (adjacentMines_nonneg g1 i j).
  pose proof (adjacentMines_le_8 g1 i j). lia.
Qed.

Lemma SameBoard_CellsLabelled s s' :
  SameBoard s s' → CellsLabelled (grid s) → CellsLabelled (grid s').
Proof.
  intros (_&_&_&_&_&_&H) Hl i j y Hy. specialize (H i j). rewrite Hy in H.
  destruct (getCell (grid s) i j) as [x|] eqn:Hx; [|done].
  destruct H as (-> & -> & _ & ->). by apply Hl.
Qed.

(** X7.  In every state of a match the board is as [createNewGame]
    made it: the size is valid, the grid has [rows] rows of [cols] cells,
    exactly [mines] of them are mines, each cell carries its own
    coordinates and a count between 0 and 8, the time limit is that of the
    size, and the start time is set. *)
Theorem reachable_board s :
  Reachable s →
  validSize (rows s) (cols s) (mines s) ∧ ShapeOf s ∧
  Z.of_nat (countGrid isMine (grid s)) = mines s ∧
  CellsLabelled (grid s) ∧
  timeLimit s = timeLimitFor (rows s) (cols s) ∧
  is_Some (startTime s).
Proof.
  induction 1 as [nrows ncols nmines picks now s Hv Hrun|now a s _ IH].
  - destruct (createNewGame_fields _ _ _ _ _ _ Hrun)
      as (Hr & Hc & Hm & _ & Hst & _ & Htl).
    assert (0 ≤ nrows ∧ 0 ≤ ncols ∧ 0 ≤ nmines) as (H1 & H2 & H3)
      by (unfold validSize in Hv; lia).
    destruct (createNewGame_sound _ _ _ _ _ _ H1 H2 H3 Hrun)
      as (Hshape & _ & _ & Hcount).
    rewrite Hr, Hc, Hm, Hst, Htl. split_and!; try done.
    by apply (createNewGame_labelled nrows ncols nmines picks now).
  - destruct IH as (Hv & Hshape & Hcount & Hl & Htl & Hst).
    pose proof (SameBoard_after now a s) as HS.
    pose proof HS as (Hr & Hc & Hm & Hst' & Htl' & Hshape' & _).
    rewrite Hr, Hc, Hm, Hst', Htl', after_countMines.
    split_and!; try done; [by auto|by eapply SameBoard_CellsLabelled].
Qed.

Lemma reachable_board_witness :
  validSize (rows board2x3) (cols board2x3) (mines board2x3) ∧
  ShapeOf board2x3 ∧
  Z.of_nat (countGrid isMine (grid board2x3)) = mines board2x3 ∧
  CellsLabelled (grid board2x3) ∧
  timeLimit board2x3 = timeLimitFor (rows board2x3) (cols board2x3) ∧
  is_Some (startTime board2x3).
Proof. apply reachable_board, Reachable_board2x3. Defined.

(** ** Status, end time and grid *)

Lemma countGrid_forEachCell P f g :
  (∀ x, P (f x) = P x) →
  countGrid P (forEachCell f g) = countGrid P g.
Proof.
  intros Hf. induction g as [|row g IH]; [done|]. simpl. rewrite IH. f_equal.
  induction row as [|x row IHrow]; [done|]. simpl. by rewrite Hf, IHrow.
Qed.

Lemma countGrid_revealMines g :
  countGrid unrevealedSafe (forEachCell revealMine g) =
  countGrid unrevealedSafe g.
Proof.
  apply countGrid_forEachCell. intros x. unfold revealMine, unrevealedSafe.
  by destruct (isMine x) eqn:E; simpl; rewrite ?E.
Qed.

Lemma EndFacts_lost t s :
  countGrid unrevealedSafe (grid s) ≠ 0%nat → EndFacts (lostAt t s).
Proof.
  intros Hne. split; [done|]. intros _. unfold lostAt. cbn [grid]. split.
  - by rewrite countGrid_revealMines.
  - intros i j Hm. rewrite isMineAt_revealMines in Hm.
    by rewrite isRevealedAt_revealMines, Hm.
Qed.

Lemma EndFacts_after now a s :
  GoodState s → EndFacts s → EndFacts (after now a s).
Proof.
  intros Hgood Hend. pose proof Hgood as (Hshape & _ & _ & Hleft & _).
  destruct (decide (status s = Playing)) as [Hs|Hs].
  2:{ unfold after. by rewrite act_not_playing. }
  specialize (Hleft Hs).
  unfold after. destruct a as [i j|i j|]; simpl.
  - pose proof (revealCell_StatusStep now (S (cellCount (grid s))) i j s) as Hst.
    fold (click now i j s) in Hst.
    destruct (click_cases now s i j Hshape)
      as [-> | [-> | [(x & _ & _ & _ & _ & ->) | (x & s' & _ & Hx & Ho & Hm & Hrun & Hp)]]];
      simpl; [done|done|by apply EndFacts_lost|].
    rewrite Hrun in Hst |- *. simpl in Hst |- *.
    destruct Hp as (_ & _ & _ & Hiff & Hcons).
    assert (HmAt : isMineAt (grid s) i j = false).
    { unfold isMineAt. by rewrite Hx. }
    destruct (Hiff Hs Ho HmAt) as [Hwon Htime].
    destruct Hgood as (_ & Hcc & Hwin & _).
    destruct Hcons as (Hnl & _);
      [by apply CountsCorrect_NoAdjMine|done|congruence|done|].
    split; [|done].
    destruct Hst as [[Hst He]|[Hnp He]].
    + rewrite Hst, He. apply Hend.
    + rewrite He. split; [done|done].
  - destruct (flagCell_cases i j s) as [-> | [-> | (x & _ & _ & _ & ->)]];
      simpl; [done|done|]. destruct Hend as [H1 H2]. split; [done|].
    intros Hl. simpl in Hl. congruence.
  - unfold bind. destruct (checkTimeout_cases now s) as [-> | [_ ->]];
      simpl; [done|by apply EndFacts_lost].
Qed.

Lemma Reachable_EndFacts s : Reachable s → EndFacts s.
Proof.
  induction 1 as [nrows ncols nmines picks now s Hv Hrun|now a s Hs IH].
  - destruct (createNewGame_fields _ _ _ _ _ _ Hrun)
      as (_ & _ & _ & Hst & _ & He & _).
    split; [by rewrite Hst, He|]. by rewrite Hst.
  - by apply EndFacts_after; [apply Reachable_GoodState|].
Qed.

(** X8.  In every state of a match the status can be read off the
    rest of the state: the match is being played exactly while the end
    time is unset; it is won exactly when no safe cell is hidden; and when
    it is lost every mine is revealed and some safe cell is still
    hidden. *)
Theorem reachable_status s :
  Reachable s →
  (status s = Playing ↔ endTime s = None) ∧
  (status s = Won ↔ countGrid unrevealedSafe (grid s) = 0%nat) ∧
  (status s = Lost →
     ∀ i j, isMineAt (grid s) i j = true → isRevealedAt (grid s) i j = true).
Proof.
  intros Hs. destruct (Reachable_EndFacts s Hs) as [Hend Hlost].
  destruct (Reachable_GoodState s Hs) as (_ & _ & Hwin & Hleft & _).
  split; [done|]. split; [|by apply Hlost].
  split; [done|]. intros H0.
  destruct (status s) eqn:E; [by destruct Hleft| done |by destruct Hlost].
Qed.

Lemma reachable_status_witness :
  let s := after 2000 (Click 0 0) board2x3 in
  (status s = Playing ↔ endTime s = None) ∧
  (status s = Won ↔ countGrid unrevealedSafe (grid s) = 0%nat) ∧
  (status s = Lost →
     ∀ i j, isMineAt (grid s) i j = true → isRevealedAt (grid s) i j = true).
Proof. apply reachable_status, Reachable_after, Reachable_board2x3. Defined.

(** ** Progress *)

Lemma grid_le_updCell_l g g' i j :
  0 ≤ i → 0 ≤ j → grid_le g g' → isRevealedAt g' i j = true →
  grid_le (updCell setRevealed i j g) g'.
Proof.
  intros Hi Hj Hle Hr. unfold updCell, grid_le.
  apply Forall2_alter_l; [done|]. intros row row' Hrow Hrow' Hrows.
  apply Forall2_alter_l; [done|]. intros x y Hx Hy Hxy.
  assert (getCell g' i j = Some y) as Hg'.
  { apply getCell_Some. split; [done|]. split; [done|]. by exists row'. }
  unfold isRevealedAt in Hr. rewrite Hg' in Hr.
  destruct Hxy as (?&?&?&?&?&?). by repeat split.
Qed.

Lemma countGrid_reveal_lt g g' i j x :
  grid_le g g' → getCell g i j = Some x → unrevealedSafe x = true →
  isRevealedAt g' i j = true →
  (countGrid unrevealedSafe g' < countGrid unrevealedSafe g)%nat.
Proof.
  intros Hle Hx Hu Hr. destruct (getCell_nonneg _ _ _ _ Hx) as [Hi Hj].
  pose proof (grid_le_countGrid unrevealedSafe _ _ unrevealedSafe_antitone
                (grid_le_updCell_l _ _ _ _ Hi Hj Hle Hr)) as H1.
  pose proof (countGrid_updCell unrevealedSafe setRevealed i j g x Hx) as H2.
  rewrite Hu in H2.
  replace (unrevealedSafe (setRevealed x)) with false in H2; [lia|].
  unfold unrevealedSafe, setRevealed. simpl. by rewrite andb_false_r.
Qed.

(** X9.  Every click on a hidden, unflagged safe cell makes progress:
    it leaves strictly fewer hidden safe cells than there were, so a match
    takes at most as many such clicks as the board has safe cells. *)
Theorem safe_click_progress now s i j x :
  ShapeOf s → status s = Playing → getCell (grid s) i j = Some x →
  isRevealed x = false → isFlagged x = false → isMine x = false →
  (countGrid unrevealedSafe (grid (after now (Click i j) s)) <
   countGrid unrevealedSafe (grid s))%nat.
Proof.
  intros Hshape Hs Hx Hr Hf Hm.
  assert (Hin : inBounds (rows s) (cols s) i j = true).
  { apply (Shape_getCell _ _ _ _ _ Hshape). eauto. }
  unfold after. simpl.
  destruct (click_spec now s i j Hshape Hin) as ([] & s' & -> & Hp).
  destruct Hp as ([[Hle _] _] & Hvis & _). simpl.
  apply (countGrid_reveal_lt _ _ i j x); [done|done| |].
  - unfold unrevealedSafe. by rewrite Hm, Hr.
  - specialize (Hvis Hs).
    assert (isFlaggedAt (grid s) i j = false) as HfAt.
    { unfold isFlaggedAt. by rewrite Hx. }
    by rewrite (grid_le_isFlaggedAt _ _ _ _ Hle), HfAt, orb_false_r in Hvis.
Qed.

Lemma safe_click_progress_witness :
  (countGrid unrevealedSafe (grid (after 2000 (Click 1 0) board2x3)) <
   countGrid unrevealedSafe (grid board2x3))%nat.
Proof.
  eapply (safe_click_progress 2000 board2x3 1 0);
    [apply (Reachable_GoodState _ Reachable_board2x3)|reflexivity..].
Defined.

Lemma after_keeps_revealed now a s i j :
  isRevealedAt (grid s) i j = true →
  isRevealedAt (grid (after now a s)) i j = true.
Proof.
  intros Hr. unfold after. destruct a as [a b|a b|]; simpl.
  - eapply grid_le_isRevealedAt; [apply revealCell_Ext|done].
  - destruct (flagCell_cases a b s) as [-> | [-> | (x & _ & Hx & Hrx & ->)]];
      [done..|]. unfold withGrid. cbn [snd grid].
    destruct (getCell_nonneg _ _ _ _ Hx) as [Ha Hb].
    unfold isRevealedAt in *. rewrite getCell_updCell by done.
    destruct (decide _) as [[-> ->]|_]; [|done].
    rewrite Hx in Hr |- *. simpl. congruence.
  - unfold bind.
    destruct (checkTimeout_cases now s) as [-> | [_ ->]]; [done|].
    change (isRevealedAt (forEachCell revealMine (grid s)) i j = true).
    by rewrite isRevealedAt_revealMines, Hr, orb_true_r.
Qed.

(** X10.  Nothing hides a cell again: a cell that is revealed stays
    revealed through every run of clicks, flags and ticks. *)
Theorem revealed_stays_revealed l s i j :
  isRevealedAt (grid s) i j = true →
  isRevealedAt (grid (runAll l s)) i j = true.
Proof.
  unfold runAll. revert s.
  induction l as [|[now a] l IH]; intros s Hr; [done|]. simpl.
  by apply IH, after_keeps_revealed.
Qed.

Lemma revealed_stays_revealed_witness :
  let s := after 2000 (Click 1 0) board2x3 in
  isRevealedAt (grid (runAll [(3000, Flag 1 0); (4000, Click 0 0)] s)) 1 0
  = true.
Proof. by apply revealed_stays_revealed. Defined.

(** ** Board generation outside the valid sizes *)

Lemma Shape_initGrid_max nrows ncols :
  Shape (Z.max 0 nrows) (Z.max 0 ncols) (initGrid nrows ncols).
Proof.
  unfold initGrid. split.
  - rewrite length_fmap, length_seqZ. lia.
  - apply Forall_fmap, Forall_forall. intros i _. simpl.
    rewrite length_fmap, length_seqZ. lia.
Qed.

(** X11.  [createNewGame] returns a board with mines only if there is
    room for them: when it returns with a positive number of mines, the
    numbers of rows and columns are positive and the mines are no more
    than the cells.  For any other request it throws or loops. *)
Theorem createNewGame_needs_room nrows ncols nmines picks now s :
  createNewGame nrows ncols nmines picks now = Ret s → 0 < nmines →
  0 < nrows ∧ 0 < ncols ∧ nmines ≤ nrows * ncols.
Proof.
  intros Hrun Hpos. assert (0 ≤ nmines) as H0 by lia.
  apply createNewGame_Ret_inv in Hrun as (g1 & Hplace & _).
  destruct (placeMines_partial _ _ nmines picks 0 _ g1
              (Shape_initGrid_max nrows ncols) (AllHidden_initGrid _ _)
              (f_equal Z.of_nat (countGrid_initGrid nrows ncols))
              H0 Hplace) as (Hs1 & _ & Hn1).
  pose proof (countGrid_le_cellCount isMine g1) as Hle.
  pose proof (cellCount_Shape _ _ _ Hs1) as Hcells. nia.
Qed.

Lemma createNewGame_needs_room_witness :
  0 < 2 ∧ 0 < 3 ∧ 2 ≤ 2 * 3.
Proof.
  apply (createNewGame_needs_room 2 3 2 [(0, 0); (0, 0); (1, 2)] 1000 board2x3);
    [vm_compute; reflexivity|lia].
Defined.

Lemma placeMines_no_throw nrows ncols picks nmines placed g :
  Shape nrows ncols g → picksInRange nrows ncols picks →
  (placeMines picks nmines placed g).1 ≠ Throw.
Proof.
  revert placed g. induction picks as [|[i j] picks IH]; intros placed g Hs Hp.
  - simpl. by destruct (decide _).
  - destruct (decide (placed < nmines)) as [Hlt|Hge].
    2:{ by rewrite placeMines_done. }
    rewrite placeMines_cons by done. unfold bind at 1, readCell.
    assert (Hin : inBounds nrows ncols i j = true).
    { apply (Hp (i, j)). by left. }
    apply (Shape_getCell _ _ _ _ _ Hs) in Hin as [x Hx]. rewrite Hx.
    assert (picksInRange nrows ncols picks) as Hp'.
    { intros p Hin. apply Hp. by right. }
    destruct (negb (isMine x)); [|by apply IH].
    unfold bind at 1, modify. apply IH; [by apply Shape_updCell|done].
Qed.

(** X12.  With more mines asked for than the board has cells, the loop
    that places the mines never ends: whatever finite sequence of cells
    the random draws give, [createNewGame] is still running after it. *)
Theorem createNewGame_too_many_mines nrows ncols nmines picks now :
  0 < nrows → 0 < ncols → nrows * ncols < nmines →
  picksInRange nrows ncols picks →
  createNewGame nrows ncols nmines picks now = Diverge.
Proof.
  intros Hr Hc Hmany Hp.
  assert (0 ≤ nmines) as H0 by nia.
  assert (0 ≤ nrows) as Hr0 by lia. assert (0 ≤ ncols) as Hc0 by lia.
  destruct (createNewGame nrows ncols nmines picks now) as [s| |] eqn:Hrun;
    [| |done].
  - apply createNewGame_Ret_inv in Hrun as (g1 & Hplace & _).
    destruct (placeMines_partial _ _ nmines picks 0 _ g1
                (Shape_initGrid_max nrows ncols) (AllHidden_initGrid _ _)
                (f_equal Z.of_nat (countGrid_initGrid nrows ncols))
                H0 Hplace) as (Hs1 & _ & Hn1).
    pose proof (countGrid_le_cellCount isMine g1) as Hle.
    pose proof (cellCount_Shape _ _ _ Hs1) as Hcells. nia.
  - exfalso. unfold createNewGame, bind in Hrun.
    pose proof (placeMines_no_throw nrows ncols picks nmines 0
                  (initGrid nrows ncols)
                  (Shape_initGrid _ _ Hr0 Hc0) Hp) as Hnt.
    destruct (placeMines picks nmines 0 (initGrid nrows ncols))
      as [[[]| |] g1] eqn:Hplace; [|done|done].
    assert (Hs1 : Shape (Z.max 0 nrows) (Z.max 0 ncols) g1).
    { by destruct (placeMines_partial _ _ nmines picks 0 _ g1
                (Shape_initGrid_max nrows ncols) (AllHidden_initGrid _ _)
                (f_equal Z.of_nat (countGrid_initGrid nrows ncols))
                H0 Hplace). }
    rewrite !Z.max_r in Hs1 by lia.
    destruct (calcNeighbors_spec _ _ _ Hs1) as ([] & g2 & Hc2 & _).
    by rewrite Hc2 in Hrun.
Qed.

Lemma createNewGame_too_many_mines_witness :
  createNewGame 1 2 3 [(0, 0); (0, 1); (0, 0); (0, 1)] 1000 = Diverge.
Proof.
  apply (createNewGame_too_many_mines 1 2 3
           [(0, 0); (0, 1); (0, 0); (0, 1)] 1000); [lia|lia|lia|].
  intros p Hp. repeat (apply elem_of_cons in Hp as [->|Hp]; [done|]).
  by apply elem_of_nil in Hp.
Defined.

(** X13.  On a board without cells a request for mines throws at the
    first draw: with a positive number of mines and no rows or no columns,
    the first cell drawn is [undefined] and reading its [isMine] raises a
    [TypeError]. *)
Theorem createNewGame_no_cells nrows ncols nmines p picks now :
  0 < nmines → nrows ≤ 0 ∨ ncols ≤ 0 →
  createNewGame nrows ncols nmines (p :: picks) now = Throw.
Proof.
  intros Hpos Hempty. destruct p as [i j].
  unfold createNewGame. unfold bind at 1.
  rewrite placeMines_cons by done. unfold bind at 1, readCell.
  rewrite getCell_initGrid.
  replace (inBounds nrows ncols i j) with false; [done|].
  symmetry. unfold inBounds.
  destruct (Z.leb_spec 0 i), (Z.ltb_spec i nrows), (Z.leb_spec 0 j),
    (Z.ltb_spec j ncols); try done. lia.
Qed.

Lemma createNewGame_no_cells_witness :
  createNewGame 0 5 1 [(0, 0)] 1000 = Throw.
Proof. apply (createNewGame_no_cells 0 5 1 (0, 0) [] 1000); lia. Defined.

(** ** Reset *)

(** X14.  The "reset" handler of the server: a field of the payload
    that is missing or 0 is replaced by its default (10 rows, 10 columns,
    15 mines), so a reset never yields 0 rows, 0 columns or 0 mines.  When
    [createNewGame] returns, the new match replaces the old state,
    whatever it was, and is what is broadcast; it is being played, started
    at the time of the reset.  When [createNewGame] does not return, the
    old state stays. *)
Theorem reset_replaces_the_match prows pcols pmines picks now s :
  match onReset prows pcols pmines picks now s with
  | (Ret (Some b), s') =>
      b = s' ∧ status s' = Playing ∧
      rows s' = orDefault prows 10 ∧ cols s' = orDefault pcols 10 ∧
      mines s' = orDefault pmines 15 ∧
      rows s' ≠ 0 ∧ cols s' ≠ 0 ∧ mines s' ≠ 0 ∧
      startTime s' = Some now ∧ endTime s' = None
  | (Ret None, _) => False
  | (_, s') => s' = s
  end.
Proof.
  assert (Hd : ∀ v d, d ≠ 0 → orDefault v d ≠ 0).
  { intros [n|] d Hd; simpl; [|done]. by destruct (Z.eqb_spec n 0). }
  unfold onReset.
  destruct (createNewGame _ _ _ picks now) as [s'| |] eqn:Hrun; [|done..].
  destruct (createNewGame_fields _ _ _ _ _ _ Hrun)
    as (Hr & Hc & Hm & Hst & Hstart & Hend & _).
  rewrite Hr, Hc, Hm. split_and!; try done; by apply Hd.
Qed.

(** X15.  The three difficulties of the page: [handleReset] asks for a
    valid size, so the match it starts is a match in the sense of
    [Reachable]; and the sizes are the ones the time limits are keyed on:
    120 seconds for easy, 300 for medium, 600 for hard. *)
Theorem presets_start_a_match d picks now s :
  Page.handleReset d picks now = Ret s →
  Reachable s ∧
  (rows s, cols s, mines s) = Page.config d ∧
  timeLimit s = match d with
                | Page.Easy => 120 | Page.Medium => 300 | Page.Hard => 600
                end.
Proof.
  unfold Page.handleReset. intros Hrun.
  destruct (Page.config d) as [[nrows ncols] nmines] eqn:Hcfg.
  destruct (createNewGame_fields _ _ _ _ _ _ Hrun)
    as (Hr & Hc & Hm & _ & _ & _ & Htl).
  rewrite Hr, Hc, Hm, Htl. split; [|split; [done|]].
  - apply (Reachable_new nrows ncols nmines picks now); [|done].
    destruct d; injection Hcfg as <- <- <-; unfold validSize; lia.
  - by destruct d; injection Hcfg as <- <- <-.
Qed.

Lemma presets_start_a_match_witness :
  let picks := (λ k, (k `div` 10, k `mod` 10)) <$> seqZ 0 15 in
  ∃ s, Page.handleReset Page.Easy picks 1000 = Ret s ∧ Reachable s ∧
       (rows s, cols s, mines s) = (10, 10, 15) ∧ timeLimit s = 120.
Proof.
  intros picks.
  destruct (Page.handleReset Page.Easy picks 1000) as [s| |] eqn:Hrun;
    [|by vm_compute in Hrun..].
  exists s. split; [done|].
  exact (presets_start_a_match Page.Easy picks 1000 s Hrun).
Defined.

(** ** The clock *)

Lemma checkTimeout_true now s :
  (checkTimeout now s).1 = Ret true ↔
  status s = Playing ∧ startTimeUnset s = false ∧
  timeLimit s ≤ elapsedSeconds now s.
Proof.
  destruct (decide (status s = Playing)) as [Hs|Hs].
  2:{ rewrite checkTimeout_idle by by left. simpl. split; [done|tauto]. }
  destruct (startTimeUnset s) eqn:Hu.
  { rewrite checkTimeout_idle by by right. simpl.
    split; [done|]. by intros (_ & ? & _). }
  rewrite checkTimeout_running by done.
  destruct (decide _); simpl; [done|]. split; [done|tauto].
Qed.

(** X16.  Time that is up stays up, and is reported once: if
    [checkTimeout] ends the match at some clock reading, it would have
    ended it at any later reading as well; and once it has ended the
    match, it returns false at every reading and leaves the state as it
    is. *)
Theorem timeout_is_reported_once now now' now'' s :
  (checkTimeout now s).1 = Ret true → now ≤ now' →
  (checkTimeout now' s).1 = Ret true ∧
  checkTimeout now'' (checkTimeout now s).2 =
    (Ret false, (checkTimeout now s).2).
Proof.
  intros Hdue Hle. split.
  - apply checkTimeout_true in Hdue as (Hs & Hu & Hlim).
    apply checkTimeout_true. split; [done|]. split; [done|].
    etrans; [done|]. unfold elapsedSeconds.
    apply Z.div_le_mono; lia.
  - destruct (checkTimeout_cases now s) as [E | [_ E]];
      rewrite E in Hdue |- *; [done|].
    by apply checkTimeout_idle; left.
Qed.

Lemma timeout_is_reported_once_witness :
  (checkTimeout 200000 board2x3).1 = Ret true ∧
  checkTimeout 300000 (checkTimeout 121000 board2x3).2 =
    (Ret false, (checkTimeout 121000 board2x3).2).
Proof.
  apply (timeout_is_reported_once 121000 200000 300000 board2x3);
    [reflexivity|lia].
Defined.

(** X17.  The countdown of the page and the timeout agree: while the
    match is played, the timer shows 0 exactly at the clock readings at
    which [checkTimeout] ends the match; and once the match was ended by
    the clock, the timer shows 0 at every later reading. *)
Theorem timer_shows_timeout now now' s :
  status s = Playing → startTimeUnset s = false → now ≠ 0 →
  (Page.timer now s = 0 ↔ (checkTimeout now s).1 = Ret true) ∧
  ((checkTimeout now s).1 = Ret true →
   Page.timer now' (checkTimeout now s).2 = 0).
Proof.
  intros Hs Hu Hnow. split.
  - rewrite checkTimeout_true. unfold Page.timer, isPlaying.
    rewrite bool_decide_eq_true_2, Hu by done. cbn [negb andb]. split.
    + intros H. split; [done|]. split; [done|]. clear -H. lia.
    + intros (_ & _ & H). clear -H. lia.
  - intros Hdue. apply checkTimeout_true in Hdue as (_ & _ & Hlim).
    rewrite checkTimeout_running by done. rewrite decide_True by done.
    unfold Page.timer, isPlaying, Page.endTimeSet, startTimeUnset in *.
    cbn [snd status startTime endTime timeLimit].
    rewrite bool_decide_eq_false_2 by done. cbn [andb]. rewrite Hu.
    rewrite (proj2 (Z.eqb_neq now 0)) by done. cbn [negb andb default].
    apply Z.max_l, Z.le_sub_0. exact Hlim.
Qed.

Lemma timer_shows_timeout_witness :
  (Page.timer 121000 board2x3 = 0 ↔
   (checkTimeout 121000 board2x3).1 = Ret true) ∧
  ((checkTimeout 121000 board2x3).1 = Ret true →
   Page.timer 500000 (checkTimeout 121000 board2x3).2 = 0).
Proof.
  apply (timer_shows_timeout 121000 500000 board2x3);
    [reflexivity|reflexivity|lia].
Defined.

(** ** Broadcasts *)

(** X18.  The clients are never left with a stale board: on a
    well-shaped board, whenever a handler of the server changes the state
    it broadcasts the state it leaves.  A handler that returns without a
    broadcast, throws or does not return leaves the state as it was. *)
Theorem every_change_is_broadcast now m s :
  ShapeOf s →
  match serve now m s with
  | (Ret (Some b), s') => b = s'
  | (_, s') => s' = s
  end.
Proof.
  intros Hshape. destruct m as [i j|i j| |prows pcols pmines picks]; simpl.
  - unfold onClick, emitState, bind, get, ret.
    destruct (click_cases now s i j Hshape)
      as [-> | [-> | [(x & _ & _ & _ & _ & ->) | (x & s' & _ & _ & _ & _ & -> & _)]]];
      done.
  - unfold onFlag, emitState, bind, get, ret, readCellOf, modifyGrid, modify.
    destruct (negb (isPlaying s)); [done|].
    destruct (getCell (grid s) i j) as [x|]; [|done].
    by destruct (negb (isRevealed x)).
  - unfold onInterval, emitState, bind, get, ret.
    by destruct (checkTimeout_cases now s) as [-> | [_ ->]].
  - unfold onReset. by destruct (createNewGame _ _ _ picks now).
Qed.

Lemma every_change_is_broadcast_witness :
  match serve 2000 (MClick 1 0) board2x3 with
  | (Ret (Some b), s') => b = s'
  | (_, s') => s' = board2x3
  end.
Proof.
  apply every_change_is_broadcast.
  apply (Reachable_GoodState _ Reachable_board2x3).
Defined.

(** ** The flag counter *)

Lemma flagsUsed_countGrid s :
  Page.flagsUsed s = Z.of_nat (countGrid isFlagged (grid s)).
Proof.
  unfold Page.flagsUsed. f_equal.
  induction (grid s) as [|row g IH]; simpl; [done|].
  rewrite filter_app, length_app, IH. f_equal.
  induction row as [|x row IHrow]; simpl; [done|].
  destruct (isFlagged x) eqn:Hx.
  - rewrite filter_cons_True by done. simpl. by rewrite IHrow.
  - rewrite filter_cons_False by congruence. done.
Qed.

(** X19.  The flag counter behind the "Threats" display moves by
    exactly one with each flag that takes effect, and by nothing else: a
    "flag" for a hidden cell of a match being played adds 1 when the cell
    had no flag and takes 1 away when it had one; every other message,
    and every click and tick, leaves the number of flags as it is. *)
Theorem flag_counter now a s :
  Page.flagsUsed (after now a s) =
  Page.flagsUsed s +
  match a with
  | Flag i j =>
      match getCell (grid s) i j with
      | Some x =>
          if isPlaying s && negb (isRevealed x)
          then (if isFlagged x then -1 else 1) else 0
      | None => 0
      end
  | _ => 0
  end.
Proof.
  rewrite !flagsUsed_countGrid. unfold after. destruct a as [i j|i j|]; cbn [act].
  - rewrite Z.add_0_r. f_equal.
    apply (countGrid_Forall2 isFlagged cell_le); [|apply revealCell_Ext].
    by intros x y (_ & _ & _ & ? & _).
  - unfold flagCell, bind, get, readCellOf, modifyGrid, modify, ret.
    destruct (isPlaying s); cbn [negb andb snd].
    2:{ destruct (getCell (grid s) i j); lia. }
    destruct (getCell (grid s) i j) as [x|] eqn:Hx; cbn [snd]; [|lia].
    destruct (isRevealed x); cbn [negb snd]; [lia|].
    unfold withGrid. cbn [grid].
    pose proof (countGrid_updCell isFlagged toggleFlagged i j _ x Hx) as H.
    replace (isFlagged (toggleFlagged x)) with (negb (isFlagged x)) in H
      by by destruct x.
    destruct (isFlagged x); simpl in H; lia.
  - rewrite Z.add_0_r. f_equal. unfold bind.
    destruct (checkTimeout_cases now s) as [-> | [_ ->]]; [done|].
    apply (countGrid_forEachCell isFlagged revealMine).
    intros x. unfold revealMine. by destruct (isMine x).
Qed.

(** ** A board full of mines *)

Lemma after_full_board now a s :
  (∀ i j x, getCell (grid s) i j = Some x → isMine x = true) →
  status s ≠ Won →
  (∀ i j x, getCell (grid (after now a s)) i j = Some x → isMine x = true) ∧
  status (after now a s) ≠ Won.
Proof.
  intros Hfull Hnw. split.
  - intros i j y Hy.
    destruct (SameBoard_after now a s) as (_&_&_&_&_&_&H).
    specialize (H i j). rewrite Hy in H.
    destruct (getCell (grid s) i j) as [x|] eqn:Hx; [|done].
    destruct H as (_ & _ & -> & _). by eapply Hfull.
  - unfold after. destruct a as [i j|i j|]; cbn [act].
    + destruct (decide (status s = Playing)) as [Hs|Hs].
      2:{ by rewrite click_not_playing. }
      destruct (getCell (grid s) i j) as [x|] eqn:Hx.
      2:{ by rewrite click_out_of_range. }
      destruct (isRevealed x || isFlagged x) eqn:Hb.
      { by rewrite (click_blocked _ _ _ _ x). }
      apply orb_false_iff in Hb as [Hr Hf].
      by rewrite (click_mine _ _ _ _ x Hs Hx Hr Hf (Hfull _ _ _ Hx)).
    + by destruct (flagCell_cases i j s) as [-> | [-> | (x & _ & _ & _ & ->)]].
    + unfold bind.
      by destruct (checkTimeout_cases now s) as [-> | [_ ->]].
Qed.

(** X20.  A match on a board where every cell is a mine is never won:
    it starts with no safe cell hidden, but [checkWin] runs only after a
    safe cell was revealed, so through every run of clicks, flags and
    ticks the match is being played or lost. *)
Theorem full_board_is_never_won l s :
  (∀ i j x, getCell (grid s) i j = Some x → isMine x = true) →
  status s = Playing →
  countGrid unrevealedSafe (grid s) = 0%nat ∧ status (runAll l s) ≠ Won.
Proof.
  intros Hfull Hs. split.
  { apply countGrid_zero. intros i j x Hx. unfold unrevealedSafe.
    by rewrite (Hfull _ _ _ Hx). }
  assert (Hnw : status s ≠ Won) by congruence. clear Hs.
  unfold runAll. revert s Hfull Hnw.
  induction l as [|[now a] l IH]; intros s Hfull Hnw; [done|]. simpl.
  destruct (after_full_board now a s Hfull Hnw). by apply IH.
Qed.

Lemma full_board_is_never_won_witness :
  let s := newGame 1 2 2 [(0, 0); (0, 1)] 1000 in
  countGrid unrevealedSafe (grid s) = 0%nat ∧
  status (runAll [(2000, Flag 0 0); (3000, Click 0 1)] s) ≠ Won.
Proof.
  apply full_board_is_never_won; [|reflexivity].
  intros i j x Hx. apply getCell_Some in Hx as (Hi & Hj & row & Hrow & Hx).
  destruct (Z.to_nat i) as [|[|n]]; simpl in Hrow; [|done..].
  injection Hrow as <-.
  destruct (Z.to_nat j) as [|[|[|n]]]; simpl in Hx; [| |done..];
    by injection Hx as <-.
Defined.

(** ** The page and the server, run side by side *)

Lemma pageAfter_after now a s :
  ShapeOf s → CountsCorrect (grid s) → pageAfter now a s = after now a s.
Proof.
  intros Hshape Hcc. unfold after. destruct a as [i j|i j|]; cbn [pageAfter act].
  - destruct (decide (status s = Playing)) as [Hs|Hs].
    2:{ by rewrite click_not_playing, App_click_not_playing. }
    destruct (getCell (grid s) i j) as [x|] eqn:Hx.
    2:{ by rewrite click_out_of_range, App_click_out_of_range. }
    destruct (isRevealed x || isFlagged x) eqn:Hb.
    { rewrite (click_blocked _ _ _ _ x) by done.
      by rewrite (App_click_blocked _ _ _ _ x). }
    apply orb_false_iff in Hb as [Hr Hf].
    destruct (isMine x) eqn:Hm.
    + rewrite (click_mine _ _ _ _ x) by done.
      by rewrite (App_click_mine _ _ _ _ x).
    + rewrite (engines_agree_safe now s i j x) by
        (done || by apply CountsCorrect_NoAdjMine).
      assert (Hin : inBounds (rows s) (cols s) i j = true).
      { apply (Shape_getCell _ _ _ _ _ Hshape). eauto. }
      by destruct (click_spec now s i j Hshape Hin) as ([] & s' & -> & _).
  - unfold Page.handleCellRightClick, flagCell, bind, get, readCellOf,
      modifyGrid, modify, ret.
    destruct (negb (isPlaying s)); [done|].
    destruct (getCell (grid s) i j) as [x|]; [|done].
    by destruct (isRevealed x).
  - unfold Page.onInterval, checkTimeout, bind, get, modify, revealAllMines,
      modifyGrid, ret.
    destruct (isPlaying s) eqn:Hp; cbn [negb andb orb]; [|done].
    destruct (startTimeUnset s); cbn [negb]; [done|].
    destruct (Z.leb_spec (timeLimit s) (elapsedSeconds now s)).
    + rewrite (proj2 (Z.eqb_eq _ 0)) by lia. by destruct s.
    + by rewrite (proj2 (Z.eqb_neq _ 0)) by lia.
Qed.

(** X21.  The stand-alone page and the server play the same match:
    started in the same state of a match and given the same clicks, flags
    and ticks at the same clock readings, the recursive engine of the
    server and the queue-based engine of the page end in the same state. *)
Theorem page_and_server_play_alike l s :
  Reachable s → pageRunAll l s = runAll l s.
Proof.
  unfold pageRunAll, runAll. revert s.
  induction l as [|[now a] l IH]; intros s Hs; [done|]. simpl.
  destruct (Reachable_GoodState s Hs) as (Hshape & Hcc & _).
  rewrite pageAfter_after by done. by apply IH, Reachable_after.
Qed.

Lemma page_and_server_play_alike_witness :
  let l := [(2000, Flag 0 1); (3000, Click 1 0); (200000, Tick)] in
  pageRunAll l board2x3 = runAll l board2x3.
Proof. apply page_and_server_play_alike, Reachable_board2x3. Defined.

(** ** The socket client *)

(** X22.  A difficulty chosen in the socket client starts the match
    the stand-alone page starts for it: none of the preset numbers is 0,
    so the defaults of the server's reset handler leave them alone, and
    the handler's outcome is that of the page's [handleReset]. *)
Theorem client_reset_is_page_reset d picks now s :
  serve now (Client.handleReset d picks) s =
  match Page.handleReset d picks now with
  | Ret s' => (Ret (Some s'), s')
  | Throw => (Throw, s)
  | Diverge => (Diverge, s)
  end.
Proof. by destruct d. Qed.

(** X23.  The countdown of the socket client is that of the
    stand-alone page: the two timer effects compute the same value
    whenever the time limit is not 0, as it is in every match. *)
Theorem client_timer_is_page_timer now s prev :
  timeLimit s ≠ 0 → Client.timer now s prev = Page.timer now s.
Proof.
  intros Hl. unfold Client.timer, Page.timer.
  rewrite (proj2 (Z.eqb_neq _ 0)) by done. cbn [negb].
  destruct (isPlaying s), (startTimeUnset s), (Page.endTimeSet s); done.
Qed.

Lemma client_timer_is_page_timer_witness :
  Client.timer 5000 board2x3 0 = Page.timer 5000 board2x3.
Proof. by apply client_timer_is_page_timer. Defined.
